(** * The page script app.js: the relationship graph and the page helpers

    A shallow embedding of src/app/ui/assets/app.js, followed by the
    properties proved of it.  The first part is the class
    [RelationshipGraphView]: the model builder [setGraph], the physics step
    [_tick], the pointer handlers installed by [_bindEvents] and the paint
    computed by [draw].  The second part is the code around it: the markup
    helpers [escapeHtml], [badge] and [renderList], the function
    [loadAndRender] of the relationship page, which feeds the view, and the
    transcript and the read loop of the chat ([send], [streamCompletion]).

    - A JavaScript number is an IEEE 754 binary64 value: [number] is
      [spec_float] with the binary64 operations of the standard library
      (round to nearest, ties to even), so every arithmetic step of the
      source is evaluated bit for bit.
    - A JavaScript string is its sequence of UTF-16 code units.
    - The documents the backend sends are typed: a field is absent or
      holds a string, a list of strings or a number.
    - [this.nodes] is a list updated in place by index; [this.nodeIndex] and
      the local [clusterByNode] are finite maps.
    - A function that would throw returns [None]: a TypeError for a
      property read or written on [undefined], the URIError of
      [encodeURIComponent].
    - [Math.cos], [Math.sin] and the results of [Math.random] are
      parameters of [setGraph]; the canvas has a 2D context.
    - The view is driven by events: pointer events, the frame callback and
      the timer requested by [start], resizes, and the host's calls of
      [setGraph].
    - What the network and the platform give to the page helpers is an
      input: the answer of the backend for [loadAndRender], the decoded
      chunks of the answer and the result of [JSON.parse] for the read
      loop. *)

From Stdlib Require Import ZArith NArith List Bool Lia String Ascii.
From Stdlib Require Import Floats.SpecFloat Floats.PrimFloat Floats.FloatOps.
From stdpp Require Import base option list gmap sorting.

Local Open Scope Z_scope.

(** ** JavaScript numbers *)

Abbreviation number := spec_float.

Module Num.

Definition add : number -> number -> number := SFadd prec emax.
Definition sub : number -> number -> number := SFsub prec emax.
Definition mul : number -> number -> number := SFmul prec emax.
Definition div : number -> number -> number := SFdiv prec emax.
Definition sqrt : number -> number := SFsqrt prec emax.
Definition ltb : number -> number -> bool := SFltb.
Definition leb : number -> number -> bool := SFleb.

(** The number denoted by an integer (exact below 2^53). *)
Definition of_Z (z : Z) : number := binary_normalize prec emax z 0 false.
Definition of_nat (n : nat) : number := of_Z (Z.of_nat n).

Definition NaN : number := S754_nan.
Definition is_nan (x : number) : bool :=
  match x with S754_nan => true | _ => false end.

(** ToBoolean on a number: 0, -0 and NaN are falsy. *)
Definition truthy (x : number) : bool :=
  match x with
  | S754_zero _ | S754_nan => false
  | _ => true
  end.

(** [x || d] where [x] is a number. *)
Definition or_else (x d : number) : number := if truthy x then x else d.

(** [Math.max(a, b)]: NaN if either is NaN; +0 is larger than -0. *)
Definition Math_max (a b : number) : number :=
  match SFcompare a b with
  | None => NaN
  | Some Lt => b
  | Some Gt => a
  | Some Eq => match a with S754_zero true => b | _ => a end
  end.

(** [Math.min(a, b)]: NaN if either is NaN; -0 is smaller than +0. *)
Definition Math_min (a b : number) : number :=
  match SFcompare a b with
  | None => NaN
  | Some Lt => a
  | Some Gt => b
  | Some Eq => match a with S754_zero false => b | _ => a end
  end.

(** [Math.round(x)]: the nearest integer, ties towards +infinity; the
    sign of a zero result is the sign of [x]. *)
Definition Math_round (x : number) : number :=
  match x with
  | S754_finite s m e =>
      if 0 <=? e then x
      else
        let k := - e in
        let z := (2 * cond_Zopp s (Zpos m) + 2 ^ k) / 2 ^ (k + 1) in
        if z =? 0 then S754_zero s else of_Z z
  | _ => x
  end.

End Num.

Declare Scope num_scope.
Delimit Scope num_scope with num.
Infix "+" := Num.add : num_scope.
Infix "-" := Num.sub : num_scope.
Infix "*" := Num.mul : num_scope.
Infix "/" := Num.div : num_scope.

(** The numeric literals of the source, each the binary64 value nearest to
    the decimal written in app.js. *)
#[local] Set Warnings "-inexact-float".
Module Lit.
Definition n0 : number := S754_zero false.
Definition n0_01 : number := Eval vm_compute in Prim2SF 0.01%float.
Definition n0_012 : number := Eval vm_compute in Prim2SF 0.012%float.
Definition n0_015 : number := Eval vm_compute in Prim2SF 0.015%float.
Definition n0_08 : number := Eval vm_compute in Prim2SF 0.08%float.
Definition n0_12 : number := Eval vm_compute in Prim2SF 0.12%float.
Definition n0_18 : number := Eval vm_compute in Prim2SF 0.18%float.
Definition n0_25 : number := Eval vm_compute in Prim2SF 0.25%float.
Definition n0_32 : number := Eval vm_compute in Prim2SF 0.32%float.
Definition n0_5 : number := Eval vm_compute in Prim2SF 0.5%float.
Definition n0_55 : number := Eval vm_compute in Prim2SF 0.55%float.
Definition n0_7 : number := Eval vm_compute in Prim2SF 0.7%float.
Definition n0_82 : number := Eval vm_compute in Prim2SF 0.82%float.
Definition n0_88 : number := Eval vm_compute in Prim2SF 0.88%float.
Definition n0_9 : number := Eval vm_compute in Prim2SF 0.9%float.
Definition n1 : number := Eval vm_compute in Prim2SF 1%float.
Definition n1_2 : number := Eval vm_compute in Prim2SF 1.2%float.
Definition n2 : number := Eval vm_compute in Prim2SF 2%float.
Definition n3 : number := Eval vm_compute in Prim2SF 3%float.
Definition n5 : number := Eval vm_compute in Prim2SF 5%float.
Definition n6 : number := Eval vm_compute in Prim2SF 6%float.
Definition n10 : number := Eval vm_compute in Prim2SF 10%float.
Definition n12 : number := Eval vm_compute in Prim2SF 12%float.
Definition n18 : number := Eval vm_compute in Prim2SF 18%float.
Definition n24 : number := Eval vm_compute in Prim2SF 24%float.
Definition n80 : number := Eval vm_compute in Prim2SF 80%float.
Definition n120 : number := Eval vm_compute in Prim2SF 120%float.
Definition n180 : number := Eval vm_compute in Prim2SF 180%float.
Definition n600 : number := Eval vm_compute in Prim2SF 600%float.
Definition n800 : number := Eval vm_compute in Prim2SF 800%float.
Definition n5600 : number := Eval vm_compute in Prim2SF 5600%float.
Definition Math_PI : number := Eval vm_compute in Prim2SF 3.141592653589793%float.
End Lit.

(** ** JavaScript strings *)

(** A string is its sequence of UTF-16 code units ([charCodeAt]). *)
Abbreviation JsString := (list N).

Module Str.

(** The code units of an ASCII literal, to write sample inputs. *)
Definition js (s : string) : JsString := List.map N_of_ascii (list_ascii_of_string s).

(** WhiteSpace and LineTerminator code units, the ones [trim] removes. *)
Definition is_space (c : N) : bool :=
  ((9 <=? c) && (c <=? 13) || (c =? 32) || (c =? 160) || (c =? 5760)
   || (8192 <=? c) && (c <=? 8202) || (c =? 8232) || (c =? 8233)
   || (c =? 8239) || (c =? 8287) || (c =? 12288) || (c =? 65279))%N.

Fixpoint trimStart (s : JsString) : JsString :=
  match s with
  | c :: s' => if is_space c then trimStart s' else s
  | [] => []
  end.

(** [s.trim()] *)
Definition trim (s : JsString) : JsString :=
  rev (trimStart (rev (trimStart s))).

(** ToBoolean on a string: only the empty string is falsy. *)
Definition truthy (s : JsString) : bool :=
  match s with [] => false | _ => true end.

(** [String(v || d)] for an absent-or-string field [v]. *)
Definition or_else (v : option JsString) (d : JsString) : JsString :=
  match v with
  | Some s => if truthy s then s else d
  | None => d
  end.

(** [parts.join(sep)] *)
Fixpoint join (sep : JsString) (parts : list JsString) : JsString :=
  match parts with
  | [] => []
  | [p] => p
  | p :: rest => p ++ sep ++ join sep rest
  end.

(** A leading surrogate (0xD800 to 0xDBFF) and a trailing one (0xDC00 to
    0xDFFF). *)
Definition is_lead (c : N) : bool := ((55296 <=? c) && (c <=? 56319))%N.
Definition is_trail (c : N) : bool := ((56320 <=? c) && (c <=? 57343))%N.

(** [s.isWellFormed()]: every leading surrogate is followed by a trailing
    one, and no trailing surrogate stands elsewhere. *)
Fixpoint isWellFormed (s : JsString) : bool :=
  match s with
  | [] => true
  | c :: s' =>
      if is_lead c then
        match s' with
        | d :: s'' => is_trail d && isWellFormed s''
        | [] => false
        end
      else negb (is_trail c) && isWellFormed s'
  end.

(** The code units [encodeURIComponent] copies: letters, digits and
    [- _ . ! ~ * ' ( )]. *)
Definition is_unescaped (c : N) : bool :=
  ((65 <=? c) && (c <=? 90) || (97 <=? c) && (c <=? 122) || (48 <=? c) && (c <=? 57)
   || (c =? 45) || (c =? 95) || (c =? 46) || (c =? 33) || (c =? 126)
   || (c =? 42) || (c =? 39) || (c =? 40) || (c =? 41))%N.

(** The UTF-8 octets of a code point. *)
Definition utf8 (cp : N) : list N :=
  (if cp <? 128 then [cp]
   else if cp <? 2048 then [192 + cp / 64; 128 + cp mod 64]
   else if cp <? 65536 then
     [224 + cp / 4096; 128 + (cp / 64) mod 64; 128 + cp mod 64]
   else
     [240 + cp / 262144; 128 + (cp / 4096) mod 64; 128 + (cp / 64) mod 64;
      128 + cp mod 64])%N.

Definition hex_digit (d : N) : N := (if d <? 10 then 48 + d else 55 + d)%N.

(** A percent sign and two upper-case hexadecimal digits for each octet. *)
Definition percent (octets : list N) : JsString :=
  octets ≫= fun o => [37; hex_digit (o / 16); hex_digit (o mod 16)]%N.

(** The code point of a surrogate pair. *)
Definition pair_code_point (c d : N) : N :=
  ((c - 55296) * 1024 + (d - 56320) + 65536)%N.

(** [encodeURIComponent(s)]: an unescaped unit is copied, every other code
    point is replaced by its percent-encoded UTF-8 octets, and a surrogate
    outside a pair makes the function throw a URIError ([None]). *)
Fixpoint encodeURIComponent (s : JsString) : option JsString :=
  match s with
  | [] => Some []
  | c :: s' =>
      if is_unescaped c then r ← encodeURIComponent s'; Some (c :: r)
      else if is_lead c then
        match s' with
        | d :: s'' =>
            if is_trail d then
              r ← encodeURIComponent s'';
              Some (percent (utf8 (pair_code_point c d)) ++ r)
            else None
        | [] => None
        end
      else if is_trail c then None
      else r ← encodeURIComponent s'; Some (percent (utf8 c) ++ r)
  end.

End Str.

(** ** The input document *)

(** A field of the JSON document is absent ([None], which also stands for
    [null]) or holds a value of the type the backend writes: a string, a
    list of strings, a number. *)

(** An entry of [graph.nodes]. *)
Record RawNode := {
  raw_id : option JsString;
  raw_title : option JsString;
  raw_authors : option JsString;
  raw_year : option JsString;
  raw_tags : option (list JsString);
  raw_summary : option JsString;
}.

(** An entry of [graph.edges]. *)
Record RawEdge := {
  raw_source : option JsString;
  raw_target : option JsString;
  raw_type : option JsString;
  raw_weight : option number;
  raw_reason : option JsString;
}.

(** An entry of [graph.clusters]. *)
Record RawCluster := {
  node_ids : option (list JsString);
}.

(** The argument of [setGraph]; a field that is not an array counts as the
    empty array. *)
Record GraphDocument := {
  g_nodes : list RawNode;
  g_edges : list RawEdge;
  g_clusters : list RawCluster;
}.

(** ** The simulation model *)

(** An entry of [this.nodes].  [degree] counts edge entries, so it is a
    natural number; [r] is computed from it as a number. *)
Module SimNode.
Record t := mk {
  id : JsString;
  title : JsString;
  authors : JsString;
  year : JsString;
  tags : list JsString;
  summary : JsString;
  color : string;
  x : number;
  y : number;
  vx : number;
  vy : number;
  fx : number;
  fy : number;
  r : number;
  degree : nat;
  fixed : bool;
}.

Definition with_pos (px py : number) (n : t) : t :=
  mk (id n) (title n) (authors n) (year n) (tags n) (summary n) (color n)
     px py (vx n) (vy n) (fx n) (fy n) (r n) (degree n) (fixed n).
Definition with_vel (wx wy : number) (n : t) : t :=
  mk (id n) (title n) (authors n) (year n) (tags n) (summary n) (color n)
     (x n) (y n) wx wy (fx n) (fy n) (r n) (degree n) (fixed n).
Definition with_force (gx gy : number) (n : t) : t :=
  mk (id n) (title n) (authors n) (year n) (tags n) (summary n) (color n)
     (x n) (y n) (vx n) (vy n) gx gy (r n) (degree n) (fixed n).
Definition with_r (rad : number) (n : t) : t :=
  mk (id n) (title n) (authors n) (year n) (tags n) (summary n) (color n)
     (x n) (y n) (vx n) (vy n) (fx n) (fy n) rad (degree n) (fixed n).
Definition with_degree (d : nat) (n : t) : t :=
  mk (id n) (title n) (authors n) (year n) (tags n) (summary n) (color n)
     (x n) (y n) (vx n) (vy n) (fx n) (fy n) (r n) d (fixed n).
Definition with_fixed (b : bool) (n : t) : t :=
  mk (id n) (title n) (authors n) (year n) (tags n) (summary n) (color n)
     (x n) (y n) (vx n) (vy n) (fx n) (fy n) (r n) (degree n) b.
End SimNode.

(** An entry of [this.edges]: [a] and [b] are indices into [this.nodes]. *)
Module SimEdge.
Record t := mk {
  a : nat;
  b : nat;
  type : JsString;
  weight : number;
  reason : JsString;
}.
End SimEdge.

(** The fields of [this] that the engine reads and writes.  [width] and
    [height] are [None] until [resize] has run with a wrapper element;
    [tooltip] is [None] when no tooltip element was given, otherwise whether
    it is displayed. *)
Record View := {
  nodes : list SimNode.t;
  edges : list SimEdge.t;
  nodeIndex : gmap JsString nat;
  hoverIndex : Z;
  dragIndex : Z;
  running : bool;
  width : option number;
  height : option number;
  tooltip : option bool;
}.

Definition set_nodes (ns : list SimNode.t) (v : View) : View :=
  {| nodes := ns; edges := edges v; nodeIndex := nodeIndex v;
     hoverIndex := hoverIndex v; dragIndex := dragIndex v;
     running := running v; width := width v; height := height v;
     tooltip := tooltip v |}.

Definition set_hover (h : Z) (v : View) : View :=
  {| nodes := nodes v; edges := edges v; nodeIndex := nodeIndex v;
     hoverIndex := h; dragIndex := dragIndex v;
     running := running v; width := width v; height := height v;
     tooltip := tooltip v |}.

Definition set_drag (d : Z) (v : View) : View :=
  {| nodes := nodes v; edges := edges v; nodeIndex := nodeIndex v;
     hoverIndex := hoverIndex v; dragIndex := d;
     running := running v; width := width v; height := height v;
     tooltip := tooltip v |}.

Definition set_running (b : bool) (v : View) : View :=
  {| nodes := nodes v; edges := edges v; nodeIndex := nodeIndex v;
     hoverIndex := hoverIndex v; dragIndex := dragIndex v;
     running := b; width := width v; height := height v;
     tooltip := tooltip v |}.

Definition set_tooltip (shown : bool) (v : View) : View :=
  {| nodes := nodes v; edges := edges v; nodeIndex := nodeIndex v;
     hoverIndex := hoverIndex v; dragIndex := dragIndex v;
     running := running v; width := width v; height := height v;
     tooltip := match tooltip v with Some _ => Some shown | None => None end |}.

(** [this.width || 800] and [this.height || 600] *)
Definition view_w (v : View) : number :=
  match width v with Some w => Num.or_else w Lit.n800 | None => Lit.n800 end.
Definition view_h (v : View) : number :=
  match height v with Some h => Num.or_else h Lit.n600 | None => Lit.n600 end.

Local Open Scope num_scope.

(** ** The physics step: [_tick] *)

Module Tick.

(** [nodes[i].fx = 0; nodes[i].fy = 0] *)
Definition reset_force (n : SimNode.t) : SimNode.t :=
  SimNode.with_force Lit.n0 Lit.n0 n.

(** [dx * dx + dy * dy + 0.01] for the pair [(a, b)]. *)
Definition repulse_dist2 (a b : SimNode.t) : number :=
  let dx := SimNode.x b - SimNode.x a in
  let dy := SimNode.y b - SimNode.y a in
  dx * dx + dy * dy + Lit.n0_01.

(** [repulse / dist2] *)
Definition repulse_f (a b : SimNode.t) : number :=
  Lit.n5600 / repulse_dist2 a b.

(** The body of the inner repulsion loop, up to the two updates: the
    vector [(dx * f, dy * f)] computed from the positions of [a] and [b]. *)
Definition repulse_vec (a b : SimNode.t) : number * number :=
  let dx := SimNode.x b - SimNode.x a in
  let dy := SimNode.y b - SimNode.y a in
  let dist2 := repulse_dist2 a b in
  let inv := Lit.n1 / Num.sqrt dist2 in
  let dx := dx * inv in
  let dy := dy * inv in
  let f := repulse_f a b in
  (dx * f, dy * f).

(** [a.fx -= dx * f; a.fy -= dy * f] *)
Definition sub_force (c : number * number) (n : SimNode.t) : SimNode.t :=
  SimNode.with_force (SimNode.fx n - c.1) (SimNode.fy n - c.2) n.

(** [b.fx += dx * f; b.fy += dy * f] *)
Definition add_force (c : number * number) (n : SimNode.t) : SimNode.t :=
  SimNode.with_force (SimNode.fx n + c.1) (SimNode.fy n + c.2) n.

(** One pass of the inner loop body for the pair [i < j]. *)
Definition repulse_pair (i j : nat) (ns : list SimNode.t) : list SimNode.t :=
  match ns !! i, ns !! j with
  | Some a, Some b =>
      let c := repulse_vec a b in
      <[j := add_force c b]> (<[i := sub_force c a]> ns)
  | _, _ => ns
  end.

(** [for (let j = i + 1; j < n; j++) ...] *)
Definition repulse_from (n i : nat) (ns : list SimNode.t) : list SimNode.t :=
  foldl (fun acc j => repulse_pair i j acc) ns (seq (S i) (n - S i)).

(** [for (let i = 0; i < n; i++) ...] *)
Definition repulsion (ns : list SimNode.t) : list SimNode.t :=
  let n := length ns in
  foldl (fun acc i => repulse_from n i acc) ns (seq 0 n).

(** [Math.max(80, Math.min(180, Math.min(w, h) * 0.18))] *)
Definition baseDist (w h : number) : number :=
  Num.Math_max Lit.n80 (Num.Math_min Lit.n180 (Num.Math_min w h * Lit.n0_18)).

(** The spring force of one edge on its endpoint [a]. *)
Definition link_vec (base : number) (e : SimEdge.t) (a b : SimNode.t) : number * number :=
  let dx := SimNode.x b - SimNode.x a in
  let dy := SimNode.y b - SimNode.y a in
  let dist := Num.sqrt (dx * dx + dy * dy) + Lit.n0_01 in
  let target := base * (Lit.n1 - (SimEdge.weight e - Lit.n3) * Lit.n0_08) in
  let strength := Lit.n0_015 * SimEdge.weight e in
  let diff := dist - target in
  ((dx / dist) * diff * strength, (dy / dist) * diff * strength).

(** The body of the link loop.  [nodes[e.a]] or [nodes[e.b]] out of range
    is [undefined], and reading its [x] throws.  The second endpoint is
    read again after the first update, as the two may be one object. *)
Definition link_edge (base : number) (e : SimEdge.t) (ns : list SimNode.t)
  : option (list SimNode.t) :=
  a ← ns !! SimEdge.a e;
  b ← ns !! SimEdge.b e;
  let c := link_vec base e a b in
  let ns1 := <[SimEdge.a e := add_force c a]> ns in
  b1 ← ns1 !! SimEdge.b e;
  Some (<[SimEdge.b e := sub_force c b1]> ns1).

(** [for (let k = 0; k < edges.length; k++) ...] *)
Fixpoint link_attraction (base : number) (es : list SimEdge.t) (ns : list SimNode.t)
  : option (list SimNode.t) :=
  match es with
  | [] => Some ns
  | e :: es' => ns' ← link_edge base e ns; link_attraction base es' ns'
  end.

(** [node.fx += (cx - node.x) * pull; node.fy += (cy - node.y) * pull] *)
Definition center_gravity (cx cy : number) (n : SimNode.t) : SimNode.t :=
  SimNode.with_force
    (SimNode.fx n + (cx - SimNode.x n) * Lit.n0_012)
    (SimNode.fy n + (cy - SimNode.y n) * Lit.n0_012) n.

(** [isWarmup ? 0.82 : 0.88] *)
Definition damping (isWarmup : bool) : number :=
  if isWarmup then Lit.n0_82 else Lit.n0_88.

(** [const margin = 18] *)
Definition margin : number := Lit.n18.

(** [Math.max(margin, Math.min(dim - margin, p))] *)
Definition clamp (dim p : number) : number :=
  Num.Math_max margin (Num.Math_min (dim - margin) p).

(** [node.vx = (node.vx + node.fx) * damping; ...; node.x += node.vx;
    node.y += node.vy] *)
Definition move (damp : number) (n : SimNode.t) : SimNode.t :=
  let vx := (SimNode.vx n + SimNode.fx n) * damp in
  let vy := (SimNode.vy n + SimNode.fy n) * damp in
  SimNode.with_pos (SimNode.x n + vx) (SimNode.y n + vy) (SimNode.with_vel vx vy n).

(** [node.x = Math.max(margin, Math.min(w - margin, node.x)); node.y = ...] *)
Definition clamp_pos (w h : number) (n : SimNode.t) : SimNode.t :=
  SimNode.with_pos (clamp w (SimNode.x n)) (clamp h (SimNode.y n)) n.

(** The body of the integration loop: a fixed node leaves it at the
    [continue], before the position is touched. *)
Definition integrate (damp w h : number) (n : SimNode.t) : SimNode.t :=
  if SimNode.fixed n then SimNode.with_vel Lit.n0 Lit.n0 n
  else clamp_pos w h (move damp n).

(** The force phases of a step, on a non-empty node list. *)
Definition forces (w h : number) (es : list SimEdge.t) (ns : list SimNode.t)
  : option (list SimNode.t) :=
  let cx := w / Lit.n2 in
  let cy := h / Lit.n2 in
  ns' ← link_attraction (baseDist w h) es (repulsion (reset_force <$> ns));
  Some (center_gravity cx cy <$> (ns' : list SimNode.t)).

End Tick.

(** [_tick(isWarmup)] *)
Definition _tick (isWarmup : bool) (v : View) : option View :=
  match nodes v with
  | [] => Some v
  | _ =>
      let w := view_w v in
      let h := view_h v in
      ns ← Tick.forces w h (edges v) (nodes v);
      Some (set_nodes (Tick.integrate (Tick.damping isWarmup) w h <$> (ns : list SimNode.t)) v)
  end.

(** [k] successive steps. *)
Fixpoint ticks (isWarmup : bool) (k : nat) (v : View) : option View :=
  match k with
  | O => Some v
  | S k' => v' ← _tick isWarmup v; ticks isWarmup k' v'
  end.

(** [_warmup(iterations)] *)
Definition _warmup (iterations : nat) (v : View) : option View :=
  ticks true iterations v.

(** [start()]: the frame callbacks it requests arrive as [AnimationFrame]
    events, the timer it sets, which calls [stop()], as [StopTimeout]. *)
Definition start (v : View) : View :=
  if running v then v else set_running true v.

(** ** The model builder: [setGraph] *)

Module Build.

(** [ids.forEach((id) => { if (!clusterByNode.has(String(id))) clusterByNode.set(String(id), idx); })] *)
Definition add_cluster_ids (idx : nat) (ids : list JsString) (m : gmap JsString nat)
  : gmap JsString nat :=
  foldl (fun acc id => match acc !! id with
                       | Some _ => acc
                       | None => <[id := idx]> acc
                       end) m ids.

(** [clustersRaw.forEach((c, idx) => ...)], from cluster number [idx] on. *)
Fixpoint add_clusters (idx : nat) (cs : list RawCluster) (m : gmap JsString nat)
  : gmap JsString nat :=
  match cs with
  | [] => m
  | c :: cs' => add_clusters (S idx) cs' (add_cluster_ids idx (default [] (node_ids c)) m)
  end.

Definition clusterByNode (clustersRaw : list RawCluster) : gmap JsString nat :=
  add_clusters 0 clustersRaw ∅.

Definition palette : list string :=
  ["#059669"; "#10b981"; "#34d399"; "#064e3b"; "#065f46"; "#047857"; "#14b8a6"; "#0d9488"]%string.

(** [palette[Math.abs(Number(idx) || 0) % palette.length]], for an index
    that is a non-negative integer below 2^53. *)
Definition colorForCluster (idx : N) : string :=
  nth (N.to_nat (idx mod N.of_nat (length palette))) palette ""%string.

(** [h = (h * 31 + s.charCodeAt(i)) >>> 0] from [h = 0]: the product and
    sum stay below 2^53, so [>>> 0] is the remainder modulo 2^32. *)
Definition hash (s : JsString) : N :=
  foldl (fun h c => ((h * 31 + c) mod 2 ^ 32)%N) 0%N s.

Definition bar : JsString := [124%N].

(** The callback of [nodesRaw.map]; [None] is the [null] that
    [filter(Boolean)] removes. *)
Definition build_node (cbn : gmap JsString nat) (n : RawNode) : option SimNode.t :=
  let id := Str.trim (Str.or_else (raw_id n) []) in
  let title := Str.trim (Str.or_else (raw_title n) id) in
  if negb (Str.truthy id) then None
  else
    let tags := default [] (raw_tags n) in
    let color :=
      match cbn !! id with
      | Some clusterIdx => colorForCluster (N.of_nat clusterIdx)
      | None =>
          let joined := Str.join bar tags in
          colorForCluster (hash (if Str.truthy joined then joined else title))
      end in
    Some (SimNode.mk id title
            (Str.trim (Str.or_else (raw_authors n) []))
            (Str.trim (Str.or_else (raw_year n) []))
            tags
            (Str.trim (Str.or_else (raw_summary n) []))
            color Lit.n0 Lit.n0 Lit.n0 Lit.n0 Lit.n0 Lit.n0 Lit.n12 0%nat false).

(** [new Map(entries)]: the entries are set in order, a later one
    replacing an earlier one with the same key. *)
Definition Map_of (entries : list (JsString * nat)) : gmap JsString nat :=
  foldl (fun m kv => <[kv.1 := kv.2]> m) ∅ entries.

(** [new Map(this.nodes.map((n, idx) => [n.id, idx]))] *)
Definition build_index (ns : list SimNode.t) : gmap JsString nat :=
  Map_of (imap (fun idx n => (SimNode.id n, idx)) ns).

(** [Math.max(1, Math.min(5, Math.round(Number(e?.weight || 3) || 3)))] *)
Definition edge_weight (raw : option number) : number :=
  let w := Num.or_else (match raw with
                        | Some x => Num.or_else x Lit.n3
                        | None => Lit.n3
                        end) Lit.n3 in
  Num.Math_max Lit.n1 (Num.Math_min Lit.n5 (Num.Math_round w)).

(** The callback of [edgesRaw.map]. *)
Definition build_edge (index : gmap JsString nat) (e : RawEdge) : option SimEdge.t :=
  match index !! Str.or_else (raw_source e) [], index !! Str.or_else (raw_target e) [] with
  | Some a, Some b =>
      if bool_decide (a = b) then None
      else Some (SimEdge.mk a b
                   (Str.or_else (raw_type e) (Str.js "related"))
                   (edge_weight (raw_weight e))
                   (Str.trim (Str.or_else (raw_reason e) [])))
  | _, _ => None
  end.

(** [this.nodes[i].degree += 1] *)
Definition bump_degree (i : nat) (ns : list SimNode.t) : option (list SimNode.t) :=
  n ← ns !! i;
  Some (<[i := SimNode.with_degree (S (SimNode.degree n)) n]> ns).

(** [this.edges.forEach((e) => { nodes[e.a].degree += 1; nodes[e.b].degree += 1; })] *)
Fixpoint count_degrees (es : list SimEdge.t) (ns : list SimNode.t)
  : option (list SimNode.t) :=
  match es with
  | [] => Some ns
  | e :: es' =>
      ns1 ← bump_degree (SimEdge.a e) ns;
      ns2 ← bump_degree (SimEdge.b e) ns1;
      count_degrees es' ns2
  end.

(** [Math.max(10, Math.min(24, 10 + degree * 1.2))] *)
Definition radius_of (degree : nat) : number :=
  Num.Math_max Lit.n10 (Num.Math_min Lit.n24 (Lit.n10 + Num.of_nat degree * Lit.n1_2)).

Definition set_radius (n : SimNode.t) : SimNode.t :=
  SimNode.with_r (radius_of (SimNode.degree n)) n.

(** [Math.min(420, 80 + this.nodes.length * 6)] *)
Definition warmup_iterations (n : nat) : nat := Nat.min 420 (80 + n * 6).

Section Seed.
(** [Math.cos] and [Math.sin] are the platform's; the [k]-th call of
    [Math.random()] made by one [setGraph] returns [rnd k]. *)
Variables Math_cos Math_sin : number -> number.
Variable rnd : nat -> number.

(** The callback of the position loop for node number [i]. *)
Definition seed (w h : number) (nCount : number) (i : nat) (n : SimNode.t) : SimNode.t :=
  let cx := w / Lit.n2 in
  let cy := h / Lit.n2 in
  let radius := Num.Math_max Lit.n120 (Num.Math_min w h * Lit.n0_32) in
  let ang := (Num.of_nat i / nCount) * Lit.Math_PI * Lit.n2 in
  let x := cx + Math_cos ang * radius + (rnd (2 * i) - Lit.n0_5) * Lit.n12 in
  let y := cy + Math_sin ang * radius + (rnd (2 * i + 1) - Lit.n0_5) * Lit.n12 in
  SimNode.with_fixed false (SimNode.with_vel Lit.n0 Lit.n0 (SimNode.with_pos x y n)).

(** The model as [setGraph] has it just before the warm-up. *)
Definition seeded (v : View) (graph : GraphDocument) : option View :=
  let ns0 := omap (build_node (clusterByNode (g_clusters graph))) (g_nodes graph) in
  let index := build_index ns0 in
  let es := omap (build_edge index) (g_edges graph) in
  ns1 ← count_degrees es (SimNode.with_degree 0 <$> ns0);
  let ns2 := set_radius <$> (ns1 : list SimNode.t) in
  let nCount := Num.Math_max Lit.n1 (Num.of_nat (length ns2)) in
  let ns3 := imap (seed (view_w v) (view_h v) nCount) ns2 in
  Some {| nodes := ns3; edges := es; nodeIndex := index;
          hoverIndex := -1; dragIndex := -1;
          running := running v; width := width v; height := height v;
          tooltip := tooltip v |}.

Definition setGraph (v : View) (graph : GraphDocument) : option View :=
  v1 ← seeded v graph;
  v2 ← _warmup (warmup_iterations (length (nodes v1))) v1;
  Some (start v2).
End Seed.

End Build.

(** ** The paint: [draw] *)

(** What one [draw()] puts on the canvas after clearing it: a stroke per
    edge and a disc per node, with the [globalAlpha] in force for each. *)
Record EdgeStroke := {
  stroke_alpha : number;
  stroke_lineWidth : number;
  stroke_from : number * number;
  stroke_to : number * number;
}.

Record NodeLabel := {
  label_text : JsString;
  label_alpha : number;
  label_at : number * number;
}.

Record NodeDisc := {
  disc_alpha : number;
  disc_fill : string;
  disc_center : number * number;
  disc_r : number;
  disc_label : option NodeLabel;
}.

Record Paint := {
  strokes : list EdgeStroke;
  discs : list NodeDisc;
}.

Module Draw.

(** The set [adjacent] collected when a node is hovered. *)
Definition adjacent (hovered : Z) (es : list SimEdge.t) : gset nat :=
  if 0 <=? hovered then
    foldl (fun acc e =>
             if Z.of_nat (SimEdge.a e) =? hovered then {[SimEdge.b e]} ∪ acc
             else if Z.of_nat (SimEdge.b e) =? hovered then {[SimEdge.a e]} ∪ acc
             else acc) ∅ es
  else ∅.

(** [hovered < 0 || e.a === hovered || e.b === hovered] *)
Definition edge_focus (hovered : Z) (e : SimEdge.t) : bool :=
  (hovered <? 0) || (Z.of_nat (SimEdge.a e) =? hovered) || (Z.of_nat (SimEdge.b e) =? hovered).

(** The body of the edge loop; an endpoint out of range throws. *)
Definition edge_stroke (hovered : Z) (ns : list SimNode.t) (e : SimEdge.t)
  : option EdgeStroke :=
  a ← ns !! SimEdge.a e;
  b ← ns !! SimEdge.b e;
  Some {| stroke_alpha := if edge_focus hovered e then Lit.n0_55 else Lit.n0_12;
          stroke_lineWidth := Lit.n1 + (SimEdge.weight e - Lit.n3) * Lit.n0_7;
          stroke_from := (SimNode.x a, SimNode.y a);
          stroke_to := (SimNode.x b, SimNode.y b) |}.

(** [sort((a, b) => b.d - a.d)]: stable, by decreasing degree. *)
Fixpoint insert_by_degree (p : nat * nat) (l : list (nat * nat)) : list (nat * nat) :=
  match l with
  | [] => [p]
  | q :: l' => if (p.2 <? q.2)%nat then q :: insert_by_degree p l' else p :: l
  end.

Definition sort_by_degree (l : list (nat * nat)) : list (nat * nat) :=
  foldr insert_by_degree [] l.

(** The set [important]: the indices of the ten nodes of highest degree. *)
Definition important (ns : list SimNode.t) : gset nat :=
  list_to_set (fst <$> take 10 (sort_by_degree (imap (fun idx n => (idx, SimNode.degree n)) ns))).

Definition ellipsis : JsString := [8230%N].

(** The body of the node loop for node number [i]. *)
Definition node_disc (hovered : Z) (adj imp : gset nat) (labelAll : bool)
    (i : nat) (n : SimNode.t) : NodeDisc :=
  let focus := (hovered <? 0) || (Z.of_nat i =? hovered) || bool_decide (i ∈ adj) in
  let showLabel := labelAll || bool_decide (i ∈ imp) || (Z.of_nat i =? hovered) in
  {| disc_alpha := if focus then Lit.n1 else Lit.n0_25;
     disc_fill := SimNode.color n;
     disc_center := (SimNode.x n, SimNode.y n);
     disc_r := SimNode.r n;
     disc_label :=
       if showLabel then
         let label := if Str.truthy (SimNode.title n) then SimNode.title n else SimNode.id n in
         let short := if (16 <? length label)%nat then take 16 label ++ ellipsis else label in
         Some {| label_text := short;
                 label_alpha := if focus then Lit.n0_9 else Lit.n0_25;
                 label_at := (SimNode.x n + SimNode.r n + Lit.n6, SimNode.y n) |}
       else None |}.

End Draw.

(** [draw()], for a canvas that has a 2D context. *)
Definition draw (v : View) : option Paint :=
  let hovered := hoverIndex v in
  ss ← mapM (Draw.edge_stroke hovered (nodes v)) (edges v);
  Some {| strokes := ss;
          discs := imap (Draw.node_disc hovered (Draw.adjacent hovered (edges v))
                           (Draw.important (nodes v))
                           (length (nodes v) <=? 25)%nat)
                        (nodes v) |}.

(** [stop()]: the pending frame request is cancelled and the view is
    drawn once more. *)
Definition stop (v : View) : option View :=
  if running v then
    let v' := set_running false v in
    _ ← draw v'; Some v'
  else Some v.

(** ** The pointer handlers: [_bindEvents] *)

Module Pointer.

(** [dx * dx + dy * dy <= (n.r + 3) * (n.r + 3)] *)
Definition hit (pos : number * number) (n : SimNode.t) : bool :=
  let dx := pos.1 - SimNode.x n in
  let dy := pos.2 - SimNode.y n in
  Num.leb (dx * dx + dy * dy) ((SimNode.r n + Lit.n3) * (SimNode.r n + Lit.n3)).

(** [for (let i = k - 1; i >= 0; i--) ... return -1] *)
Fixpoint findNodeAt_below (k : nat) (pos : number * number) (ns : list SimNode.t) : Z :=
  match k with
  | O => -1
  | S i =>
      match ns !! i with
      | Some n => if hit pos n then Z.of_nat i else findNodeAt_below i pos ns
      | None => findNodeAt_below i pos ns
      end
  end.

Definition findNodeAt (pos : number * number) (v : View) : Z :=
  findNodeAt_below (length (nodes v)) pos (nodes v).

(** [this.nodes[i]] for a stored index [i]; a property write on
    [undefined] throws. *)
Definition node_at (i : Z) (v : View) : option SimNode.t :=
  if i <? 0 then None else nodes v !! Z.to_nat i.

Definition put_node (i : Z) (n : SimNode.t) (v : View) : View :=
  set_nodes (<[Z.to_nat i := n]> (nodes v)) v.

Definition mousemove (pos : number * number) (v : View) : option View :=
  if 0 <=? dragIndex v then
    n ← node_at (dragIndex v) v;
    Some (start (put_node (dragIndex v) (SimNode.with_pos pos.1 pos.2 n) v))
  else
    let idx := findNodeAt pos v in
    v1 ← (if idx =? hoverIndex v then Some v
          else let v' := set_hover idx v in _ ← draw v'; Some v');
    Some (set_tooltip (0 <=? idx) v1).

Definition mouseleave (v : View) : option View :=
  let v' := set_tooltip false (set_drag (-1) (set_hover (-1) v)) in
  _ ← draw v'; Some v'.

Definition mousedown (button : Z) (pos : number * number) (v : View) : option View :=
  if negb (button =? 0) then Some v
  else
    let idx := findNodeAt pos v in
    if idx <? 0 then Some v
    else
      n ← node_at idx v;
      Some (start (put_node idx
                     (SimNode.with_pos pos.1 pos.2 (SimNode.with_fixed true n))
                     (set_drag idx v))).

Definition mouseup (v : View) : option View :=
  if dragIndex v <? 0 then Some v
  else
    n ← node_at (dragIndex v) v;
    Some (start (set_drag (-1) (put_node (dragIndex v) (SimNode.with_fixed false n) v))).

(** [click]: on a node, the [window.open] of the node's page, whose
    address holds [encodeURIComponent(n.id)]; the view itself is left as
    it is. *)
Definition click (pos : number * number) (v : View) : option View :=
  let idx := findNodeAt pos v in
  if idx <? 0 then Some v
  else
    n ← node_at idx v;
    _ ← Str.encodeURIComponent (SimNode.id n);
    Some v.

End Pointer.

(** ** The view as an event-driven machine *)

Definition set_size (w h : number) (v : View) : View :=
  {| nodes := nodes v; edges := edges v; nodeIndex := nodeIndex v;
     hoverIndex := hoverIndex v; dragIndex := dragIndex v;
     running := running v; width := Some w; height := Some h;
     tooltip := tooltip v |}.

(** [resize()] with a wrapper element of the given client size. *)
Definition resize (clientWidth clientHeight : number) (v : View) : option View :=
  let w := Num.Math_max Lit.n10 (Num.or_else clientWidth Lit.n10) in
  let h := Num.Math_max Lit.n10 (Num.or_else clientHeight Lit.n10) in
  let v' := set_size w h v in
  _ ← draw v'; Some v'.

(** The constructor: an empty model; [wrap] is the client size of the
    wrapper element when there is one. *)
Definition create (hasTooltip : bool) (wrap : option (number * number)) : option View :=
  let v := {| nodes := []; edges := []; nodeIndex := ∅;
              hoverIndex := -1; dragIndex := -1; running := false;
              width := None; height := None;
              tooltip := if hasTooltip then Some false else None |} in
  match wrap with
  | Some (cw, ch) => resize cw ch v
  | None => Some v
  end.

(** What reaches the view: the pointer events with the position relative to
    the canvas ([toPos]), the frame callback and the timer requested by
    [start], a size change of the wrapper, and the host's [setGraph]. *)
Inductive Event :=
  | MouseMove (pos : number * number)
  | MouseLeave
  | MouseDown (button : Z) (pos : number * number)
  | MouseUp
  | Click (pos : number * number)
  | AnimationFrame
  | StopTimeout
  | Resize (clientWidth clientHeight : number)
  | SetGraph (graph : GraphDocument) (rnd : nat -> number).

Section Machine.
Variables Math_cos Math_sin : number -> number.

(** The frame callback [step] of [start]. *)
Definition animation_frame (v : View) : option View :=
  if running v then
    v' ← _tick false v;
    _ ← draw v'; Some v'
  else Some v.

Definition handle (v : View) (ev : Event) : option View :=
  match ev with
  | MouseMove pos => Pointer.mousemove pos v
  | MouseLeave => Pointer.mouseleave v
  | MouseDown button pos => Pointer.mousedown button pos v
  | MouseUp => Pointer.mouseup v
  | Click pos => Pointer.click pos v
  | AnimationFrame => animation_frame v
  | StopTimeout => stop v
  | Resize cw ch => resize cw ch v
  | SetGraph graph rnd => Build.setGraph Math_cos Math_sin rnd v graph
  end.

Fixpoint run (v : View) (evs : list Event) : option View :=
  match evs with
  | [] => Some v
  | ev :: evs' => v' ← handle v ev; run v' evs'
  end.
End Machine.

Local Close Scope num_scope.

(** ** Markup helpers: [escapeHtml], [badge], [renderList] *)

Module Html.

(** [s.replaceAll(pat, rep)] for a pattern [pat] of one code unit and a
    replacement without [$]: every occurrence of the unit, from left to
    right, is replaced. *)
Fixpoint replaceAll (pat : N) (rep s : JsString) : JsString :=
  match s with
  | [] => []
  | c :: s' =>
      if (c =? pat)%N then rep ++ replaceAll pat rep s'
      else c :: replaceAll pat rep s'
  end.

Definition amp : N := 38.
Definition lt : N := 60.
Definition gt : N := 62.
Definition quot : N := 34.
Definition apos : N := 39.

(** [escapeHtml(s)], for a string [s]. *)
Definition escapeHtml (s : JsString) : JsString :=
  replaceAll apos (Str.js "&#39;")
    (replaceAll quot (Str.js "&quot;")
       (replaceAll gt (Str.js "&gt;")
          (replaceAll lt (Str.js "&lt;")
             (replaceAll amp (Str.js "&amp;") s)))).

(** [`<span class="badge ${cls}">${escapeHtml(s)}</span>`] *)
Definition badge_span (cls s : JsString) : JsString :=
  Str.js "<span class=" ++ [quot] ++ Str.js "badge " ++ cls ++ [quot] ++ Str.js ">"
  ++ escapeHtml s ++ Str.js "</span>".

(** [badge(state)], for a state that is absent or a string. *)
Definition badge (state : option JsString) : JsString :=
  let s := Str.or_else state (Str.js "unknown") in
  let cls :=
    if bool_decide (s ∈ [Str.js "analyzed"; Str.js "translated"]) then Str.js "ok"
    else if bool_decide (s = Str.js "failed") then Str.js "bad"
    else Str.js "warn" in
  badge_span cls s.

(** [`<div class="hint">未提及</div>`] *)
Definition hint_not_mentioned : JsString :=
  Str.js "<div class=" ++ [quot] ++ Str.js "hint" ++ [quot] ++ Str.js ">"
  ++ [26410; 25552; 21450]%N ++ Str.js "</div>".

(** [renderList(items)], for [items] that is absent or a list of strings. *)
Definition renderList (items : option (list JsString)) : JsString :=
  match items with
  | None | Some [] => hint_not_mentioned
  | Some l =>
      let lis := Str.join [] ((fun x => Str.js "<li>" ++ escapeHtml x ++ Str.js "</li>") <$> l) in
      Str.js "<ul>" ++ lis ++ Str.js "</ul>"
  end.

End Html.

(** ** The relationship page: [initRelationship] *)

Module Page.

(** [data.meta] of the answer of [/api/relationship]; a field is absent or
    holds a value of the type the backend writes. *)
Record Meta := {
  meta_state : option JsString;
  meta_error : option JsString;
  meta_updated_at : option JsString;
  meta_papers_count : option number;
}.

(** Which of the two blocks is displayed: the empty-state block
    ([showEmpty]) or the canvas wrapper ([showGraph]). *)
Inductive Panel := PanelEmpty | PanelGraph.

(** The text [setStatus] was last called with, by the template that made
    it: the fixed text of the running analysis, the text of a failed
    analysis with [meta.error || "unknown"], the fixed text of the missing
    graph, and the text with [nodes.length], [edges.length] and
    [meta.updated_at] when it is not empty. *)
Inductive Status :=
  | StatusRunning
  | StatusFailed (error : JsString)
  | StatusNoGraph
  | StatusReady (papers relations : nat) (updated_at : option JsString).

(** The state of the page: the status line, the displayed block, the
    buttons ([build_disabled] for the two build buttons, [build_again] for
    the label of the first one), the [busy] flag and the view. *)
Record t := {
  status : option Status;
  panel : Panel;
  build_disabled : bool;
  refresh_disabled : bool;
  build_again : bool;
  busy : bool;
  view : View;
}.

(** [updateButtons(meta)] *)
Definition updateButtons (meta : Meta) (pg : t) : t :=
  let running := bool_decide (Str.or_else (meta_state meta) [] = Str.js "running") in
  let hasGraph := match meta_papers_count meta with
                  | Some c => Num.truthy c
                  | None => false
                  end in
  {| status := status pg; panel := panel pg;
     build_disabled := running || busy pg;
     refresh_disabled := busy pg;
     build_again := hasGraph;
     busy := busy pg; view := view pg |}.

(** [setStatus(text); showEmpty()] *)
Definition show_empty (s : Status) (pg : t) : t :=
  {| status := Some s; panel := PanelEmpty;
     build_disabled := build_disabled pg; refresh_disabled := refresh_disabled pg;
     build_again := build_again pg; busy := busy pg; view := view pg |}.

(** [setStatus(text); showGraph(); view.setGraph(graph)], once the view
    has been resized and rebuilt. *)
Definition show_graph (s : Status) (v : View) (pg : t) : t :=
  {| status := Some s; panel := PanelGraph;
     build_disabled := build_disabled pg; refresh_disabled := refresh_disabled pg;
     build_again := build_again pg; busy := busy pg; view := v |}.

Section Load.
Variables Math_cos Math_sin : number -> number.

(** [loadAndRender()] on the fetched [meta] and [graph]; [client] is the
    client size of the wrapper once it is displayed, which [showGraph]
    reads through [view.resize()]. *)
Definition loadAndRender (meta : Meta) (graph : GraphDocument)
    (client : number * number) (rnd : nat -> number) (pg : t) : option t :=
  let pg := updateButtons meta pg in
  let state := Str.or_else (meta_state meta) (Str.js "idle") in
  if bool_decide (state = Str.js "running") then Some (show_empty StatusRunning pg)
  else if bool_decide (state = Str.js "failed") then
    Some (show_empty (StatusFailed (Str.or_else (meta_error meta) (Str.js "unknown"))) pg)
  else
    match g_nodes graph with
    | [] => Some (show_empty StatusNoGraph pg)
    | _ :: _ =>
        let ts := match meta_updated_at meta with
                  | Some s => if Str.truthy s then Some s else None
                  | None => None
                  end in
        v1 ← resize client.1 client.2 (view pg);
        v2 ← Build.setGraph Math_cos Math_sin rnd v1 graph;
        Some (show_graph (StatusReady (length (g_nodes graph)) (length (g_edges graph)) ts)
                v2 pg)
    end.

End Load.

End Page.

(** ** The chat with the assistant: [initAiChat] *)

Module Chat.

(** An entry of [chat]. *)
Record Msg := {
  role : JsString;
  content : JsString;
}.

Definition user : JsString := Str.js "user".
Definition assistant : JsString := Str.js "assistant".

(** The variables [chat] and [busy] of [initAiChat]. *)
Record t := {
  chat : list Msg;
  busy : bool;
}.

Definition init : t := {| chat := []; busy := false |}.

(** [chat.filter((m) => m && (m.role === "user" || m.role === "assistant"))
         .slice(-12)
         .map((m) => ({ role: m.role, content: String(m.content || "") }))] *)
Definition history (c : list Msg) : list Msg :=
  let kept := filter (fun m => role m = user \/ role m = assistant) c in
  (fun m => {| role := role m; content := content m |})
    <$> drop (length kept - 12) kept.

(** [send()] with [text] in the input box, up to the request: the new
    state, and the [messages] of the request when one is made. *)
Definition send (text : JsString) (st : t) : t * option (list Msg) :=
  let text := Str.trim text in
  if negb (Str.truthy text) then (st, None)
  else if busy st then (st, None)
  else
    let c := chat st ++ [{| role := user; content := text |};
                         {| role := assistant; content := [] |}] in
    ({| chat := c; busy := true |}, Some (history c)).

(** A write to [assistant.content]: the object [send] pushed last, which
    is the last entry of [chat] while the request is in flight. *)
Definition update_reply (f : JsString -> JsString) (c : list Msg) : list Msg :=
  match last c with
  | Some m => <[pred (length c) := {| role := role m; content := f (content m) |}]> c
  | None => c
  end.

(** [`（请求失败：${e.message || e}）`] *)
Definition failure (message : JsString) : JsString :=
  [65288; 35831; 27714; 22833; 36133; 65306]%N ++ message ++ [65289]%N.

(** What happens to the chat: [send()] with the text of the input box, a
    delta of the answer ([onDelta]), the failure of the request (the
    [catch] and [finally] of [send]), its completion ([finally]) and the
    clear button.  The three callbacks of a request only run while it is
    in flight. *)
Inductive Event :=
  | Send (text : JsString)
  | Delta (delta : JsString)
  | Failed (message : JsString)
  | Finished
  | Clear.

Definition step (st : t) (ev : Event) : t :=
  match ev with
  | Send text => (send text st).1
  | Delta delta =>
      if busy st then
        {| chat := update_reply (fun s => s ++ delta) (chat st); busy := true |}
      else st
  | Failed message =>
      if busy st then
        {| chat := update_reply (fun _ => failure message) (chat st); busy := false |}
      else st
  | Finished => if busy st then {| chat := chat st; busy := false |} else st
  | Clear => if busy st then st else {| chat := []; busy := false |}
  end.

Definition run (evs : list Event) : t := foldl step init evs.

End Chat.

(** ** The streamed answer: the read loop of [streamCompletion] *)

Module Stream.

Definition lf : N := 10.
Definition cr : N := 13.

(** [buf.replace(/\r/g, "")] *)
Definition strip_cr (s : JsString) : JsString := filter (fun c => c <> cr) s.

(** [c] put in front of the first event, or of the rest when there is no
    event. *)
Definition cons_first (c : N) (r : list JsString * JsString) : list JsString * JsString :=
  match r.1 with
  | [] => ([], c :: r.2)
  | e :: evs => ((c :: e) :: evs, r.2)
  end.

(** The inner [while] loop on [buf]: the events it takes off, each the text
    before the first ["\n\n"] of what is left ([buf.slice(0, idx)], then
    [buf = buf.slice(idx + 2)]), and the [buf] it leaves when [indexOf]
    finds no more. *)
Fixpoint split_events (s : JsString) : list JsString * JsString :=
  match s with
  | [] => ([], [])
  | c :: s' =>
      match s' with
      | d :: s'' =>
          if (c =? lf)%N && (d =? lf)%N then
            let r := split_events s'' in ([] :: r.1, r.2)
          else cons_first c (split_events s')
      | [] => ([], [c])
      end
  end.

(** [event.split("\n")] *)
Fixpoint split_lines (s : JsString) : list JsString :=
  match s with
  | [] => [[]]
  | c :: s' =>
      if (c =? lf)%N then [] :: split_lines s'
      else match split_lines s' with
           | l :: ls => (c :: l) :: ls
           | [] => [[c]]
           end
  end.

(** What the body of the [for] loop does with one line: nothing
    ([continue]), a call of [onDelta], or the [return] of the function. *)
Inductive LineResult :=
  | Skip
  | Emit (text : JsString)
  | Return.

Section Read.
(** The text that [JSON.parse(dataStr)] and the fields of the first choice
    give for a data string ([String(delta || full)]), when the string
    parses and that text is not empty. *)
Variable payload : JsString -> option JsString.

Definition on_line (line : JsString) : LineResult :=
  if bool_decide (take 5 line = Str.js "data:") then
    let dataStr := Str.trim (drop 5 line) in
    if negb (Str.truthy dataStr) then Skip
    else if bool_decide (dataStr = Str.js "[DONE]") then Return
    else match payload dataStr with
         | Some text => Emit text
         | None => Skip
         end
  else Skip.

(** The [for] loop on the lines of an event: the texts given to
    [onDelta], and whether the function returned. *)
Fixpoint on_lines (lines : list JsString) : list JsString * bool :=
  match lines with
  | [] => ([], false)
  | line :: rest =>
      match on_line line with
      | Skip => on_lines rest
      | Emit text => let r := on_lines rest in (text :: r.1, r.2)
      | Return => ([], true)
      end
  end.

(** The events of one pass of the inner loop, in order, up to a return. *)
Fixpoint on_events (evs : list JsString) : list JsString * bool :=
  match evs with
  | [] => ([], false)
  | e :: evs' =>
      let r := on_lines (split_lines e) in
      if r.2 then r
      else let r' := on_events evs' in (r.1 ++ r'.1, r'.2)
  end.

(** The variable [buf], the texts given to [onDelta] so far, and whether
    the function has returned. *)
Record t := {
  buf : JsString;
  deltas : list JsString;
  returned : bool;
}.

Definition init : t := {| buf := []; deltas := []; returned := false |}.

(** One pass of the outer loop, for a chunk that the decoder turns into
    the text [chunk]. *)
Definition read (st : t) (chunk : JsString) : t :=
  if returned st then st
  else
    let evs := split_events (strip_cr (buf st ++ chunk)) in
    let r := on_events evs.1 in
    {| buf := evs.2; deltas := deltas st ++ r.1; returned := r.2 |}.

(** The texts given to [onDelta] while the chunks are read. *)
Definition stream (chunks : list JsString) : list JsString :=
  deltas (foldl read init chunks).

End Read.

End Stream.

(** * Vocabulary of the properties, and sample inputs *)

(** [n'] is [n] with another accumulated force. *)
Definition force_only (n n' : SimNode.t) : Prop :=
  n' = SimNode.with_force (SimNode.fx n') (SimNode.fy n') n.

(** The endpoints of an edge index the node list. *)
Definition edge_in_range (n : nat) (e : SimEdge.t) : Prop :=
  (SimEdge.a e < n)%nat /\ (SimEdge.b e < n)%nat.

(** The part of a node that only [setGraph] writes. *)
Definition static (n : SimNode.t) :=
  (SimNode.id n, SimNode.title n, SimNode.authors n, SimNode.year n, SimNode.tags n,
   SimNode.summary n, SimNode.color n, SimNode.r n, SimNode.degree n).

(** Every edge of the view indexes its node list. *)
Definition edges_in_range (v : View) : Prop :=
  Forall (edge_in_range (length (nodes v))) (edges v).

(** The position lies in [[18, w - 18] x [18, h - 18]]. *)
Definition in_box (w h : number) (n : SimNode.t) : bool :=
  Num.leb Tick.margin (SimNode.x n) && Num.leb (SimNode.x n) (w - Tick.margin)%num
  && Num.leb Tick.margin (SimNode.y n) && Num.leb (SimNode.y n) (h - Tick.margin)%num.

(** A platform whose cosine and sine are right at angle 0, the only angle
    a one-node graph asks for, and a [Math.random] that always returns 0.5
    (no jitter). *)
Definition cos_at_0 (ang : number) : number := Lit.n1.
Definition sin_at_0 (ang : number) : number := Lit.n0.
Definition no_jitter (k : nat) : number := Lit.n0_5.

(** A platform whose cosine and sine are right at the two angles a
    two-node graph asks for, 0 and pi. *)
Definition cos_two (ang : number) : number :=
  if SFeqb ang Lit.Math_PI then Num.of_Z (-1) else Lit.n1.
Definition sin_pi : number := Eval vm_compute in Prim2SF 1.2246467991473532e-16%float.
Definition sin_two (ang : number) : number :=
  if SFeqb ang Lit.Math_PI then sin_pi else Lit.n0.

Definition jitter (k : nat) : number :=
  match k with
  | 0%nat => Lit.n0_25
  | 1%nat => Lit.n0_7
  | 2%nat => Lit.n0_12
  | _ => Lit.n0_55
  end.

Definition raw_node (id : string) : RawNode :=
  {| raw_id := Some (Str.js id); raw_title := None; raw_authors := None;
     raw_year := None; raw_tags := None; raw_summary := None |}.

Definition raw_edge (source target : string) : RawEdge :=
  {| raw_source := Some (Str.js source); raw_target := Some (Str.js target);
     raw_type := None; raw_weight := None; raw_reason := None |}.

(** The one-paper document. *)
Definition one_node_graph : GraphDocument :=
  {| g_nodes := [raw_node "A"]; g_edges := []; g_clusters := [] |}.

(** A press on the node of [one_node_graph] in the middle of an 800 x 600
    canvas, and a drag to (5, 5). *)
Definition drag_to_corner : list Event :=
  [SetGraph one_node_graph no_jitter;
   MouseDown 0 (Num.of_Z 400, Num.of_Z 300);
   MouseMove (Num.of_Z 5, Num.of_Z 5)].

(** A node as [setGraph] makes it, put at [(px, py)] with velocity
    [(wx, wy)]. *)
Definition sample_node (id : string) (px py wx wy : Z) (pinned : bool) : SimNode.t :=
  SimNode.mk (Str.js id) (Str.js id) [] [] [] [] "#059669"
    (Num.of_Z px) (Num.of_Z py) (Num.of_Z wx) (Num.of_Z wy) Lit.n0 Lit.n0
    Lit.n10 0 pinned.

(** An 800 x 600 view of the given nodes and edges, nothing hovered or
    dragged. *)
Definition sample_view (ns : list SimNode.t) (es : list SimEdge.t) : View :=
  {| nodes := ns; edges := es; nodeIndex := Build.build_index ns;
     hoverIndex := -1; dragIndex := -1; running := true;
     width := Some Lit.n800; height := Some Lit.n600; tooltip := Some false |}.

(** A free node moving right at the right border, and a pinned node in
    the corner. *)
Definition border_view : View :=
  sample_view [sample_node "A" 780 300 20 0 false; sample_node "B" 5 5 0 0 true] [].

Definition border_view_next : View :=
  Eval vm_compute in default border_view (ticks false 1 border_view).

(** The surviving nodes and the built edges of a document, as the two
    [map(...).filter(Boolean)] chains of [setGraph] compute them. *)
Definition built_nodes (graph : GraphDocument) : list SimNode.t :=
  omap (Build.build_node (Build.clusterByNode (g_clusters graph))) (g_nodes graph).

Definition built_edges (graph : GraphDocument) : list SimEdge.t :=
  omap (Build.build_edge (Build.build_index (built_nodes graph))) (g_edges graph).

(** An edge entry references node number [i]. *)
Definition references (i : nat) (e : SimEdge.t) : bool :=
  bool_decide (SimEdge.a e = i) || bool_decide (SimEdge.b e = i).

(** The number of edge entries that reference node number [i]. *)
Fixpoint referencing (i : nat) (es : list SimEdge.t) : nat :=
  match es with
  | [] => 0
  | e :: es' => ((if references i e then 1 else 0) + referencing i es')%nat
  end.

(** The endpoints of an edge index the node list and differ. *)
Definition edge_ok (n : nat) (e : SimEdge.t) : Prop :=
  (SimEdge.a e < n)%nat /\ (SimEdge.b e < n)%nat /\ SimEdge.a e <> SimEdge.b e.

(** How many times the degree loop bumps node number [i] for one edge. *)
Definition bumps (i : nat) (e : SimEdge.t) : nat :=
  ((if bool_decide (SimEdge.a e = i) then 1 else 0)
   + (if bool_decide (SimEdge.b e = i) then 1 else 0))%nat.

(** The static part [setGraph] gives node number [i], built from the
    surviving node [n0]: its degree is the number of built edges that
    reference it, its radius is computed from that degree. *)
Definition built_static (graph : GraphDocument) (i : nat) (n0 : SimNode.t) :=
  let d := referencing i (built_edges graph) in
  (SimNode.id n0, SimNode.title n0, SimNode.authors n0, SimNode.year n0, SimNode.tags n0,
   SimNode.summary n0, SimNode.color n0, Build.radius_of d, d).

(** The keys [setGraph] looks up for a raw edge:
    [String(e?.source || "")] and [String(e?.target || "")]. *)
Definition source_key (e : RawEdge) : JsString := Str.or_else (raw_source e) [].
Definition target_key (e : RawEdge) : JsString := Str.or_else (raw_target e) [].

(** The id under which a raw node survives, if it does:
    [String(n?.id || "").trim()] when that is not empty. *)
Definition node_key (n : RawNode) : option JsString :=
  let id := Str.trim (Str.or_else (raw_id n) []) in
  if Str.truthy id then Some id else None.

(** The number of the first cluster, counting from [idx], whose [node_ids]
    contain [id]. *)
Fixpoint first_cluster_from (idx : nat) (id : JsString) (cs : list RawCluster) : option nat :=
  match cs with
  | [] => None
  | c :: cs' =>
      if bool_decide (id ∈ default [] (node_ids c)) then Some idx
      else first_cluster_from (S idx) id cs'
  end.

Definition first_cluster (id : JsString) (cs : list RawCluster) : option nat :=
  first_cluster_from 0 id cs.

(** The string [setGraph] hashes for a node no cluster contains: the tags
    joined by a bar, or the title when that string is empty. *)
Definition hash_input (tags : list JsString) (title : JsString) : JsString :=
  let joined := Str.join Build.bar tags in
  if Str.truthy joined then joined else title.

(** The string C5 says is hashed: the tag list, or the title when the
    node has no tags. *)
Definition claimed_hash_input (tags : list JsString) (title : JsString) : JsString :=
  match tags with
  | [] => title
  | _ => Str.join Build.bar tags
  end.

(** The color of the node a raw node becomes, from the document alone. *)
Definition color_of (graph : GraphDocument) (n : RawNode) : option string :=
  id ← node_key n;
  Some (match first_cluster id (g_clusters graph) with
        | Some k => Build.colorForCluster (N.of_nat k)
        | None =>
            Build.colorForCluster
              (Build.hash (hash_input (default [] (raw_tags n))
                             (Str.trim (Str.or_else (raw_title n) id))))
        end).

(** Two papers titled "b" in no cluster: A has one tag, the empty string,
    and B has two tags, both the empty string. *)
Definition empty_tag_graph : GraphDocument :=
  {| g_nodes := [{| raw_id := Some (Str.js "A"); raw_title := Some (Str.js "b");
                    raw_authors := None; raw_year := None;
                    raw_tags := Some [[]]; raw_summary := None |};
                 {| raw_id := Some (Str.js "B"); raw_title := Some (Str.js "b");
                    raw_authors := None; raw_year := None;
                    raw_tags := Some [[]; []]; raw_summary := None |}];
     g_edges := []; g_clusters := [] |}.

(** An edge has node number [i] as an endpoint. *)
Definition touches (i : Z) (e : SimEdge.t) : bool :=
  (Z.of_nat (SimEdge.a e) =? i) || (Z.of_nat (SimEdge.b e) =? i).

(** An edge has the hovered node or one of its neighbours as an
    endpoint. *)
Definition touches_neighbourhood (hovered : Z) (es : list SimEdge.t) (e : SimEdge.t) : bool :=
  touches hovered e
  || bool_decide (SimEdge.a e ∈ Draw.adjacent hovered es)
  || bool_decide (SimEdge.b e ∈ Draw.adjacent hovered es).

(** Three papers in a row, X - Y - Z, with the pointer on X. *)
Definition chain_view : View :=
  sample_view
    [sample_node "X" 200 300 0 0 false; sample_node "Y" 400 300 0 0 false;
     sample_node "Z" 600 300 0 0 false]
    [SimEdge.mk 0 1 (Str.js "related") Lit.n3 [];
     SimEdge.mk 1 2 (Str.js "related") Lit.n3 []].

(** A press on the node of [one_node_graph], a drag to (100, 100), and the
    pointer leaving the canvas. *)
Definition drag_then_leave : list Event :=
  [SetGraph one_node_graph no_jitter;
   MouseDown 0 (Num.of_Z 400, Num.of_Z 300);
   MouseMove (Num.of_Z 100, Num.of_Z 100);
   MouseLeave].

Definition is_SetGraph (ev : Event) : bool :=
  match ev with SetGraph _ _ => true | _ => false end.

(** The paint of a view without nodes and edges: the canvas is cleared and
    nothing is put on it. *)
Definition empty_paint : Paint := {| strokes := []; discs := [] |}.

(** A view without nodes, without edges and with no node dragged. *)
Definition quiet (v : View) : Prop :=
  nodes v = [] /\ edges v = [] /\ dragIndex v = -1.

(** Two papers with the id A around a paper B, and four relations. *)
Definition duplicate_graph : GraphDocument :=
  {| g_nodes := [raw_node "A"; raw_node "B"; raw_node " A "];
     g_edges := [raw_edge "A" "B"; raw_edge "B" "C"; raw_edge "B" "B"; raw_edge "B" "A"];
     g_clusters := [] |}.

(** A document without nodes whose one edge names two papers. *)
Definition no_node_graph : GraphDocument :=
  {| g_nodes := []; g_edges := [raw_edge "A" "B"]; g_clusters := [] |}.

(** The number of binary digits of a positive mantissa. *)
Definition digits (m : positive) : Z := Zpos (digits2_pos m).

(** The number is +infinity or a positive finite number whose mantissa and
    exponent satisfy [k <= digits m + e] (it is at least [2 ^ (k - 1)]) and
    [k - prec <= e]. *)
Definition at_least (k : Z) (x : number) : Prop :=
  x = S754_infinity false
  \/ exists m e, x = S754_finite false m e /\ k <= digits m + e /\ k - prec <= e.

(** The number is NaN, +infinity, +0 or a positive finite number. *)
Definition nonneg (x : number) : Prop :=
  match x with
  | S754_nan | S754_infinity false | S754_zero false | S754_finite false _ _ => True
  | _ => False
  end.

Definition is_finite (x : number) : bool :=
  match x with S754_finite _ _ _ | S754_zero _ => true | _ => false end.

Definition radius_in_bounds (d : nat) : bool :=
  Num.leb Lit.n10 (Build.radius_of d) && Num.leb (Build.radius_of d) Lit.n24.

(** The accumulated force of a node, and the two updates of the source on
    it. *)
Definition force (n : SimNode.t) : number * number := (SimNode.fx n, SimNode.fy n).
Definition vadd (f c : number * number) : number * number :=
  ((f.1 + c.1)%num, (f.2 + c.2)%num).
Definition vsub (f c : number * number) : number * number :=
  ((f.1 - c.1)%num, (f.2 - c.2)%num).
Definition put_force (f : number * number) (n : SimNode.t) : SimNode.t :=
  SimNode.with_force f.1 f.2 n.

(** What the pass of the inner loop body for the pair [(i, j)] does to the
    accumulated force [f] of node [k], on the positions of [ns]. *)
Definition pair_effect (ns : list SimNode.t) (k : nat) (ij : nat * nat)
    (f : number * number) : number * number :=
  match ns !! ij.1, ns !! ij.2 with
  | Some a, Some b =>
      if decide (k = ij.2) then vadd f (Tick.repulse_vec a b)
      else if decide (k = ij.1) then vsub f (Tick.repulse_vec a b)
      else f
  | _, _ => f
  end.

(** The vector the pair [(i, j)] contributes. *)
Definition pair_force (ns : list SimNode.t) (i j : nat) : number * number :=
  match ns !! i, ns !! j with
  | Some a, Some b => Tick.repulse_vec a b
  | _, _ => (Lit.n0, Lit.n0)
  end.

(** The force on node [k] after the repulsion loops: the vectors of the
    pairs with an earlier node are added, in order, then the vectors of
    the pairs with a later node are subtracted, in order. *)
Definition repulsion_on (ns : list SimNode.t) (k : nat) (f : number * number)
  : number * number :=
  foldl (fun f j => vsub f (pair_force ns k j))
    (foldl (fun f i => vadd f (pair_force ns i k)) f (seq 0 k))
    (seq (S k) (length ns - S k)).

Definition two_node_graph : GraphDocument :=
  {| g_nodes := [raw_node "A"; raw_node "B"]; g_edges := []; g_clusters := [] |}.

(** An edge joins node number [i] and the hovered node. *)
Definition joins (hovered : Z) (i : nat) (e : SimEdge.t) : bool :=
  (Z.of_nat (SimEdge.a e) =? hovered) && bool_decide (SimEdge.b e = i)
  || (Z.of_nat (SimEdge.b e) =? hovered) && bool_decide (SimEdge.a e = i).

(** Two views have the same size and the same tooltip element. *)
Definition same_frame (v1 v2 : View) : Prop :=
  width v1 = width v2 /\ height v1 = height v2 /\ tooltip v1 = tooltip v2.

(** No node has its [fixed] flag set. *)
Definition no_pinned (v : View) : Prop :=
  Forall (fun n => SimNode.fixed n = false) (nodes v).

(** [dragIndex] is -1 or indexes the node list. *)
Definition drag_in_range (v : View) : Prop :=
  dragIndex v = -1 \/ 0 <= dragIndex v < Z.of_nat (length (nodes v)).

(** A node with its [fixed] flag set is the dragged node. *)
Definition pinned_is_dragged (v : View) : Prop :=
  forall i n, nodes v !! i = Some n -> SimNode.fixed n = true -> dragIndex v = Z.of_nat i.

Definition well_formed (v : View) : Prop :=
  edges_in_range v /\ drag_in_range v /\ pinned_is_dragged v.

(** Every node id is well-formed UTF-16: no surrogate outside a pair. *)
Definition ids_well_formed (v : View) : Prop :=
  Forall (fun n => Str.isWellFormed (SimNode.id n) = true) (nodes v).

(** A one-paper document whose id is a leading surrogate alone (the JSON
    string with the escape for U+D800), and the events that put it on an
    800 x 600 canvas and click on its node, in the middle. *)
Definition lone_surrogate_graph : GraphDocument :=
  {| g_nodes := [{| raw_id := Some [55296%N]; raw_title := Some (Str.js "T");
                    raw_authors := None; raw_year := None; raw_tags := None;
                    raw_summary := None |}];
     g_edges := []; g_clusters := [] |}.

Definition click_lone_surrogate : list Event :=
  [SetGraph lone_surrogate_graph no_jitter; Click (Num.of_Z 400, Num.of_Z 300)].

(** The events between the press and the release of a drag: pointer moves,
    clicks, frames, the timer and resizes. *)
Definition is_passive (ev : Event) : bool :=
  match ev with
  | MouseMove _ | Click _ | AnimationFrame | StopTimeout | Resize _ _ => true
  | _ => false
  end.

(** The entry [p = (index, degree)] ranks before [q]: its degree is higher,
    or the degrees are equal and its index is lower. *)
Definition ranks_before (p q : nat * nat) : Prop :=
  (q.2 < p.2)%nat \/ (q.2 = p.2 /\ (p.1 < q.1)%nat).

(** The [(index, degree)] entries [draw] sorts. *)
Definition degree_entries (ns : list SimNode.t) : list (nat * nat) :=
  imap (fun idx n => (idx, SimNode.degree n)) ns.

(** The text of the label of a node: its title, or its id when the title
    is empty, cut after 16 code units and followed by an ellipsis when it
    is longer. *)
Definition label_of (n : SimNode.t) : JsString :=
  let label := if Str.truthy (SimNode.title n) then SimNode.title n else SimNode.id n in
  if (16 <? length label)%nat then take 16 label ++ Draw.ellipsis else label.

(** The number is an infinity, a zero or a finite number of sign [s]
    ([true] for negative): it is not NaN. *)
Definition has_sign (s : bool) (x : number) : Prop :=
  match x with
  | S754_nan => False
  | S754_zero s' | S754_infinity s' | S754_finite s' _ _ => s' = s
  end.

(** The weight is one of the integers 1 to 5. *)
Definition weight_1_to_5 (w : number) : Prop :=
  exists k, 1 <= k <= 5 /\ w = Num.of_Z k.

(** The analysis is neither running nor failed and the document has a
    node entry. *)
Definition has_graph (meta : Page.Meta) (graph : GraphDocument) : Prop :=
  Str.or_else (Page.meta_state meta) (Str.js "idle") <> Str.js "running"
  /\ Str.or_else (Page.meta_state meta) (Str.js "idle") <> Str.js "failed"
  /\ g_nodes graph <> [].

(** The five code units [escapeHtml] replaces. *)
Definition is_markup (c : N) : bool :=
  (c =? Html.amp)%N || (c =? Html.lt)%N || (c =? Html.gt)%N
  || (c =? Html.quot)%N || (c =? Html.apos)%N.

(** The entity written for one code unit. *)
Definition escape_unit (c : N) : JsString :=
  if (c =? Html.amp)%N then Str.js "&amp;"
  else if (c =? Html.lt)%N then Str.js "&lt;"
  else if (c =? Html.gt)%N then Str.js "&gt;"
  else if (c =? Html.quot)%N then Str.js "&quot;"
  else if (c =? Html.apos)%N then Str.js "&#39;"
  else [c].

(** [s] without the prefix [p], when it starts with it. *)
Fixpoint strip_prefix (p s : JsString) : option JsString :=
  match p, s with
  | [], _ => Some s
  | c :: p', d :: s' => if (c =? d)%N then strip_prefix p' s' else None
  | _ :: _, [] => None
  end.

(** The code unit whose escape starts [s], and what follows it. *)
Definition unescape_unit (s : JsString) : option (N * JsString) :=
  match s with
  | [] => None
  | c :: r =>
      if (c =? Html.amp)%N then
        match strip_prefix (Str.js "amp;") r with
        | Some r' => Some (Html.amp, r')
        | None =>
        match strip_prefix (Str.js "lt;") r with
        | Some r' => Some (Html.lt, r')
        | None =>
        match strip_prefix (Str.js "gt;") r with
        | Some r' => Some (Html.gt, r')
        | None =>
        match strip_prefix (Str.js "quot;") r with
        | Some r' => Some (Html.quot, r')
        | None =>
        match strip_prefix (Str.js "#39;") r with
        | Some r' => Some (Html.apos, r')
        | None => None
        end end end end end
      else Some (c, r)
  end.

(** The number of occurrences of a code unit. *)
Definition occurrences (c : N) (s : JsString) : nat :=
  length (filter (fun d => d = c) s).

(** The roles of [k] exchanges: user, assistant, user, assistant, ... *)
Fixpoint exchanges (k : nat) : list JsString :=
  match k with
  | O => []
  | S k' => Chat.user :: Chat.assistant :: exchanges k'
  end.

(** The chat is a sequence of exchanges, and it is not empty while a
    request is in flight. *)
Definition alternating (st : Chat.t) : Prop :=
  exists k, Chat.role <$> Chat.chat st = exchanges k
            /\ (Chat.busy st = true -> (0 < k)%nat).

(** The first occurrence of ["\n\n"] in a string, as [indexOf] finds it. *)
Fixpoint indexOf_lflf (s : JsString) : option nat :=
  match s with
  | [] => None
  | c :: s' =>
      match s' with
      | d :: _ => if (c =? Stream.lf)%N && (d =? Stream.lf)%N then Some 0%nat
                  else S <$> indexOf_lflf s'
      | [] => None
      end
  end.

(** [chain_view] with another previous model: two of its nodes, one edge,
    the pointer on the second node, which is dragged, and the animation
    stopped. *)
Definition chain_view_before : View :=
  {| nodes := [sample_node "P" 10 10 0 0 false; sample_node "Q" 20 20 0 0 true];
     edges := [SimEdge.mk 0 1 (Str.js "related") Lit.n5 []];
     nodeIndex := ∅; hoverIndex := 1; dragIndex := 1; running := false;
     width := Some Lit.n800; height := Some Lit.n600; tooltip := Some false |}.

(** The chain X - Y - Z with Y pressed. *)
Definition chain_view_dragging : View :=
  {| nodes := [sample_node "X" 200 300 0 0 false; sample_node "Y" 400 300 0 0 true;
               sample_node "Z" 600 300 0 0 false];
     edges := edges chain_view;
     nodeIndex := nodeIndex chain_view; hoverIndex := -1; dragIndex := 1; running := false;
     width := Some Lit.n800; height := Some Lit.n600; tooltip := Some false |}.

(** A page that shows [chain_view], and the answer of the backend for the
    two-paper document. *)
Definition chain_page : Page.t :=
  {| Page.status := None; Page.panel := Page.PanelEmpty;
     Page.build_disabled := false; Page.refresh_disabled := false;
     Page.build_again := false; Page.busy := false; Page.view := chain_view |}.

Definition done_meta : Page.Meta :=
  {| Page.meta_state := Some (Str.js "done"); Page.meta_error := None;
     Page.meta_updated_at := None; Page.meta_papers_count := Some Lit.n2 |}.

(** * Properties *)

(** ** The embedding on concrete values *)

Section Checks.
#[local] Set Warnings "-inexact-float".

Example trim_strips_both_ends :
  Str.trim (Str.js "  A b  ") = Str.js "A b" /\ Str.trim (Str.js "   ") = [].
Proof. by vm_compute. Qed.

Example hash_values :
  Build.hash (Str.js "b") = 98%N /\ Build.hash (Str.js "ab") = 3105%N
  /\ Build.hash (Str.js "graph neural networks|survey") = 1276591586%N.
Proof. by vm_compute. Qed.

Example round_ties_up :
  Num.Math_round (Prim2SF 2.5%float) = Num.of_Z 3
  /\ Num.Math_round (Prim2SF (-2.5)%float) = Num.of_Z (-2)
  /\ Num.Math_round (Prim2SF 0.49999999999999994%float) = Lit.n0.
Proof. by vm_compute. Qed.

Example edge_weight_values :
  Build.edge_weight None = Lit.n3
  /\ Build.edge_weight (Some Lit.n0) = Lit.n3
  /\ Build.edge_weight (Some (Prim2SF 7.6%float)) = Lit.n5
  /\ Build.edge_weight (Some (Prim2SF 1.5%float)) = Lit.n2
  /\ Build.edge_weight (Some (Num.of_Z (-2))) = Lit.n1.
Proof. by vm_compute. Qed.

Example radius_values :
  Build.radius_of 0 = Lit.n10 /\ Build.radius_of 5 = Num.of_Z 16
  /\ Build.radius_of 12 = Lit.n24.
Proof. by vm_compute. Qed.

(** Papers A, B, A again: the edges to A go to the second A, the edge to
    the unknown C and the loop on B are dropped. *)
Example built_edges_of_duplicates :
  SimEdge.a <$> built_edges duplicate_graph = [2; 1]%nat
  /\ SimEdge.b <$> built_edges duplicate_graph = [1; 2]%nat
  /\ SimNode.id <$> built_nodes duplicate_graph = [Str.js "A"; Str.js "B"; Str.js "A"].
Proof. by vm_compute. Qed.

End Checks.

(** ** Order facts on numbers *)

Section NumOrder.

Lemma SFcompare_refl (x : number) : x <> S754_nan -> SFcompare x x = Some Eq.
Proof.
  destruct x as [s|s| |s m e]; try done; intros _; simpl.
  - by destruct s.
  - rewrite Z.compare_refl, Pos.compare_cont_refl. by destruct s.
Qed.

Lemma SFcompare_antisym (x y : number) (c : comparison) :
  SFcompare x y = Some c -> SFcompare y x = Some (CompOpp c).
Proof.
  destruct x as [s1|s1| |s1 m1 e1], y as [s2|s2| |s2 m2 e2]; simpl;
    try discriminate; intros [= <-]; try (by destruct s1); try (by destruct s2);
    try (by destruct s1, s2).
  destruct s1, s2; simpl; try done; f_equal;
    rewrite (Z.compare_antisym e1 e2); destruct (e1 ?= e2); simpl; try done;
    rewrite (Pos.compare_cont_antisym m1 m2 Eq); simpl;
    by destruct (Pos.compare_cont Eq m1 m2).
Qed.

Lemma leb_refl (x : number) : x <> S754_nan -> Num.leb x x = true.
Proof. intros H. unfold Num.leb, SFleb. by rewrite SFcompare_refl. Qed.

Lemma leb_of_Lt (x y : number) : SFcompare x y = Some Lt -> Num.leb x y = true.
Proof. unfold Num.leb, SFleb. by intros ->. Qed.

Lemma leb_of_Eq (x y : number) : SFcompare x y = Some Eq -> Num.leb x y = true.
Proof. unfold Num.leb, SFleb. by intros ->. Qed.

Lemma leb_of_Gt (x y : number) : SFcompare x y = Some Gt -> Num.leb y x = true.
Proof.
  intros H. apply SFcompare_antisym in H. by apply leb_of_Lt.
Qed.

Lemma leb_of_Eq_sym (x y : number) : SFcompare x y = Some Eq -> Num.leb y x = true.
Proof.
  intros H. apply SFcompare_antisym in H. by apply leb_of_Eq.
Qed.

Lemma compare_not_nan_l (x y : number) c : SFcompare x y = Some c -> x <> S754_nan.
Proof. by destruct x. Qed.

Lemma compare_not_nan_r (x y : number) c : SFcompare x y = Some c -> y <> S754_nan.
Proof. by destruct x, y. Qed.

(** [Math.min(a, b)] is one of its arguments and below both, or NaN. *)
Lemma Math_min_spec (a b : number) :
  Num.Math_min a b = S754_nan \/
  ((Num.Math_min a b = a \/ Num.Math_min a b = b) /\
   Num.leb (Num.Math_min a b) a = true /\ Num.leb (Num.Math_min a b) b = true).
Proof.
  unfold Num.Math_min. destruct (SFcompare a b) as [[]|] eqn:E; [| | |by left]; right.
  - destruct a as [[]| | |]; (split; [auto|]); split;
      eauto using leb_refl, leb_of_Eq, leb_of_Eq_sym, compare_not_nan_l, compare_not_nan_r.
  - split; [auto|]. split; eauto using leb_refl, leb_of_Lt, compare_not_nan_l.
  - split; [auto|]. split; eauto using leb_refl, leb_of_Gt, compare_not_nan_r.
Qed.

(** [Math.max(a, b)] is one of its arguments and above both, or NaN. *)
Lemma Math_max_spec (a b : number) :
  Num.Math_max a b = S754_nan \/
  ((Num.Math_max a b = a \/ Num.Math_max a b = b) /\
   Num.leb a (Num.Math_max a b) = true /\ Num.leb b (Num.Math_max a b) = true).
Proof.
  unfold Num.Math_max. destruct (SFcompare a b) as [[]|] eqn:E; [| | |by left]; right.
  - destruct a as [[]| | |]; (split; [auto|]); split;
      eauto using leb_refl, leb_of_Eq, leb_of_Eq_sym, compare_not_nan_l, compare_not_nan_r.
  - split; [auto|]. split; eauto using leb_refl, leb_of_Lt, compare_not_nan_r.
  - split; [auto|]. split; eauto using leb_refl, leb_of_Gt, compare_not_nan_l.
Qed.

(** The clamp of the integrator lands in [[margin, dim - margin]] whenever
    that interval is not empty and the result is a number. *)
Lemma clamp_in_range (dim p : number) :
  Num.leb Tick.margin (dim - Tick.margin)%num = true ->
  Tick.clamp dim p <> S754_nan ->
  Num.leb Tick.margin (Tick.clamp dim p) = true /\
  Num.leb (Tick.clamp dim p) (dim - Tick.margin)%num = true.
Proof.
  intros Hbox Hnan. unfold Tick.clamp in *.
  destruct (Math_max_spec Tick.margin (Num.Math_min (dim - Tick.margin)%num p))
    as [?|([Hr|Hr] & H1 & H2)]; [done| |].
  - split; [done|]. by rewrite Hr.
  - split; [done|]. rewrite Hr.
    destruct (Math_min_spec (dim - Tick.margin)%num p) as [E|(_ & H3 & _)]; [|done].
    rewrite E in Hnan. by exfalso; apply Hnan.
Qed.

Lemma clamp_not_nan (dim p : number) :
  Tick.clamp dim p <> S754_nan -> p <> S754_nan.
Proof.
  intros H ->. apply H. unfold Tick.clamp.
  replace (Num.Math_min (dim - Tick.margin)%num S754_nan) with S754_nan; [done|].
  unfold Num.Math_min. by destruct (dim - Tick.margin)%num.
Qed.

End NumOrder.

(** ** What the force phases keep *)

Section ForcePhases.

Lemma force_only_refl n : force_only n n.
Proof. by destruct n. Qed.

Lemma force_only_trans n1 n2 n3 :
  force_only n1 n2 -> force_only n2 n3 -> force_only n1 n3.
Proof. unfold force_only. intros -> ->. by destruct n1. Qed.

Lemma force_only_with_force gx gy n : force_only n (SimNode.with_force gx gy n).
Proof. by destruct n. Qed.

Lemma force_only_pos n n' :
  force_only n n' -> SimNode.x n' = SimNode.x n /\ SimNode.y n' = SimNode.y n.
Proof. unfold force_only. intros ->. by destruct n. Qed.


Lemma force_only_fixed n n' : force_only n n' -> SimNode.fixed n' = SimNode.fixed n.
Proof. unfold force_only. intros ->. by destruct n. Qed.

Lemma force_only_list_refl (ns : list SimNode.t) : Forall2 force_only ns ns.
Proof. induction ns; constructor; auto using force_only_refl. Qed.

Lemma force_only_insert (orig cur : list SimNode.t) i n n' :
  Forall2 force_only orig cur -> cur !! i = Some n -> force_only n n' ->
  Forall2 force_only orig (<[i := n']> cur).
Proof.
  intros HF Hi Hn.
  destruct (Forall2_lookup_r _ _ _ _ _ HF Hi) as (o & Ho & Hon).
  rewrite <- (list_insert_id orig i o Ho).
  apply Forall2_insert; eauto using force_only_trans.
Qed.

Lemma force_only_fmap (f : SimNode.t -> SimNode.t) (orig cur : list SimNode.t) :
  (forall n, force_only n (f n)) ->
  Forall2 force_only orig cur -> Forall2 force_only orig (f <$> cur).
Proof.
  intros Hf HF. induction HF; simpl; constructor; eauto using force_only_trans.
Qed.

Lemma repulse_vec_force_only a a' b b' :
  force_only a a' -> force_only b b' -> Tick.repulse_vec a' b' = Tick.repulse_vec a b.
Proof.
  intros [Hax Hay]%force_only_pos [Hbx Hby]%force_only_pos.
  unfold Tick.repulse_vec, Tick.repulse_f, Tick.repulse_dist2.
  by rewrite Hax, Hay, Hbx, Hby.
Qed.

Lemma repulse_pair_shape orig cur i j :
  Forall2 force_only orig cur -> Forall2 force_only orig (Tick.repulse_pair i j cur).
Proof.
  intros HF. unfold Tick.repulse_pair.
  destruct (cur !! i) as [a|] eqn:Ha; [|done].
  destruct (cur !! j) as [b|] eqn:Hb; [|done].
  destruct (decide (i = j)) as [->|Hne].
  - rewrite list_insert_insert_eq.
    eapply force_only_insert; eauto. apply force_only_with_force.
  - eapply force_only_insert.
    + eapply force_only_insert; eauto. apply force_only_with_force.
    + rewrite list_lookup_insert_ne; eauto.
    + apply force_only_with_force.
Qed.

Lemma repulse_from_shape orig cur n i :
  Forall2 force_only orig cur -> Forall2 force_only orig (Tick.repulse_from n i cur).
Proof.
  unfold Tick.repulse_from. generalize (seq (S i) (n - S i)). intros js.
  revert cur. induction js as [|j js IH]; intros cur HF; simpl; [done|].
  apply IH. by apply repulse_pair_shape.
Qed.

Lemma repulsion_shape (ns : list SimNode.t) : Forall2 force_only ns (Tick.repulsion ns).
Proof.
  unfold Tick.repulsion. generalize (length ns) at 1. intros n.
  assert (H : forall (l : list nat) cur, Forall2 force_only ns cur ->
            Forall2 force_only ns (foldl (fun acc i => Tick.repulse_from n i acc) cur l)).
  { induction l as [|i l IH]; intros cur HF; simpl; [done|].
    apply IH. by apply repulse_from_shape. }
  apply H. apply force_only_list_refl.
Qed.

Lemma link_edge_shape orig cur base e cur' :
  Forall2 force_only orig cur -> Tick.link_edge base e cur = Some cur' ->
  Forall2 force_only orig cur'.
Proof.
  intros HF. unfold Tick.link_edge.
  destruct (cur !! SimEdge.a e) as [a|] eqn:Ha; simpl; [|done].
  destruct (cur !! SimEdge.b e) as [b|] eqn:Hb; simpl; [|done].
  destruct (<[_ := _]> cur !! SimEdge.b e) as [b1|] eqn:Hb1; simpl; [|done].
  intros [= <-].
  eapply force_only_insert; [|exact Hb1|apply force_only_with_force].
  eapply force_only_insert; eauto. apply force_only_with_force.
Qed.

Lemma link_edge_total base e (cur : list SimNode.t) :
  edge_in_range (length cur) e -> is_Some (Tick.link_edge base e cur).
Proof.
  intros [Ha Hb]. unfold Tick.link_edge.
  destruct (lookup_lt_is_Some_2 cur _ Ha) as [a ->]. simpl.
  destruct (lookup_lt_is_Some_2 cur _ Hb) as [b ->]. simpl.
  match goal with |- context [<[?i := ?x]> cur !! ?j] =>
    destruct (lookup_lt_is_Some_2 (<[i := x]> cur) j) as [b1 ->] end.
  - by rewrite length_insert.
  - simpl. eauto.
Qed.

Lemma link_attraction_shape orig base es : forall cur cur',
  Forall2 force_only orig cur -> Tick.link_attraction base es cur = Some cur' ->
  Forall2 force_only orig cur'.
Proof.
  induction es as [|e es IH]; intros cur cur' HF; simpl.
  - by intros [= <-].
  - destruct (Tick.link_edge base e cur) as [c1|] eqn:E; simpl; [|done].
    eauto using link_edge_shape.
Qed.

Lemma link_attraction_total orig base es : forall cur,
  Forall2 force_only orig cur -> Forall (edge_in_range (length orig)) es ->
  is_Some (Tick.link_attraction base es cur).
Proof.
  induction es as [|e es IH]; intros cur HF Hes; simpl; [eauto|].
  apply Forall_cons in Hes as [He Hes].
  destruct (link_edge_total base e cur) as [c1 E].
  { by rewrite <- (Forall2_length _ _ _ HF). }
  rewrite E. simpl. eauto using link_edge_shape.
Qed.

(** The force phases change nothing but the accumulated forces. *)
Lemma forces_shape w h es ns ns' :
  Tick.forces w h es ns = Some ns' -> Forall2 force_only ns ns'.
Proof.
  unfold Tick.forces.
  destruct (Tick.link_attraction _ es _) as [l|] eqn:E; simpl; [|done].
  intros [= <-].
  apply force_only_fmap.
  { intros n. apply force_only_with_force. }
  eapply link_attraction_shape; [|exact E].
  eapply Forall2_trans; [apply @force_only_trans| |apply repulsion_shape].
  apply force_only_fmap; [|apply force_only_list_refl].
  intros n. apply force_only_with_force.
Qed.

(** They complete whenever every edge indexes the node list. *)
Lemma forces_total w h es (ns : list SimNode.t) :
  Forall (edge_in_range (length ns)) es -> is_Some (Tick.forces w h es ns).
Proof.
  intros Hes. unfold Tick.forces.
  destruct (link_attraction_total ns (Tick.baseDist w h) es
              (Tick.repulsion (Tick.reset_force <$> ns))) as [l ->]; [|done|by simpl].
  eapply Forall2_trans; [apply @force_only_trans| |apply repulsion_shape].
  apply force_only_fmap; [|apply force_only_list_refl].
  intros n. apply force_only_with_force.
Qed.

End ForcePhases.

(** ** What a step keeps *)

Section StepFacts.



Lemma static_force_only n n' : force_only n n' -> static n' = static n.
Proof. unfold force_only. intros ->. by destruct n. Qed.

Lemma static_integrate damp w h n : static (Tick.integrate damp w h n) = static n.
Proof. unfold Tick.integrate. by destruct n as [? ? ? ? ? ? ? ? ? ? ? ? ? ? ? []]. Qed.

Lemma fixed_integrate damp w h n :
  SimNode.fixed (Tick.integrate damp w h n) = SimNode.fixed n.
Proof. unfold Tick.integrate. by destruct n as [? ? ? ? ? ? ? ? ? ? ? ? ? ? ? []]. Qed.

Lemma set_nodes_id v : set_nodes (nodes v) v = v.
Proof. by destruct v. Qed.

(** A step either finds no node and returns, or runs the force phases and
    integrates every node. *)
Lemma tick_inv warm v v' :
  _tick warm v = Some v' ->
  exists fs, v' = set_nodes (Tick.integrate (Tick.damping warm) (view_w v) (view_h v) <$> fs) v
             /\ Forall2 force_only (nodes v) fs.
Proof.
  unfold _tick. destruct (nodes v) as [|n0 ns] eqn:E.
  - intros [= <-]. exists []. split; [|constructor].
    simpl. by rewrite <- E, set_nodes_id.
  - destruct (Tick.forces _ _ _ _) as [fs|] eqn:F; simpl; [|done].
    intros [= <-]. exists fs. split; [done|]. by apply forces_shape in F.
Qed.

Lemma tick_total warm v : edges_in_range v -> is_Some (_tick warm v).
Proof.
  unfold _tick, edges_in_range. destruct (nodes v) as [|n0 ns] eqn:E; [eauto|].
  intros H. destruct (forces_total (view_w v) (view_h v) (edges v) (n0 :: ns) H) as [fs ->].
  simpl. eauto.
Qed.

Lemma tick_frame warm v v' :
  _tick warm v = Some v' ->
  edges v' = edges v /\ nodeIndex v' = nodeIndex v /\ hoverIndex v' = hoverIndex v
  /\ dragIndex v' = dragIndex v /\ running v' = running v
  /\ width v' = width v /\ height v' = height v /\ tooltip v' = tooltip v.
Proof. intros (fs & -> & _)%tick_inv. by destruct v. Qed.

Lemma tick_static warm v v' :
  _tick warm v = Some v' ->
  static <$> nodes v' = static <$> nodes v
  /\ SimNode.fixed <$> nodes v' = SimNode.fixed <$> nodes v.
Proof.
  intros (fs & -> & HF)%tick_inv. simpl.
  generalize (Tick.damping warm) (view_w v) (view_h v). intros dmp w h.
  induction HF as [|n f ns fs Hn HF [IH1 IH2]]; [done|]. simpl. split; f_equal; auto.
  - by rewrite static_integrate, (static_force_only n f).
  - by rewrite fixed_integrate, (force_only_fixed n f).
Qed.

Lemma tick_length warm v v' : _tick warm v = Some v' -> length (nodes v') = length (nodes v).
Proof.
  intros [H _]%tick_static.
  by rewrite <- (length_fmap static (nodes v')), H, length_fmap.
Qed.

Lemma tick_edges_in_range warm v v' :
  _tick warm v = Some v' -> edges_in_range v -> edges_in_range v'.
Proof.
  intros H. unfold edges_in_range.
  rewrite (tick_length _ _ _ H). by destruct (tick_frame _ _ _ H) as (-> & _).
Qed.

Lemma view_w_tick warm v v' : _tick warm v = Some v' -> view_w v' = view_w v.
Proof. intros (_ & _ & _ & _ & _ & H & _)%tick_frame. unfold view_w. by rewrite H. Qed.

Lemma view_h_tick warm v v' : _tick warm v = Some v' -> view_h v' = view_h v.
Proof. intros (_ & _ & _ & _ & _ & _ & H & _)%tick_frame. unfold view_h. by rewrite H. Qed.

(** [k + 1] steps are [k] steps and a last one. *)
Lemma ticks_last warm k : forall v,
  ticks warm (S k) v = ticks warm k v ≫= _tick warm.
Proof.
  induction k as [|k IH]; intros v.
  - simpl. by destruct (_tick warm v).
  - change (ticks warm (S (S k)) v) with (_tick warm v ≫= ticks warm (S k)).
    change (ticks warm (S k) v) with (_tick warm v ≫= ticks warm k).
    destruct (_tick warm v) as [v1|]; [|done].
    change (ticks warm (S k) v1 = ticks warm k v1 ≫= _tick warm). apply IH.
Qed.

Lemma ticks_total warm k : forall v, edges_in_range v -> is_Some (ticks warm k v).
Proof.
  induction k as [|k IH]; intros v Hv; simpl; [eauto|].
  destruct (tick_total warm v Hv) as [v1 E]. rewrite E. simpl.
  eauto using tick_edges_in_range.
Qed.

Lemma ticks_frame warm k : forall v v',
  ticks warm k v = Some v' ->
  edges v' = edges v /\ nodeIndex v' = nodeIndex v /\ hoverIndex v' = hoverIndex v
  /\ dragIndex v' = dragIndex v /\ running v' = running v
  /\ width v' = width v /\ height v' = height v /\ tooltip v' = tooltip v
  /\ static <$> nodes v' = static <$> nodes v
  /\ SimNode.fixed <$> nodes v' = SimNode.fixed <$> nodes v.
Proof.
  induction k as [|k IH]; intros v v'; simpl.
  - by intros [= <-].
  - destruct (_tick warm v) as [v1|] eqn:E; simpl; [|done].
    intros H. apply IH in H.
    destruct (tick_frame _ _ _ E) as (<- & <- & <- & <- & <- & <- & <- & <-).
    destruct (tick_static _ _ _ E) as [<- <-]. done.
Qed.

End StepFacts.

(** ** Containment and integration *)

Section Integration.

Lemma in_box_clamp_pos w h n :
  Num.leb Tick.margin (w - Tick.margin)%num = true ->
  Num.leb Tick.margin (h - Tick.margin)%num = true ->
  SimNode.x (Tick.clamp_pos w h n) <> S754_nan ->
  SimNode.y (Tick.clamp_pos w h n) <> S754_nan ->
  in_box w h (Tick.clamp_pos w h n) = true.
Proof.
  intros Hw Hh Hx Hy. unfold in_box. destruct n; simpl in *.
  destruct (clamp_in_range w x Hw Hx) as [-> ->].
  by destruct (clamp_in_range h y Hh Hy) as [-> ->].
Qed.

Lemma integrate_fixed damp w h n :
  SimNode.fixed n = true ->
  Tick.integrate damp w h n = SimNode.with_vel Lit.n0 Lit.n0 n.
Proof. unfold Tick.integrate. by intros ->. Qed.

Lemma integrate_free damp w h n :
  SimNode.fixed n = false ->
  Tick.integrate damp w h n = Tick.clamp_pos w h (Tick.move damp n).
Proof. unfold Tick.integrate. by intros ->. Qed.

(** Node [i] of the view after a step, from node [i] before it. *)
Lemma tick_lookup warm v v' i n :
  _tick warm v = Some v' -> nodes v !! i = Some n ->
  exists fs nf,
    Tick.forces (view_w v) (view_h v) (edges v) (nodes v) = Some fs
    /\ fs !! i = Some nf /\ force_only n nf
    /\ nodes v' !! i = Some (Tick.integrate (Tick.damping warm) (view_w v) (view_h v) nf).
Proof.
  unfold _tick. intros H Hi. destruct (nodes v) as [|n0 ns] eqn:E; [done|].
  destruct (Tick.forces _ _ _ _) as [fs|] eqn:F; simpl in H; [|done].
  injection H as <-. pose proof (forces_shape _ _ _ _ _ F) as HF.
  destruct (Forall2_lookup_l _ _ _ _ _ HF Hi) as (nf & Hnf & Hn).
  exists fs, nf. repeat split; try done.
  simpl. by rewrite list_lookup_fmap, Hnf.
Qed.

Lemma tick_lookup_inv warm v v' i n' :
  _tick warm v = Some v' -> nodes v' !! i = Some n' ->
  exists n, nodes v !! i = Some n.
Proof.
  intros H Hi. apply tick_length in H.
  apply lookup_lt_is_Some. rewrite <- H. eauto using lookup_lt_Some.
Qed.

(** A node whose flag is true after a step had it before, and is where it
    was. *)
Lemma tick_fixed_stays warm v v' i n' :
  _tick warm v = Some v' -> nodes v' !! i = Some n' -> SimNode.fixed n' = true ->
  exists n, nodes v !! i = Some n /\ SimNode.x n' = SimNode.x n
            /\ SimNode.y n' = SimNode.y n /\ SimNode.fixed n = true.
Proof.
  intros H Hi Hfix.
  destruct (tick_lookup_inv _ _ _ _ _ H Hi) as [n Hn].
  destruct (tick_lookup _ _ _ _ _ H Hn) as (fs & nf & _ & _ & Hf & Hn').
  rewrite Hi in Hn'. injection Hn' as ->.
  rewrite fixed_integrate in Hfix. rewrite integrate_fixed by done.
  exists n. destruct (force_only_pos _ _ Hf) as [Hx Hy].
  rewrite <- (force_only_fixed _ _ Hf), <- Hx, <- Hy. by destruct nf.
Qed.

Lemma ticks_fixed_stay warm k : forall v v' i n',
  ticks warm k v = Some v' -> nodes v' !! i = Some n' -> SimNode.fixed n' = true ->
  exists n, nodes v !! i = Some n /\ SimNode.x n' = SimNode.x n
            /\ SimNode.y n' = SimNode.y n /\ SimNode.fixed n = true.
Proof.
  induction k as [|k IH]; intros v v' i n' H Hi Hfix; simpl in H.
  - injection H as <-. eauto.
  - destruct (_tick warm v) as [v1|] eqn:E; simpl in H; [|done].
    destruct (IH _ _ _ _ H Hi Hfix) as (n1 & Hn1 & Hx & Hy & Hfix1).
    destruct (tick_fixed_stays _ _ _ _ _ E Hn1 Hfix1) as (n & Hn & Hx' & Hy' & Hfix').
    exists n. by rewrite Hx, Hy, Hx', Hy'.
Qed.

End Integration.

(** ** What [setGraph] builds *)

Section BuildFacts.

Lemma Map_of_snoc entries kv :
  Build.Map_of (entries ++ [kv]) = <[kv.1 := kv.2]> (Build.Map_of entries).
Proof. unfold Build.Map_of. by rewrite foldl_app. Qed.

Lemma build_index_snoc ns n :
  Build.build_index (ns ++ [n]) = <[SimNode.id n := length ns]> (Build.build_index ns).
Proof.
  unfold Build.build_index. rewrite imap_app. cbn [imap].
  rewrite Map_of_snoc. simpl. by rewrite Nat.add_0_r.
Qed.

(** The index maps an id to the last node that carries it. *)
Lemma build_index_Some ns k i :
  Build.build_index ns !! k = Some i <->
  (exists n, ns !! i = Some n /\ SimNode.id n = k)
  /\ (forall j m, (i < j)%nat -> ns !! j = Some m -> SimNode.id m <> k).
Proof.
  revert i. induction ns as [|x ns IH] using rev_ind; intros i.
  - unfold Build.build_index, Build.Map_of. simpl. rewrite lookup_empty.
    split; [done|]. by intros [(n & Hn & _) _].
  - rewrite build_index_snoc. destruct (decide (SimNode.id x = k)) as [Hk|Hk].
    + rewrite Hk, lookup_insert_eq. split.
      * intros [= <-]. split.
        -- exists x. by rewrite lookup_app_r, Nat.sub_diag by lia.
        -- intros j m Hj Hm. apply lookup_lt_Some in Hm.
           rewrite length_app in Hm. simpl in Hm. lia.
      * intros [(n & Hn & _) Hlast]. f_equal.
        destruct (Nat.lt_trichotomy i (length ns)) as [Hlt|[->|Hgt]]; [|done|].
        -- exfalso. apply (Hlast (length ns) x Hlt); [|done].
           by rewrite lookup_app_r, Nat.sub_diag by lia.
        -- apply lookup_lt_Some in Hn. rewrite length_app in Hn. simpl in Hn. lia.
    + rewrite lookup_insert_ne by done. rewrite IH. split.
      * intros [(n & Hn & Hid) Hlast]. split.
        -- exists n. by rewrite lookup_app_l by eauto using lookup_lt_Some.
        -- intros j m Hj Hm. destruct (decide (j < length ns)%nat) as [Hlt|Hge].
           ++ rewrite lookup_app_l in Hm by done. eauto.
           ++ rewrite lookup_app_r in Hm by lia.
              destruct (j - length ns)%nat; [|done]. by injection Hm as <-.
      * intros [(n & Hn & Hid) Hlast].
        assert (Hlt : (i < length ns)%nat).
        { apply lookup_lt_Some in Hn as Hl. rewrite length_app in Hl. simpl in Hl.
          destruct (decide (i = length ns)) as [->|]; [|lia].
          rewrite lookup_app_r, Nat.sub_diag in Hn by lia. injection Hn as <-. done. }
        rewrite lookup_app_l in Hn by done. split; [eauto|].
        intros j m Hj Hm. apply (Hlast j m Hj).
        by rewrite lookup_app_l by eauto using lookup_lt_Some.
Qed.

(** An id is in the index exactly when a node carries it. *)
Lemma build_index_None ns k :
  Build.build_index ns !! k = None <-> forall n, n ∈ ns -> SimNode.id n <> k.
Proof.
  induction ns as [|x ns IH] using rev_ind.
  - unfold Build.build_index, Build.Map_of. simpl. rewrite lookup_empty.
    split; [|done]. intros _ n Hn. by apply elem_of_nil in Hn.
  - rewrite build_index_snoc. destruct (decide (SimNode.id x = k)) as [Hk|Hk].
    + rewrite Hk, lookup_insert_eq. split; [done|].
      intros H. destruct (H x); [|done]. apply elem_of_app. right. by apply list_elem_of_singleton.
    + rewrite lookup_insert_ne, IH by done. split.
      * intros H n [Hn|Hn%list_elem_of_singleton]%elem_of_app; [eauto|by subst].
      * intros H n Hn. apply H, elem_of_app. by left.
Qed.

Lemma build_edge_Some index e se :
  Build.build_edge index e = Some se ->
  index !! Str.or_else (raw_source e) [] = Some (SimEdge.a se)
  /\ index !! Str.or_else (raw_target e) [] = Some (SimEdge.b se)
  /\ SimEdge.a se <> SimEdge.b se.
Proof.
  unfold Build.build_edge.
  destruct (index !! Str.or_else (raw_source e) []) as [a|]; [|done].
  destruct (index !! Str.or_else (raw_target e) []) as [b|]; [|done].
  case_bool_decide; [done|]. by intros [= <-].
Qed.

(** Every built edge joins two different nodes of the list. *)
Lemma built_edges_ok ns raw :
  Forall (edge_ok (length ns)) (omap (Build.build_edge (Build.build_index ns)) raw).
Proof.
  apply Forall_forall. intros se (e & _ & He)%list_elem_of_omap.
  apply build_edge_Some in He as (Ha & Hb & Hne).
  apply build_index_Some in Ha as [(na & Ha & _) _].
  apply build_index_Some in Hb as [(nb & Hb & _) _].
  repeat split; eauto using lookup_lt_Some.
Qed.

End BuildFacts.

(** ** Degrees, radii and the seeded model *)

Section DegreeFacts.

Lemma with_degree_with_degree d d' n :
  SimNode.with_degree d (SimNode.with_degree d' n) = SimNode.with_degree d n.
Proof. by destruct n. Qed.

Lemma with_degree_same n : SimNode.with_degree (SimNode.degree n) n = n.
Proof. by destruct n. Qed.

Lemma bump_degree_spec i (ns : list SimNode.t) :
  (i < length ns)%nat ->
  exists ns', Build.bump_degree i ns = Some ns' /\ length ns' = length ns
    /\ forall j n, ns !! j = Some n ->
         ns' !! j = Some (SimNode.with_degree
                            (SimNode.degree n + (if bool_decide (i = j) then 1 else 0)) n).
Proof.
  intros Hi. unfold Build.bump_degree.
  destruct (lookup_lt_is_Some_2 ns i Hi) as [m Hm]. rewrite Hm. simpl.
  eexists. split; [done|]. split; [by rewrite length_insert|].
  intros j n Hn. case_bool_decide as Hij.
  - subst j. rewrite list_lookup_insert_eq by done.
    rewrite Hm in Hn. injection Hn as ->. by rewrite Nat.add_1_r.
  - rewrite list_lookup_insert_ne by done. by rewrite Nat.add_0_r, with_degree_same.
Qed.

Lemma count_degrees_spec es : forall ns : list SimNode.t,
  Forall (edge_in_range (length ns)) es ->
  exists ns', Build.count_degrees es ns = Some ns' /\ length ns' = length ns
    /\ forall j n, ns !! j = Some n ->
         ns' !! j = Some (SimNode.with_degree
                            (SimNode.degree n + sum_list (bumps j <$> es)) n).
Proof.
  induction es as [|e es IH]; intros ns Hes.
  - exists ns. split; [done|]. split; [done|]. intros j n Hn. simpl.
    by rewrite Nat.add_0_r, with_degree_same.
  - apply Forall_cons in Hes as [[Ha Hb] Hes]. simpl.
    destruct (bump_degree_spec _ ns Ha) as (ns1 & -> & Hl1 & H1). simpl.
    rewrite <- Hl1 in Hb.
    destruct (bump_degree_spec _ ns1 Hb) as (ns2 & -> & Hl2 & H2). simpl.
    destruct (IH ns2) as (ns' & -> & Hl' & H').
    { by rewrite Hl2, Hl1. }
    exists ns'. split; [done|]. split; [congruence|].
    intros j n Hn. rewrite (H' _ _ (H2 _ _ (H1 _ _ Hn))).
    rewrite !with_degree_with_degree. f_equal. f_equal.
    unfold bumps at 2. destruct n; simpl.
    change (list_fmap _ _ (bumps j) es) with (bumps j <$> es).
    repeat case_bool_decide; lia.
Qed.

(** With distinct endpoints the bumps of a node count the edges that
    reference it. *)
Lemma bumps_referencing n i es :
  Forall (edge_ok n) es -> sum_list (bumps i <$> es) = referencing i es.
Proof.
  induction 1 as [|e es (_ & _ & Hne) _ IH]; [done|].
  rewrite fmap_cons. cbn [sum_list sum_list_with referencing]. rewrite IH. f_equal.
  unfold bumps, references. repeat case_bool_decide; simpl; congruence.
Qed.

Lemma edge_ok_in_range n es : Forall (edge_ok n) es -> Forall (edge_in_range n) es.
Proof. intros H. eapply Forall_impl; [exact H|]. intros e (? & ? & _). by split. Qed.

End DegreeFacts.

Section SetGraphFacts.
Variables Math_cos Math_sin : number -> number.
Variable rnd : nat -> number.

Lemma seeded_spec v graph :
  exists v1, Build.seeded Math_cos Math_sin rnd v graph = Some v1
    /\ edges v1 = built_edges graph
    /\ nodeIndex v1 = Build.build_index (built_nodes graph)
    /\ hoverIndex v1 = -1 /\ dragIndex v1 = -1
    /\ running v1 = running v /\ width v1 = width v /\ height v1 = height v
    /\ tooltip v1 = tooltip v
    /\ length (nodes v1) = length (built_nodes graph)
    /\ forall i n0, built_nodes graph !! i = Some n0 ->
         exists n1, nodes v1 !! i = Some n1
                    /\ static n1 = built_static graph i n0
                    /\ SimNode.fixed n1 = false.
Proof.
  unfold Build.seeded. fold (built_nodes graph). fold (built_edges graph).
  pose proof (built_edges_ok (built_nodes graph) (g_edges graph)) as Hok.
  fold (built_edges graph) in Hok.
  destruct (count_degrees_spec (built_edges graph)
              (SimNode.with_degree 0 <$> built_nodes graph))
    as (ns1 & -> & Hl & H1).
  { rewrite length_fmap. by apply edge_ok_in_range. }
  simpl. eexists. split; [done|]. simpl.
  do 8 (split; [done|]). split.
  - by rewrite length_imap, length_fmap, Hl, length_fmap.
  - intros i n0 Hn0.
    rewrite list_lookup_imap, list_lookup_fmap.
    rewrite (H1 i (SimNode.with_degree 0 n0)) by (by rewrite list_lookup_fmap, Hn0).
    simpl. eexists. split; [done|]. split; [|by destruct n0].
    rewrite (bumps_referencing _ _ _ Hok). unfold built_static. by destruct n0.
Qed.

(** [setGraph] completes on every document, whatever the view was, and
    this is the model it leaves. *)
Lemma setGraph_spec v graph :
  exists v', Build.setGraph Math_cos Math_sin rnd v graph = Some v'
    /\ edges v' = built_edges graph
    /\ nodeIndex v' = Build.build_index (built_nodes graph)
    /\ hoverIndex v' = -1 /\ dragIndex v' = -1
    /\ width v' = width v /\ height v' = height v
    /\ length (nodes v') = length (built_nodes graph)
    /\ forall i n0, built_nodes graph !! i = Some n0 ->
         exists n', nodes v' !! i = Some n'
                    /\ static n' = built_static graph i n0
                    /\ SimNode.fixed n' = false.
Proof.
  unfold Build.setGraph.
  destruct (seeded_spec v graph)
    as (v1 & -> & He & Hi & Hh & Hd & _ & Hw & Hht & _ & Hl & Hn). simpl.
  destruct (ticks_total true (Build.warmup_iterations (length (nodes v1))) v1) as [v2 E].
  { unfold edges_in_range. rewrite He, Hl. apply edge_ok_in_range, built_edges_ok. }
  unfold _warmup. rewrite E. simpl. eexists. split; [done|].
  destruct (ticks_frame _ _ _ _ E) as (He2 & Hi2 & Hh2 & Hd2 & _ & Hw2 & Hht2 & _ & Hs & Hf).
  assert (Hstart : forall u, nodes (start u) = nodes u /\ edges (start u) = edges u
            /\ nodeIndex (start u) = nodeIndex u /\ hoverIndex (start u) = hoverIndex u
            /\ dragIndex (start u) = dragIndex u /\ width (start u) = width u
            /\ height (start u) = height u).
  { intros u. unfold start. by destruct (running u). }
  destruct (Hstart v2) as (-> & -> & -> & -> & -> & -> & ->).
  do 6 (split; [congruence|]). split.
  - by rewrite <- Hl, <- (length_fmap static (nodes v2)), Hs, length_fmap.
  - intros i n0 Hn0. destruct (Hn i n0 Hn0) as (n1 & Hn1 & Hst & Hfx).
    assert (Hs' : (static <$> nodes v2) !! i = Some (static n1))
      by (by rewrite Hs, list_lookup_fmap, Hn1).
    assert (Hf' : (SimNode.fixed <$> nodes v2) !! i = Some (SimNode.fixed n1))
      by (by rewrite Hf, list_lookup_fmap, Hn1).
    rewrite list_lookup_fmap in Hs'. rewrite list_lookup_fmap in Hf'.
    destruct (nodes v2 !! i) as [n'|]; [|done]. simpl in *.
    exists n'. split; [done|]. split; congruence.
Qed.

End SetGraphFacts.

(** ** Edges, ids and the index *)

Section IndexFacts.

Lemma build_index_ids ns ns' :
  SimNode.id <$> ns = SimNode.id <$> ns' -> Build.build_index ns = Build.build_index ns'.
Proof.
  intros H. unfold Build.build_index. f_equal.
  transitivity (imap (fun idx k => (k, idx)) (SimNode.id <$> ns)).
  - by rewrite imap_fmap.
  - rewrite H. by rewrite imap_fmap.
Qed.

Lemma built_nodes_ids graph :
  SimNode.id <$> built_nodes graph = omap node_key (g_nodes graph).
Proof.
  unfold built_nodes. generalize (Build.clusterByNode (g_clusters graph)). intros cbn.
  induction (g_nodes graph) as [|rn rns IH]; [done|].
  cbn [omap list_omap]. unfold Build.build_node at 1, node_key at 1.
  destruct (Str.truthy (Str.trim (Str.or_else (raw_id rn) []))); simpl; [|done].
  f_equal. apply IH.
Qed.

Lemma referencing_zero i es :
  Forall (fun e => SimEdge.a e <> i /\ SimEdge.b e <> i) es -> referencing i es = 0%nat.
Proof.
  induction 1 as [|e es [Ha Hb] _ IH]; [done|]. cbn [referencing]. rewrite IH.
  unfold references. rewrite (bool_decide_eq_false_2 _ Ha), (bool_decide_eq_false_2 _ Hb). done.
Qed.

Lemma build_edge_unmatched index e :
  index !! source_key e = None \/ index !! target_key e = None
  \/ source_key e = target_key e ->
  Build.build_edge index e = None.
Proof.
  unfold Build.build_edge, source_key, target_key. intros [H|[H|H]].
  - by rewrite H.
  - rewrite H. by destruct (index !! Str.or_else (raw_source e) []).
  - rewrite H. destruct (index !! Str.or_else (raw_target e) []); [|done].
    by rewrite bool_decide_eq_true_2.
Qed.

End IndexFacts.

Section BuiltModel.
Variables Math_cos Math_sin : number -> number.
Variable rnd : nat -> number.

(** The ids of the model are those of the surviving nodes, in order. *)
Lemma setGraph_ids v graph v' :
  Build.setGraph Math_cos Math_sin rnd v graph = Some v' ->
  SimNode.id <$> nodes v' = SimNode.id <$> built_nodes graph
  /\ SimNode.color <$> nodes v' = SimNode.color <$> built_nodes graph.
Proof.
  intros H. destruct (setGraph_spec Math_cos Math_sin rnd v graph)
    as (v2 & H2 & _ & _ & _ & _ & _ & _ & Hl & Hn).
  rewrite H in H2. injection H2 as <-.
  split; apply list_eq; intros i; rewrite !list_lookup_fmap;
    (destruct (built_nodes graph !! i) as [n0|] eqn:E;
     [destruct (Hn i n0 E) as (n' & -> & Hs & _); simpl; f_equal;
      unfold static, built_static in Hs; congruence
     |apply lookup_ge_None in E; rewrite <- Hl in E;
      apply lookup_ge_None in E; by rewrite E]).
Qed.

Lemma setGraph_index v graph v' :
  Build.setGraph Math_cos Math_sin rnd v graph = Some v' ->
  nodeIndex v' = Build.build_index (nodes v')
  /\ edges v' = omap (Build.build_edge (nodeIndex v')) (g_edges graph).
Proof.
  intros H. destruct (setGraph_ids _ _ _ H) as [Hids _].
  destruct (setGraph_spec Math_cos Math_sin rnd v graph) as (v2 & H2 & He & Hi & _).
  rewrite H in H2. injection H2 as <-.
  rewrite He, Hi. split; [by apply build_index_ids|done].
Qed.

End BuiltModel.

(** ** Colors *)

Section ColorFacts.

Lemma add_cluster_ids_lookup idx ids : forall (m : gmap JsString nat) k,
  Build.add_cluster_ids idx ids m !! k =
  match m !! k with
  | Some j => Some j
  | None => if bool_decide (k ∈ ids) then Some idx else None
  end.
Proof.
  induction ids as [|id ids IH]; intros m k.
  - unfold Build.add_cluster_ids. simpl. by destruct (m !! k).
  - unfold Build.add_cluster_ids in *. simpl. rewrite IH.
    destruct (m !! id) as [j|] eqn:Em.
    + destruct (m !! k) as [j'|] eqn:Ek; [done|].
      assert (k <> id) by congruence.
      rewrite (bool_decide_ext (k ∈ ids) (k ∈ id :: ids)); [done|].
      rewrite elem_of_cons. split; [by right|by intros [?|?]].
    + destruct (decide (k = id)) as [->|Hne].
      * rewrite lookup_insert_eq, Em.
        case_bool_decide as Hk; [done|]. destruct Hk. apply elem_of_cons. by left.
      * rewrite lookup_insert_ne by done. destruct (m !! k); [done|].
        rewrite (bool_decide_ext (k ∈ ids) (k ∈ id :: ids)); [done|].
        rewrite elem_of_cons. split; [by right|by intros [?|?]].
Qed.

Lemma add_clusters_lookup cs : forall idx (m : gmap JsString nat) k,
  Build.add_clusters idx cs m !! k =
  match m !! k with
  | Some j => Some j
  | None => first_cluster_from idx k cs
  end.
Proof.
  induction cs as [|c cs IH]; intros idx m k; simpl.
  - by destruct (m !! k).
  - rewrite IH, add_cluster_ids_lookup.
    destruct (m !! k); [done|]. by case_bool_decide.
Qed.

(** The local map [clusterByNode] holds, for an id, the first cluster that
    lists it. *)
Lemma clusterByNode_lookup cs k : Build.clusterByNode cs !! k = first_cluster k cs.
Proof. unfold Build.clusterByNode. by rewrite add_clusters_lookup, lookup_empty. Qed.

Lemma built_nodes_colors graph :
  SimNode.color <$> built_nodes graph = omap (color_of graph) (g_nodes graph).
Proof.
  unfold built_nodes.
  induction (g_nodes graph) as [|rn rns IH]; [done|].
  cbn [omap list_omap]. unfold Build.build_node at 1, color_of at 1, node_key.
  destruct (Str.truthy (Str.trim (Str.or_else (raw_id rn) []))); simpl; [|done].
  rewrite clusterByNode_lookup. f_equal. apply IH.
Qed.

End ColorFacts.

(** ** The paint *)

Section DrawFacts.

Lemma draw_strokes v p :
  draw v = Some p ->
  Forall2 (fun e s => Draw.edge_stroke (hoverIndex v) (nodes v) e = Some s)
          (edges v) (strokes p).
Proof.
  unfold draw. destruct (mapM _ (edges v)) as [ss|] eqn:E; simpl; [|done].
  intros [= <-]. simpl. by apply mapM_Some in E.
Qed.

Lemma edge_stroke_alpha hovered ns e s :
  Draw.edge_stroke hovered ns e = Some s ->
  stroke_alpha s = if Draw.edge_focus hovered e then Lit.n0_55 else Lit.n0_12.
Proof.
  unfold Draw.edge_stroke.
  destruct (ns !! SimEdge.a e); simpl; [|done].
  destruct (ns !! SimEdge.b e); simpl; [|done].
  by intros [= <-].
Qed.

(** [draw] completes whenever every edge indexes the node list. *)
Lemma draw_total v : edges_in_range v -> is_Some (draw v).
Proof.
  unfold edges_in_range, draw. intros H.
  destruct (mapM (Draw.edge_stroke (hoverIndex v) (nodes v)) (edges v)) as [ss|] eqn:E;
    [by simpl|].
  exfalso. apply mapM_None in E. apply Exists_exists in E as (e & He & Hn).
  rewrite Forall_forall in H. destruct (H e He) as [Ha Hb].
  unfold Draw.edge_stroke in Hn.
  destruct (lookup_lt_is_Some_2 (nodes v) _ Ha) as [a Ea].
  destruct (lookup_lt_is_Some_2 (nodes v) _ Hb) as [b Eb].
  by rewrite Ea, Eb in Hn.
Qed.

End DrawFacts.

(** ** Leaving the canvas during a drag *)

Section LeaveFacts.

(** [mouseleave] forgets which node is dragged and touches no node. *)
Lemma mouseleave_keeps_nodes v v' :
  Pointer.mouseleave v = Some v' ->
  nodes v' = nodes v /\ dragIndex v' = -1 /\ hoverIndex v' = -1.
Proof.
  unfold Pointer.mouseleave. destruct (draw _); simpl; [|done].
  intros [= <-]. by destruct v.
Qed.

(** [mouseup], the sibling handler, clears the flag of the dragged node
    before it forgets it. *)
Lemma mouseup_unpins v v' i :
  dragIndex v = Z.of_nat i -> Pointer.mouseup v = Some v' ->
  dragIndex v' = -1 /\ exists n, nodes v' !! i = Some n /\ SimNode.fixed n = false.
Proof.
  unfold Pointer.mouseup, Pointer.node_at, Pointer.put_node. intros ->.
  rewrite Nat2Z.id. destruct (Z.of_nat i <? 0) eqn:E; [apply Z.ltb_lt in E; lia|].
  destruct (nodes v !! i) as [n|] eqn:En; simpl; [|done].
  intros [= <-]. split; [unfold start; simpl; by destruct (running v)|].
  exists (SimNode.with_fixed false n). split; [|by destruct n].
  assert (Hn : forall u, nodes (start u) = nodes u) by (intros u; unfold start; by destruct (running u)).
  rewrite Hn. simpl. apply list_lookup_insert_eq. eauto using lookup_lt_Some.
Qed.

End LeaveFacts.

(** ** The empty graph *)

Section EmptyGraph.
Variables Math_cos Math_sin : number -> number.

Lemma draw_quiet v : quiet v -> draw v = Some empty_paint.
Proof. intros (Hn & He & _). unfold draw. by rewrite Hn, He. Qed.

Lemma tick_quiet warm v : quiet v -> _tick warm v = Some v.
Proof. intros (Hn & _). unfold _tick. by rewrite Hn. Qed.

Lemma findNodeAt_quiet pos v : quiet v -> Pointer.findNodeAt pos v = -1.
Proof. intros (Hn & _). unfold Pointer.findNodeAt. by rewrite Hn. Qed.

(** Every event but a new [setGraph] is handled without an exception and
    leaves the view quiet. *)
Lemma handle_quiet v ev :
  quiet v -> is_SetGraph ev = false ->
  exists v', handle Math_cos Math_sin v ev = Some v' /\ quiet v'.
Proof.
  intros Hq Hev. pose proof Hq as (Hn & He & Hd).
  destruct ev as [pos| |button pos| |pos| | |cw ch|g r]; simpl; try discriminate.
  - unfold Pointer.mousemove. rewrite Hd. simpl.
    rewrite (findNodeAt_quiet pos v Hq).
    destruct (-1 =? hoverIndex v).
    + simpl. eexists. split; [done|]. by destruct v.
    + cbv zeta. rewrite draw_quiet by (by destruct v). simpl.
      eexists. split; [done|]. by destruct v.
  - unfold Pointer.mouseleave. cbv zeta. rewrite draw_quiet by (by destruct v). simpl.
    eexists. split; [done|]. by destruct v.
  - unfold Pointer.mousedown. rewrite (findNodeAt_quiet pos v Hq).
    destruct (negb (button =? 0)); simpl; eauto.
  - unfold Pointer.mouseup. rewrite Hd. simpl. eauto.
  - unfold Pointer.click. rewrite (findNodeAt_quiet pos v Hq). simpl. eauto.
  - unfold animation_frame. destruct (running v); [|eauto].
    rewrite tick_quiet by done. simpl. rewrite draw_quiet by done. simpl. eauto.
  - unfold stop. destruct (running v) eqn:Er; [|eauto].
    cbv zeta. rewrite draw_quiet by (by destruct v). simpl.
    eexists. split; [done|]. by destruct v.
  - unfold resize. cbv zeta. rewrite draw_quiet by (by destruct v). simpl.
    eexists. split; [done|]. by destruct v.
Qed.

Lemma run_quiet evs : forall v,
  quiet v -> Forall (fun ev => is_SetGraph ev = false) evs ->
  exists v', run Math_cos Math_sin v evs = Some v' /\ quiet v'.
Proof.
  induction evs as [|ev evs IH]; intros v Hq Hevs; simpl; [eauto|].
  apply Forall_cons in Hevs as [Hev Hevs].
  destruct (handle_quiet v ev Hq Hev) as (v1 & -> & Hq1). simpl. eauto.
Qed.

Lemma built_edges_empty graph : built_nodes graph = [] -> built_edges graph = [].
Proof.
  unfold built_edges. intros ->.
  induction (g_edges graph) as [|e es IH]; [done|].
  cbn [omap list_omap]. rewrite IH. unfold Build.build_edge, Build.build_index, Build.Map_of.
  simpl. by rewrite lookup_empty.
Qed.

End EmptyGraph.

(** ** Rounding: magnitudes that survive it *)

Section Rounding.

Lemma digits_log2 m : digits m = Z.log2 (Zpos m) + 1.
Proof.
  unfold digits. induction m as [m IH|m IH|]; simpl; try done;
    rewrite Pos2Z.inj_succ; [|]; destruct m; simpl in *; lia.
Qed.

Lemma Zdigits2_log2 m : 0 < m -> Zdigits2 m = Z.log2 m + 1.
Proof. destruct m as [|p|p]; try lia. intros _. apply digits_log2. Qed.

Lemma shr_1_div2 mrs : 0 <= shr_m mrs -> shr_m (shr_1 mrs) = Z.div2 (shr_m mrs).
Proof. destruct mrs as [[|[p|p|]|p] r s]; simpl; try done; lia. Qed.

Lemma shr_1_nonneg mrs : 0 <= shr_m mrs -> 0 <= shr_m (shr_1 mrs).
Proof. intros H. rewrite shr_1_div2, Z.div2_spec by done. by apply Z.shiftr_nonneg. Qed.

(** [p] one-bit shifts of a non-negative mantissa are a shift by [p]. *)
Lemma shr_iter p : forall mrs,
  0 <= shr_m mrs ->
  shr_m (SpecFloat.iter_pos shr_1 p mrs) = Z.shiftr (shr_m mrs) (Zpos p).
Proof.
  induction p as [p IH|p IH|]; intros mrs H; simpl.
  - pose proof (shr_1_nonneg mrs H) as H1.
    assert (H2 : 0 <= shr_m (SpecFloat.iter_pos shr_1 p (shr_1 mrs)))
      by (rewrite IH by done; by apply Z.shiftr_nonneg).
    rewrite IH, IH, shr_1_div2, Z.div2_spec, !Z.shiftr_shiftr by (done || lia).
    f_equal. lia.
  - assert (H2 : 0 <= shr_m (SpecFloat.iter_pos shr_1 p mrs))
      by (rewrite IH by done; by apply Z.shiftr_nonneg).
    rewrite IH, IH, Z.shiftr_shiftr by (done || lia).
    f_equal. lia.
  - by rewrite shr_1_div2, Z.div2_spec.
Qed.

Lemma shr_m_of_loc m l : shr_m (shr_record_of_loc m l) = m.
Proof. by destruct l as [|[]]. Qed.

Lemma shr_fexp_pos m e l :
  0 < m -> SpecFloat.emin prec emax <= Zdigits2 m + e - prec ->
  exists mrs e', shr_fexp prec emax m e l = (mrs, e')
    /\ 0 < shr_m mrs
    /\ Zdigits2 (shr_m mrs) + e' = Zdigits2 m + e
    /\ Zdigits2 m + e - prec <= e' /\ e <= e'.
Proof.
  intros Hm Hmin. unfold shr_fexp, shr, fexp.
  rewrite Z.max_l by lia.
  pose proof (Zdigits2_log2 m Hm) as Hd.
  pose proof (Z.log2_nonneg m) as Hlog.
  destruct (Zdigits2 m + e - prec - e) as [|p|p] eqn:En.
  - do 2 eexists. split; [done|]. rewrite shr_m_of_loc. lia.
  - do 2 eexists. split; [done|].
    rewrite shr_iter, shr_m_of_loc by (rewrite shr_m_of_loc; lia).
    assert (Hp : Zpos p <= Z.log2 m) by (unfold prec in *; lia).
    assert (Hpos : 0 < Z.shiftr m (Zpos p)).
    { pose proof (proj2 (Z.shiftr_nonneg m (Zpos p)) ltac:(lia)).
      destruct (Z.eq_dec (Z.shiftr m (Zpos p)) 0) as [E|E]; [|lia].
      apply Z.shiftr_eq_0_iff in E. lia. }
    split; [done|]. rewrite (Zdigits2_log2 _ Hpos), Z.log2_shiftr by done. lia.
  - do 2 eexists. split; [done|]. rewrite shr_m_of_loc. lia.
Qed.

Lemma round_nearest_even_bounds m l :
  m <= round_nearest_even m l <= m + 1.
Proof. unfold round_nearest_even. destruct l as [|[]]; try lia. destruct (Z.even m); lia. Qed.

Lemma at_least_weaken k k' x : k' <= k -> at_least k x -> at_least k' x.
Proof.
  intros Hk [->|(m & e & -> & H1 & H2)]; [by left|right].
  exists m, e. split; [done|]. lia.
Qed.

(** Rounding a positive mantissa of the normal range keeps the magnitude. *)
Lemma round_aux_at_least m e l :
  0 < m -> SpecFloat.emin prec emax <= Zdigits2 m + e - prec ->
  at_least (Zdigits2 m + e) (binary_round_aux prec emax false m e l).
Proof.
  intros Hm Hmin. unfold binary_round_aux.
  destruct (shr_fexp_pos m e l Hm Hmin) as (mrs1 & e1 & -> & Hm1 & Hd1 & He1 & _).
  pose proof (round_nearest_even_bounds (shr_m mrs1) (loc_of_shr_record mrs1)) as Hr.
  set (m2 := round_nearest_even (shr_m mrs1) (loc_of_shr_record mrs1)) in *.
  assert (Hm2 : 0 < m2) by lia.
  assert (Hd2 : Zdigits2 (shr_m mrs1) <= Zdigits2 m2).
  { rewrite !Zdigits2_log2 by done. pose proof (Z.log2_le_mono (shr_m mrs1) m2). lia. }
  destruct (shr_fexp_pos m2 e1 loc_Exact Hm2) as (mrs2 & e2 & -> & Hm3 & Hd3 & _ & He2); [lia|].
  destruct (shr_m mrs2) as [|m3|m3] eqn:E3; try lia.
  destruct (e2 <=? emax - prec); [right|by left].
  exists m3, e2. split; [done|]. unfold digits. simpl in Hd3. lia.
Qed.

Lemma digits_iter_xO m d : digits (Pos.iter xO m d) = digits m + Zpos d.
Proof.
  unfold digits. induction d as [|d IH] using Pos.peano_ind.
  - simpl. lia.
  - rewrite Pos.iter_succ. simpl. rewrite Pos2Z.inj_succ, IH. lia.
Qed.

Lemma shl_align_digits m e e' :
  digits (shl_align m e e').1 + (shl_align m e e').2 = digits m + e.
Proof.
  unfold shl_align. destruct (e' - e) as [|d|d] eqn:E; simpl; try done.
  rewrite digits_iter_xO. lia.
Qed.

Lemma shl_align_down m e e' : e' <= e -> (shl_align m e e').2 = e'.
Proof. unfold shl_align. destruct (e' - e) as [|d|d] eqn:E; simpl; lia. Qed.

Lemma binary_round_at_least m e :
  SpecFloat.emin prec emax <= digits m + e - prec ->
  at_least (digits m + e) (binary_round prec emax false m e).
Proof.
  intros Hmin. unfold binary_round.
  pose proof (shl_align_digits m e (fexp prec emax (Zpos (digits2_pos m) + e))) as Hd.
  destruct (shl_align m e _) as [mz ez]. simpl in Hd. rewrite <- Hd.
  apply (round_aux_at_least (Zpos mz) ez); [done|]. simpl. unfold digits in *. lia.
Qed.

(** An integer of at least [k] binary digits. *)
Lemma of_Z_at_least d k :
  0 < d -> SpecFloat.emin prec emax + prec <= k -> k <= Z.log2 d + 1 ->
  at_least k (Num.of_Z d).
Proof.
  intros Hd Hk Hlog. destruct d as [|p|p]; try lia.
  unfold Num.of_Z, binary_normalize.
  apply (at_least_weaken (digits p + 0)); [rewrite digits_log2; lia|].
  apply binary_round_at_least. rewrite digits_log2. lia.
Qed.

(** The product with a positive finite number. *)
Lemma mul_at_least k x my ey :
  at_least k x ->
  SpecFloat.emin prec emax + prec <= k + (digits my + ey - 1) ->
  at_least (k + (digits my + ey - 1)) (Num.mul x (S754_finite false my ey)).
Proof.
  intros [->|(mx & ex & -> & H1 & H2)] Hmin; [by left|].
  unfold Num.mul, SFmul. simpl xorb.
  assert (Hd : digits mx + digits my - 1 <= Zdigits2 (Zpos (mx * my))).
  { rewrite Zdigits2_log2, !digits_log2 by done. rewrite Pos2Z.inj_mul.
    pose proof (Z.log2_mul_below (Zpos mx) (Zpos my)). lia. }
  apply (at_least_weaken (Zdigits2 (Zpos (mx * my)) + (ex + ey))); [lia|].
  apply round_aux_at_least; [done|lia].
Qed.

(** The sum of a positive finite number and a number that is at least
    [2 ^ (k - 1)]. *)
Lemma add_at_least k mx ex y :
  at_least k y -> SpecFloat.emin prec emax + prec <= k ->
  at_least k (Num.add (S754_finite false mx ex) y).
Proof.
  intros [->|(my & ey & -> & H1 & H2)] Hmin; [by left|].
  unfold Num.add, SFadd, cond_Zopp.
  set (ez := Z.min ex ey).
  pose proof (shl_align_digits my ey ez) as Hdy.
  rewrite (shl_align_down my ey ez) in Hdy by lia.
  set (ax := (shl_align mx ex ez).1) in *. set (ay := (shl_align my ey ez).1) in *.
  change (Zpos ax + Zpos ay) with (Zpos (ax + ay)). unfold binary_normalize.
  assert (Hd : digits ay <= digits (ax + ay)).
  { rewrite !digits_log2. pose proof (Z.log2_le_mono (Zpos ay) (Zpos (ax + ay))). lia. }
  apply (at_least_weaken (digits (ax + ay) + ez)); [lia|].
  apply binary_round_at_least. lia.
Qed.

Lemma round_aux_nonneg m e l : nonneg (binary_round_aux prec emax false m e l).
Proof.
  unfold binary_round_aux.
  destruct (shr_fexp prec emax m e l) as [mrs1 e1].
  destruct (shr_fexp prec emax _ e1 loc_Exact) as [mrs2 e2].
  destruct (shr_m mrs2); try done. by destruct (e2 <=? emax - prec).
Qed.

Lemma binary_round_nonneg m e : nonneg (binary_round prec emax false m e).
Proof.
  unfold binary_round. destruct (shl_align m e _) as [mz ez]. apply round_aux_nonneg.
Qed.

Lemma mul_self_nonneg x : nonneg (Num.mul x x).
Proof.
  destruct x as [[]|[]| |s m e]; try done.
  unfold Num.mul, SFmul. rewrite xorb_nilpotent. apply round_aux_nonneg.
Qed.

Lemma add_nonneg x y : nonneg x -> nonneg y -> nonneg (Num.add x y).
Proof.
  destruct x as [[]|[]| |[] mx ex], y as [[]|[]| |[] my ey]; try done.
  intros _ _. unfold Num.add, SFadd, cond_Zopp.
  change (Zpos ?a + Zpos ?b) with (Zpos (a + b)). apply binary_round_nonneg.
Qed.

Lemma at_least_nonzero k x s : at_least k x -> x <> S754_zero s.
Proof. by intros [->|(m & e & -> & _)]. Qed.

(** The regularized squared distance is NaN, +infinity or a finite number
    of at least [2 ^ -7]: never a zero. *)
Lemma repulse_dist2_not_zero a b :
  Tick.repulse_dist2 a b = S754_nan \/ at_least (-6) (Tick.repulse_dist2 a b).
Proof.
  unfold Tick.repulse_dist2.
  set (dx := (SimNode.x b - SimNode.x a)%num). set (dy := (SimNode.y b - SimNode.y a)%num).
  pose proof (add_nonneg _ _ (mul_self_nonneg dx) (mul_self_nonneg dy)) as H.
  destruct (dx * dx + dy * dy)%num as [[]|[]| |[] m e]; try done.
  - right. right. by eexists _, _.
  - right. by left.
  - by left.
  - right. apply add_at_least; [|by vm_compute].
    right. by eexists _, _.
Qed.

Lemma sub_self x : is_finite x = true -> Num.sub x x = Lit.n0.
Proof.
  destruct x as [[]| | |s m e]; try done. intros _.
  unfold Num.sub, SFsub. by rewrite Z.sub_diag.
Qed.

(** Two nodes at the same finite position: the divisor is 0.01 and the
    vector of the pair is zero. *)
Lemma repulse_vec_coincident a b :
  SimNode.x a = SimNode.x b -> SimNode.y a = SimNode.y b ->
  is_finite (SimNode.x a) = true -> is_finite (SimNode.y a) = true ->
  Tick.repulse_dist2 a b = Lit.n0_01 /\ Tick.repulse_vec a b = (Lit.n0, Lit.n0).
Proof.
  intros Hx Hy Hfx Hfy. unfold Tick.repulse_vec, Tick.repulse_f, Tick.repulse_dist2.
  rewrite <- Hx, <- Hy, !sub_self by done. by vm_compute.
Qed.

(** [x - c] is [x + (-c)]. *)
Lemma sub_add_opp x c : Num.sub x c = Num.add x (SFopp c).
Proof.
  destruct x as [[]|[]| |sx mx ex], c as [[]|[]| |sc mc ec]; try done.
  unfold Num.sub, Num.add, SFsub, SFadd, SFopp. f_equal.
  destruct sc; simpl; lia.
Qed.

(** From degree 32 on the radius is the upper bound 24. *)
Lemma radius_of_large d : (32 <= d)%nat -> Build.radius_of d = Lit.n24.
Proof.
  intros Hd. unfold Build.radius_of.
  assert (H : at_least 6 (Lit.n10 + Num.of_nat d * Lit.n1_2)%num).
  { apply add_at_least; [|by vm_compute].
    apply (mul_at_least 6 (Num.of_nat d) 5404319552844595 (-52)); [|by vm_compute].
    apply of_Z_at_least; [lia|by vm_compute|].
    pose proof (Z.log2_le_mono 32 (Z.of_nat d)). change (Z.log2 32) with 5 in *. lia. }
  assert (Hmin : Num.Math_min Lit.n24 (Lit.n10 + Num.of_nat d * Lit.n1_2)%num = Lit.n24).
  { destruct H as [->|(m & e & -> & _ & He)]; [done|].
    unfold Num.Math_min, Lit.n24, SFcompare.
    assert (Hlt : (-48 ?= e) = Lt) by (apply Z.compare_lt_iff; unfold prec in He; lia).
    by rewrite Hlt. }
  by rewrite Hmin.
Qed.

Lemma radius_of_bounds d : radius_in_bounds d = true.
Proof.
  destruct (le_lt_dec 32 d) as [H|H].
  - unfold radius_in_bounds. by rewrite radius_of_large.
  - assert (Hall : forallb radius_in_bounds (seq 0 32) = true) by (by vm_compute).
    rewrite forallb_forall in Hall. apply Hall, in_seq. lia.
Qed.

Lemma radius_of_mono d1 d2 :
  (d1 <= d2)%nat -> Num.leb (Build.radius_of d1) (Build.radius_of d2) = true.
Proof.
  intros Hle. destruct (le_lt_dec 32 d2) as [H|H].
  - rewrite (radius_of_large d2 H).
    pose proof (radius_of_bounds d1) as Hb. unfold radius_in_bounds in Hb.
    by apply andb_prop in Hb as [_ Hb].
  - assert (Hall : forallb (fun a => forallb (fun b =>
               (b <? a)%nat || Num.leb (Build.radius_of a) (Build.radius_of b))
               (seq 0 32)) (seq 0 32) = true) by (by vm_compute).
    rewrite forallb_forall in Hall.
    assert (H1 : In d1 (seq 0 32)) by (apply in_seq; lia).
    assert (H2 : In d2 (seq 0 32)) by (apply in_seq; lia).
    specialize (Hall d1 H1). rewrite forallb_forall in Hall. specialize (Hall d2 H2).
    apply orb_prop in Hall as [Hlt|Hall]; [|done].
    apply Nat.ltb_lt in Hlt. lia.
Qed.

End Rounding.

(** ** Repulsion *)

Section Repulsion.

Lemma put_force_force n : put_force (force n) n = n.
Proof. by destruct n. Qed.

Lemma put_force_put_force f f' n : put_force f (put_force f' n) = put_force f n.
Proof. by destruct n. Qed.

Lemma force_put_force f n : force (put_force f n) = f.
Proof. by destruct n, f. Qed.

Lemma force_only_put_force f n : force_only n (put_force f n).
Proof. apply force_only_with_force. Qed.

Lemma repulse_pair_lookup orig cur i j k nk :
  Forall2 force_only orig cur -> cur !! k = Some nk ->
  Tick.repulse_pair i j cur !! k
  = Some (put_force (pair_effect orig k (i, j) (force nk)) nk).
Proof.
  intros HF Hk. unfold Tick.repulse_pair, pair_effect. simpl.
  destruct (cur !! i) as [a|] eqn:Ha.
  - destruct (Forall2_lookup_r _ _ _ _ _ HF Ha) as (a0 & -> & Hfa).
    destruct (cur !! j) as [b|] eqn:Hb.
    + destruct (Forall2_lookup_r _ _ _ _ _ HF Hb) as (b0 & -> & Hfb).
      rewrite (repulse_vec_force_only _ _ _ _ Hfa Hfb).
      destruct (decide (k = j)) as [->|Hkj].
      * rewrite list_lookup_insert_eq
          by (rewrite length_insert; eauto using lookup_lt_Some).
        rewrite Hk in Hb. by injection Hb as ->.
      * rewrite list_lookup_insert_ne by done.
        destruct (decide (k = i)) as [->|Hki].
        -- rewrite list_lookup_insert_eq by eauto using lookup_lt_Some.
           rewrite Hk in Ha. by injection Ha as ->.
        -- rewrite list_lookup_insert_ne by done. by rewrite put_force_force.
    + apply lookup_ge_None in Hb. rewrite <- (Forall2_length _ _ _ HF) in Hb.
      apply lookup_ge_None in Hb. rewrite Hb. by rewrite put_force_force.
  - apply lookup_ge_None in Ha. rewrite <- (Forall2_length _ _ _ HF) in Ha.
    apply lookup_ge_None in Ha. rewrite Ha. by rewrite put_force_force.
Qed.

Lemma repulse_from_lookup orig n i : forall cur k nk,
  Forall2 force_only orig cur -> cur !! k = Some nk ->
  Tick.repulse_from n i cur !! k
  = Some (put_force (foldl (fun f j => pair_effect orig k (i, j) f) (force nk)
                       (seq (S i) (n - S i))) nk).
Proof.
  unfold Tick.repulse_from. generalize (seq (S i) (n - S i)). intros js.
  induction js as [|j js IH]; intros cur k nk HF Hk; simpl.
  - by rewrite put_force_force.
  - rewrite (IH _ k _ (repulse_pair_shape _ _ i j HF)
               (repulse_pair_lookup _ _ i j _ _ HF Hk)).
    by rewrite force_put_force, put_force_put_force.
Qed.

Lemma repulse_outer_lookup orig n idxs : forall cur k nk,
  Forall2 force_only orig cur -> cur !! k = Some nk ->
  foldl (fun acc i => Tick.repulse_from n i acc) cur idxs !! k
  = Some (put_force
            (foldl (fun f i => foldl (fun f j => pair_effect orig k (i, j) f) f
                                 (seq (S i) (n - S i)))
               (force nk) idxs) nk).
Proof.
  induction idxs as [|i idxs IH]; intros cur k nk HF Hk; simpl.
  - by rewrite put_force_force.
  - rewrite (IH _ k _ (repulse_from_shape _ _ n i HF)
               (repulse_from_lookup _ n i _ _ _ HF Hk)).
    by rewrite force_put_force, put_force_put_force.
Qed.

Lemma foldl_ext_in {A B} (f g : A -> B -> A) (l : list B) : forall a,
  (forall x a', x ∈ l -> f a' x = g a' x) -> foldl f a l = foldl g a l.
Proof.
  induction l as [|x l IH]; intros a H; simpl; [done|].
  rewrite H by apply list_elem_of_here. apply IH.
  intros y a' Hy. apply H. by apply list_elem_of_further.
Qed.

Lemma foldl_id_in {A B} (f : A -> B -> A) (l : list B) : forall a,
  (forall x a', x ∈ l -> f a' x = a') -> foldl f a l = a.
Proof.
  induction l as [|x l IH]; intros a H; simpl; [done|].
  rewrite H by apply list_elem_of_here. apply IH.
  intros y a' Hy. apply H. by apply list_elem_of_further.
Qed.

Lemma seq_split_at (a n k : nat) :
  (a <= k < a + n)%nat ->
  seq a n = seq a (k - a) ++ k :: seq (S k) (a + n - S k).
Proof.
  intros H. replace n with ((k - a) + S (a + n - S k))%nat at 1 by lia.
  rewrite seq_app. simpl. by replace (a + (k - a))%nat with k by lia.
Qed.

Lemma pair_effect_miss ns k i j f :
  k <> i -> k <> j -> pair_effect ns k (i, j) f = f.
Proof.
  intros Hi Hj. unfold pair_effect. simpl.
  destruct (ns !! i), (ns !! j); try done.
  by rewrite !decide_False by done.
Qed.

(** The inner loop of a later node does nothing to node [k]. *)
Lemma inner_later ns n k i f :
  (k < i)%nat ->
  foldl (fun f j => pair_effect ns k (i, j) f) f (seq (S i) (n - S i)) = f.
Proof.
  intros Hki. apply foldl_id_in. intros j f' Hj%elem_of_seq.
  apply pair_effect_miss; lia.
Qed.

(** The inner loop of an earlier node adds one vector to node [k]. *)
Lemma inner_earlier ns k i f :
  (i < k < length ns)%nat ->
  foldl (fun f j => pair_effect ns k (i, j) f) f (seq (S i) (length ns - S i))
  = vadd f (pair_force ns i k).
Proof.
  intros Hik. rewrite (seq_split_at (S i) _ k) by lia.
  rewrite foldl_app. simpl.
  rewrite (foldl_id_in _ (seq (S i) _)).
  2:{ intros j f' Hj%elem_of_seq. apply pair_effect_miss; lia. }
  rewrite foldl_id_in.
  2:{ intros j f' Hj%elem_of_seq. apply pair_effect_miss; lia. }
  unfold pair_effect, pair_force. simpl.
  destruct (lookup_lt_is_Some_2 ns i) as [a ->]; [lia|].
  destruct (lookup_lt_is_Some_2 ns k) as [b ->]; [lia|].
  by rewrite decide_True.
Qed.

(** The inner loop of node [k] itself subtracts one vector per later
    node. *)
Lemma inner_own ns k f :
  (k < length ns)%nat ->
  foldl (fun f j => pair_effect ns k (k, j) f) f (seq (S k) (length ns - S k))
  = foldl (fun f j => vsub f (pair_force ns k j)) f (seq (S k) (length ns - S k)).
Proof.
  intros Hk. apply foldl_ext_in. intros j f' Hj%elem_of_seq.
  unfold pair_effect, pair_force. simpl.
  destruct (lookup_lt_is_Some_2 ns k) as [a ->]; [lia|].
  destruct (lookup_lt_is_Some_2 ns j) as [b ->]; [lia|].
  rewrite decide_False by lia. by rewrite decide_True.
Qed.

Lemma repulsion_lookup ns k nk :
  ns !! k = Some nk ->
  Tick.repulsion ns !! k = Some (put_force (repulsion_on ns k (force nk)) nk).
Proof.
  intros Hk. unfold Tick.repulsion.
  rewrite (repulse_outer_lookup ns _ _ ns k nk (force_only_list_refl ns) Hk).
  f_equal. f_equal. unfold repulsion_on.
  apply lookup_lt_Some in Hk as Hlt.
  rewrite (seq_split_at 0 (length ns) k) by lia.
  rewrite foldl_app. simpl. rewrite Nat.sub_0_r.
  rewrite (foldl_ext_in _ (fun f i => vadd f (pair_force ns i k)) (seq 0 k)).
  2:{ intros i f' Hi%elem_of_seq. apply inner_earlier. lia. }
  rewrite inner_own by done.
  apply foldl_id_in. intros i f' Hi%elem_of_seq. apply inner_later. lia.
Qed.

End Repulsion.

(** * The claims *)

(** ** C1: containment *)

(** C1, as stated, fails: a node being dragged is fixed, the integrator
    leaves the loop body for it before the clamp, and the step keeps it at
    the pointer position (5, 5), outside [[18, 782] x [18, 582]].  It also
    fails for a free node on a canvas less than 36 wide: on a 10 x 10
    canvas the clamp puts the node at (18, 18), and 18 is above
    [width - 18 = -8]. *)
Lemma dragged_node_escapes_box :
  (exists v0 v v' n,
     create true (Some (Num.of_Z 800, Num.of_Z 600)) = Some v0
     /\ run cos_at_0 sin_at_0 v0 drag_to_corner = Some v
     /\ ticks false 1 v = Some v'
     /\ nodes v' = [n]
     /\ SimNode.fixed n = true
     /\ (SimNode.x n, SimNode.y n) = (Num.of_Z 5, Num.of_Z 5)
     /\ view_w v' = Num.of_Z 800 /\ view_h v' = Num.of_Z 600
     /\ in_box (view_w v') (view_h v') n = false)
  /\ (exists v0 v v' n,
        create true (Some (Num.of_Z 10, Num.of_Z 10)) = Some v0
        /\ Build.setGraph cos_at_0 sin_at_0 no_jitter v0 one_node_graph = Some v
        /\ ticks false 1 v = Some v'
        /\ nodes v' = [n]
        /\ SimNode.fixed n = false
        /\ (SimNode.x n, SimNode.y n) = (Num.of_Z 18, Num.of_Z 18)
        /\ view_w v' = Num.of_Z 10 /\ view_h v' = Num.of_Z 10
        /\ in_box (view_w v') (view_h v') n = false).
Proof.
  split; do 4 eexists;
    (split; [vm_compute; reflexivity|]);
    (split; [vm_compute; reflexivity|]);
    (split; [vm_compute; reflexivity|]);
    (split; [reflexivity|]); repeat split; vm_compute; reflexivity.
Qed.

(** C1, amended: after one or more steps on a viewport at least 36 wide and
    high, every node whose [fixed] flag is false and whose coordinates are
    numbers lies in [[18, w - 18] x [18, h - 18]]; a node whose flag is
    true is not clamped, it is where it was before the steps. *)
Theorem ticks_contain_free_nodes (warm : bool) (k : nat) (v v' : View) :
  ticks warm (S k) v = Some v' ->
  Num.leb Tick.margin (view_w v - Tick.margin)%num = true ->
  Num.leb Tick.margin (view_h v - Tick.margin)%num = true ->
  forall i n', nodes v' !! i = Some n' ->
    (SimNode.fixed n' = false ->
     SimNode.x n' <> S754_nan -> SimNode.y n' <> S754_nan ->
     in_box (view_w v') (view_h v') n' = true)
    /\ (SimNode.fixed n' = true ->
        exists n, nodes v !! i = Some n
                  /\ SimNode.x n' = SimNode.x n /\ SimNode.y n' = SimNode.y n).
Proof.
  intros H Hw Hh i n' Hi. split.
  - revert H. rewrite ticks_last.
    destruct (ticks warm k v) as [v1|] eqn:E; simpl; [|done].
    intros H Hfix Hx Hy.
    destruct (ticks_frame _ _ _ _ E) as (_ & _ & _ & _ & _ & Ew & Eh & _).
    assert (Hw1 : view_w v1 = view_w v) by (unfold view_w; by rewrite Ew).
    assert (Hh1 : view_h v1 = view_h v) by (unfold view_h; by rewrite Eh).
    rewrite (view_w_tick _ _ _ H), (view_h_tick _ _ _ H).
    destruct (tick_lookup_inv _ _ _ _ _ H Hi) as [n1 Hn1].
    destruct (tick_lookup _ _ _ _ _ H Hn1) as (fs & nf & _ & _ & _ & Hn').
    rewrite Hi in Hn'. injection Hn' as ->.
    rewrite fixed_integrate in Hfix.
    rewrite (integrate_free _ _ _ _ Hfix) in Hx, Hy |- *.
    rewrite Hw1, Hh1 in *. by apply in_box_clamp_pos.
  - intros Hfix.
    destruct (ticks_fixed_stay _ _ _ _ _ _ H Hi Hfix) as (n & ? & ? & ? & _). eauto.
Qed.

(** The free node of [border_view], which a step would carry beyond the
    right border, is clamped to x = 782. *)
Lemma ticks_contain_free_nodes_witness :
  exists n', nodes border_view_next !! 0%nat = Some n'
             /\ SimNode.x n' = Num.of_Z 782
             /\ in_box Lit.n800 Lit.n600 n' = true.
Proof.
  eexists. split; [reflexivity|]. split; [reflexivity|].
  refine (proj1 (ticks_contain_free_nodes false 0 border_view border_view_next
                   _ _ _ 0%nat _ _) _ _ _).
  - by vm_compute.
  - by vm_compute.
  - by vm_compute.
  - reflexivity.
  - reflexivity.
  - by vm_compute.
  - by vm_compute.
Defined.

(** ** C2: built edges *)

(** C2: [setGraph] completes, and in the model it leaves every edge has two
    endpoints that index the node list and differ; the edge list is the
    raw edge list mapped through the id index with the unmatched entries
    removed, and a raw edge is one of those whenever its source or its
    target is the id of no surviving node, or the two are the same id. *)
Theorem setGraph_edges_valid (Math_cos Math_sin : number -> number) (rnd : nat -> number)
    (v : View) (graph : GraphDocument) :
  exists v', Build.setGraph Math_cos Math_sin rnd v graph = Some v'
    /\ Forall (edge_ok (length (nodes v'))) (edges v')
    /\ edges v' = omap (Build.build_edge (nodeIndex v')) (g_edges graph)
    /\ forall e,
         (forall n, n ∈ nodes v' -> SimNode.id n <> source_key e)
         \/ (forall n, n ∈ nodes v' -> SimNode.id n <> target_key e)
         \/ source_key e = target_key e ->
         Build.build_edge (nodeIndex v') e = None.
Proof.
  destruct (setGraph_spec Math_cos Math_sin rnd v graph) as (v' & H & He & Hi & _ & _ & _ & _ & Hl & _).
  exists v'. split; [done|].
  destruct (setGraph_index _ _ _ _ _ _ H) as [Hidx Hedges].
  split; [|split; [done|]].
  - rewrite He, Hl. apply built_edges_ok.
  - intros e He'. apply build_edge_unmatched. rewrite Hidx.
    destruct He' as [H1|[H1|H1]]; [left|right; left|right; right; done];
      by apply build_index_None.
Qed.

(** ** C3: integration *)




(** ** C4: repulsion *)

(** C4, as stated, fails: on a 10 x 10 canvas the clamp puts both nodes of
    a two-node graph at (18, 18); for this pair 5600 divided by the
    regularized squared distance is 560000, but the vector the repulsion
    step adds is zero, and the step leaves the accumulated forces as they
    were: the two nodes are not pushed apart. *)
Lemma coincident_nodes_not_repelled :
  exists v0 v a b,
    create true (Some (Num.of_Z 10, Num.of_Z 10)) = Some v0
    /\ Build.setGraph cos_two sin_two jitter v0 two_node_graph = Some v
    /\ nodes v = [a; b]
    /\ (SimNode.x a, SimNode.y a) = (Num.of_Z 18, Num.of_Z 18)
    /\ (SimNode.x b, SimNode.y b) = (Num.of_Z 18, Num.of_Z 18)
    /\ Tick.repulse_f a b = Num.of_Z 560000
    /\ Tick.repulse_vec a b = (Lit.n0, Lit.n0)
    /\ Tick.repulsion (Tick.reset_force <$> nodes v) = Tick.reset_force <$> nodes v.
Proof.
  do 4 eexists. split; [vm_compute; reflexivity|].
  split; [vm_compute; reflexivity|]. split; [reflexivity|]. by vm_compute.
Qed.

(** C4, amended: the repulsion step adds to the accumulated force of every
    node, for each pair it forms with an earlier node, the vector of that
    pair, and subtracts from it, for each pair it forms with a later node,
    the vector of that pair (so the two nodes of a pair get opposite
    vectors: subtracting is adding the negated vector).  The vector of a
    pair is the displacement between the two nodes scaled by
    [1 / sqrt(dist2)] and by [5600 / dist2], where [dist2] is the squared
    distance plus 0.01; [dist2] is never a zero, so nothing is divided by
    zero; for two nodes at the same finite position [dist2] is 0.01 and
    the vector is zero. *)
Theorem repulsion_adds_pair_vectors (ns : list SimNode.t) (k : nat) (nk : SimNode.t) :
  ns !! k = Some nk ->
  Tick.repulsion ns !! k = Some (put_force (repulsion_on ns k (force nk)) nk)
  /\ (forall i j a b, ns !! i = Some a -> ns !! j = Some b ->
        pair_force ns i j = Tick.repulse_vec a b
        /\ Tick.repulse_vec a b =
           (let dx := (SimNode.x b - SimNode.x a)%num in
            let dy := (SimNode.y b - SimNode.y a)%num in
            let dist2 := Tick.repulse_dist2 a b in
            let inv := (Lit.n1 / Num.sqrt dist2)%num in
            let f := (Lit.n5600 / dist2)%num in
            ((dx * inv * f)%num, (dy * inv * f)%num))
        /\ (forall s, Tick.repulse_dist2 a b <> S754_zero s)
        /\ (SimNode.x a = SimNode.x b -> SimNode.y a = SimNode.y b ->
            is_finite (SimNode.x a) = true -> is_finite (SimNode.y a) = true ->
            Tick.repulse_dist2 a b = Lit.n0_01
            /\ Tick.repulse_vec a b = (Lit.n0, Lit.n0)))
  /\ (forall f c, vsub f c = vadd f (SFopp c.1, SFopp c.2)).
Proof.
  intros Hk. split; [by apply repulsion_lookup|]. split.
  - intros i j a b Ha Hb. split; [unfold pair_force; by rewrite Ha, Hb|].
    split; [done|]. split.
    + intros s. destruct (repulse_dist2_not_zero a b) as [->|H]; [done|].
      by apply at_least_nonzero with (-6).
    + apply repulse_vec_coincident.
  - intros f c. unfold vsub, vadd. simpl. by rewrite !sub_add_opp.
Qed.

(** Two nodes at (100, 100) and (103, 104): the first one is pushed to the
    left. *)
Lemma repulsion_adds_pair_vectors_witness :
  let a := sample_node "A" 100 100 0 0 false in
  let b := sample_node "B" 103 104 0 0 false in
  exists n, Tick.repulsion [a; b] !! 0%nat = Some n
            /\ force n = vsub (Lit.n0, Lit.n0) (Tick.repulse_vec a b)
            /\ Num.ltb (SimNode.fx n) Lit.n0 = true.
Proof.
  intros a b.
  destruct (repulsion_adds_pair_vectors [a; b] 0%nat a eq_refl) as (H & _ & _).
  eexists. split; [exact H|]. split; vm_compute; reflexivity.
Defined.

(** ** C5: colors *)

(** C5, as stated, fails: both nodes of [empty_tag_graph] have the title
    "b" and a tag list without a non-empty tag.  A, with the tag list
    [[""]], gets the color of the hash of its title (98, palette entry 2)
    and not of its tag list (the joined tags are the empty string, hash 0,
    palette entry 0); B, with the tag list [[""; ""]], gets the color of
    the hash of its joined tags ("|", hash 124, palette entry 4) and not
    of its title.  The title is used exactly when the joined tags are an
    empty string. *)
Lemma empty_tag_color_from_title :
  exists v0 v',
    create true (Some (Num.of_Z 800, Num.of_Z 600)) = Some v0
    /\ Build.setGraph cos_two sin_two jitter v0 empty_tag_graph = Some v'
    /\ SimNode.tags <$> nodes v' = [[[]]; [[]; []]]
    /\ SimNode.title <$> nodes v' = [Str.js "b"; Str.js "b"]
    /\ SimNode.color <$> nodes v' = ["#34d399"; "#065f46"]%string
    /\ Build.colorForCluster (Build.hash (Str.js "b")) = "#34d399"%string
    /\ Build.colorForCluster (Build.hash (claimed_hash_input [[]] (Str.js "b")))
       = "#059669"%string
    /\ Build.colorForCluster (Build.hash (claimed_hash_input [[]; []] (Str.js "b")))
       = "#065f46"%string.
Proof.
  do 2 eexists. split; [vm_compute; reflexivity|].
  split; [vm_compute; reflexivity|]. repeat split; vm_compute; reflexivity.
Qed.

(** C5, amended: the colors [setGraph] assigns depend on the document
    alone (two builds of it, from any views, on any platform and with any
    random numbers, assign the same colors), and the color of a node is the
    palette entry of the first cluster that lists its id, in cluster
    order, or, when no cluster lists it, the palette entry of the
    31-multiplier hash modulo 2^32 of its tags joined by a bar, or of its
    title when that joined string is empty (no tags, or one empty tag). *)
Theorem colors_from_document
    (cos1 sin1 cos2 sin2 : number -> number) (rnd1 rnd2 : nat -> number)
    (v1 v2 : View) (graph : GraphDocument) :
  exists v1' v2',
    Build.setGraph cos1 sin1 rnd1 v1 graph = Some v1'
    /\ Build.setGraph cos2 sin2 rnd2 v2 graph = Some v2'
    /\ SimNode.color <$> nodes v1' = SimNode.color <$> nodes v2'
    /\ SimNode.color <$> nodes v1' = omap (color_of graph) (g_nodes graph).
Proof.
  destruct (setGraph_spec cos1 sin1 rnd1 v1 graph) as (v1' & H1 & _).
  destruct (setGraph_spec cos2 sin2 rnd2 v2 graph) as (v2' & H2 & _).
  exists v1', v2'. do 2 (split; [done|]).
  destruct (setGraph_ids _ _ _ _ _ _ H1) as [_ ->].
  destruct (setGraph_ids _ _ _ _ _ _ H2) as [_ ->].
  split; [done|apply built_nodes_colors].
Qed.

(** ** C6: edge opacity *)

(** C6, as stated, fails: with X hovered, the edge Y - Z has the neighbour
    Y of X as an endpoint, and it is drawn at 0.12, not at 0.55. *)
Lemma neighbour_edge_is_dimmed :
  exists v p,
    Pointer.mousemove (Num.of_Z 200, Num.of_Z 300) chain_view = Some v
    /\ hoverIndex v = 0
    /\ draw v = Some p
    /\ touches_neighbourhood (hoverIndex v) (edges v) <$> edges v = [true; true]
    /\ touches (hoverIndex v) <$> edges v = [true; false]
    /\ stroke_alpha <$> strokes p = [Lit.n0_55; Lit.n0_12].
Proof.
  do 2 eexists. split; [vm_compute; reflexivity|].
  split; [reflexivity|]. split; [vm_compute; reflexivity|]. by vm_compute.
Qed.

(** C6, amended: in a draw pass with a hovered node, exactly the edges that
    have that node as an endpoint are drawn at opacity 0.55 and all other
    edges at 0.12; with no hovered node every edge is drawn at 0.55. *)
Theorem draw_edge_opacity (v : View) (p : Paint) :
  draw v = Some p ->
  length (strokes p) = length (edges v)
  /\ forall i e, edges v !! i = Some e ->
       exists s, strokes p !! i = Some s
         /\ stroke_alpha s =
            (if hoverIndex v <? 0 then Lit.n0_55
             else if touches (hoverIndex v) e then Lit.n0_55 else Lit.n0_12).
Proof.
  intros H. apply draw_strokes in H. split.
  - symmetry. by eapply Forall2_length.
  - intros i e He. destruct (Forall2_lookup_l _ _ _ _ _ H He) as (s & Hs & Hes).
    exists s. split; [done|]. rewrite (edge_stroke_alpha _ _ _ _ Hes).
    unfold Draw.edge_focus, touches. by destruct (hoverIndex v <? 0).
Qed.

(** The chain X - Y - Z with X hovered: the edge Y - Z is drawn at 0.12. *)
Lemma draw_edge_opacity_witness :
  exists p, draw (set_hover 0 chain_view) = Some p
            /\ stroke_alpha <$> strokes p = [Lit.n0_55; Lit.n0_12]
            /\ exists s, strokes p !! 1%nat = Some s /\ stroke_alpha s = Lit.n0_12.
Proof.
  eexists. split; [vm_compute; reflexivity|]. split; [by vm_compute|].
  destruct (draw_edge_opacity (set_hover 0 chain_view) _ eq_refl) as [_ H].
  destruct (H 1%nat _ eq_refl) as (s & Hs & Ha).
  exists s. split; [exact Hs|exact Ha].
Defined.

(** ** C7: leaving the canvas during a drag *)

(** C7 fails on the code: after the pointer has left the canvas during a
    drag no node is dragged any more, but the node that was dragged still
    has [fixed = true]; the following [mouseup] returns at once, and the
    steps of the following frames leave the node at (100, 100) although a
    force towards the centre is accumulated on it. *)
Lemma leave_keeps_node_pinned :
  exists v0 v v2 n n2,
    create true (Some (Num.of_Z 800, Num.of_Z 600)) = Some v0
    /\ run cos_at_0 sin_at_0 v0 drag_then_leave = Some v
    /\ dragIndex v = -1
    /\ nodes v = [n] /\ SimNode.fixed n = true
    /\ run cos_at_0 sin_at_0 v [MouseUp; AnimationFrame; AnimationFrame; AnimationFrame]
       = Some v2
    /\ running v2 = true
    /\ nodes v2 = [n2] /\ SimNode.fixed n2 = true
    /\ (SimNode.x n2, SimNode.y n2) = (Num.of_Z 100, Num.of_Z 100)
    /\ Num.is_nan (SimNode.fx n2) = false /\ Num.truthy (SimNode.fx n2) = true.
Proof.
  do 5 eexists. split; [vm_compute; reflexivity|].
  split; [vm_compute; reflexivity|]. split; [reflexivity|].
  split; [reflexivity|]. split; [reflexivity|].
  split; [vm_compute; reflexivity|]. by vm_compute.
Qed.

(** ** C8: degree and radius *)

(** C8: in the model [setGraph] leaves, the degree of every node is the
    number of edge entries that reference it and its radius is
    [Math.max(10, Math.min(24, 10 + degree * 1.2))]; that radius lies in
    [[10, 24]] for every degree and does not decrease when the degree
    grows. *)
Theorem degree_and_radius (Math_cos Math_sin : number -> number) (rnd : nat -> number)
    (v : View) (graph : GraphDocument) :
  exists v', Build.setGraph Math_cos Math_sin rnd v graph = Some v'
    /\ (forall i n, nodes v' !! i = Some n ->
          SimNode.degree n = referencing i (edges v')
          /\ SimNode.r n
             = Num.Math_max Lit.n10
                 (Num.Math_min Lit.n24
                    (Lit.n10 + Num.of_nat (SimNode.degree n) * Lit.n1_2)%num))
    /\ (forall d, Num.leb Lit.n10 (Build.radius_of d) = true
                  /\ Num.leb (Build.radius_of d) Lit.n24 = true)
    /\ (forall d1 d2, (d1 <= d2)%nat ->
          Num.leb (Build.radius_of d1) (Build.radius_of d2) = true).
Proof.
  destruct (setGraph_spec Math_cos Math_sin rnd v graph)
    as (v' & H & He & _ & _ & _ & _ & _ & Hl & Hn).
  exists v'. split; [done|]. split; [|split].
  - intros i n Hi.
    assert (Hi0 : is_Some (built_nodes graph !! i)).
    { apply lookup_lt_is_Some. rewrite <- Hl. eauto using lookup_lt_Some. }
    destruct Hi0 as [n0 Hn0]. destruct (Hn i n0 Hn0) as (n2 & Hn2 & Hs & _).
    rewrite Hi in Hn2. injection Hn2 as <-.
    unfold static, built_static in Hs. injection Hs as _ _ _ _ _ _ _ Hr Hd.
    rewrite He. split; [done|]. by rewrite Hr, Hd.
  - intros d. pose proof (radius_of_bounds d) as Hb.
    by apply andb_prop in Hb.
  - apply radius_of_mono.
Qed.

(** ** C9: the empty graph *)

(** C9: on a document that yields no node, [setGraph] completes and leaves
    empty node and edge lists; after that, and after any further pointer,
    frame, timer and resize events, none of which throws, a step returns
    the view unchanged, the hit test reports no hit (-1) at every
    position, and [draw] completes and puts nothing on the cleared
    canvas. *)
Theorem empty_graph_is_safe (Math_cos Math_sin : number -> number) (rnd : nat -> number)
    (v : View) (graph : GraphDocument) :
  built_nodes graph = [] ->
  exists v', Build.setGraph Math_cos Math_sin rnd v graph = Some v'
    /\ nodes v' = [] /\ edges v' = []
    /\ forall evs, Forall (fun ev => is_SetGraph ev = false) evs ->
         exists v'', run Math_cos Math_sin v' evs = Some v''
           /\ nodes v'' = [] /\ edges v'' = []
           /\ (forall warm, _tick warm v'' = Some v'')
           /\ (forall pos, Pointer.findNodeAt pos v'' = -1)
           /\ draw v'' = Some empty_paint.
Proof.
  intros Hempty.
  destruct (setGraph_spec Math_cos Math_sin rnd v graph)
    as (v' & H & He & _ & _ & Hd & _ & _ & Hl & _).
  exists v'. split; [done|].
  assert (Hq : quiet v').
  { repeat split; [|by rewrite He, built_edges_empty|done].
    rewrite Hempty in Hl. by apply nil_length_inv. }
  destruct Hq as (Hn & He' & Hd'). do 2 (split; [done|]).
  intros evs Hevs.
  destruct (run_quiet Math_cos Math_sin evs v') as (v'' & Hrun & Hq''); [done..|].
  exists v''. split; [done|]. destruct Hq'' as (Hn'' & He'' & Hd'').
  do 2 (split; [done|]).
  split; [intros warm; by apply tick_quiet|].
  split; [intros pos; by apply findNodeAt_quiet|by apply draw_quiet].
Qed.

(** [no_node_graph] on a fresh 800 x 600 view, followed by pointer events
    and a frame. *)
Lemma empty_graph_is_safe_witness :
  exists v0 v' v'',
    create true (Some (Num.of_Z 800, Num.of_Z 600)) = Some v0
    /\ Build.setGraph cos_at_0 sin_at_0 no_jitter v0 no_node_graph = Some v'
    /\ run cos_at_0 sin_at_0 v'
         [MouseMove (Num.of_Z 10, Num.of_Z 10); MouseDown 0 (Num.of_Z 10, Num.of_Z 10);
          MouseUp; AnimationFrame; MouseLeave] = Some v''
    /\ nodes v'' = [] /\ _tick false v'' = Some v'' /\ draw v'' = Some empty_paint.
Proof.
  eexists.
  destruct (empty_graph_is_safe cos_at_0 sin_at_0 no_jitter
              (default chain_view
                 (create true (Some (Num.of_Z 800, Num.of_Z 600))))
              no_node_graph eq_refl)
    as (v' & H & _ & _ & Hrun).
  destruct (Hrun [MouseMove (Num.of_Z 10, Num.of_Z 10);
                  MouseDown 0 (Num.of_Z 10, Num.of_Z 10);
                  MouseUp; AnimationFrame; MouseLeave])
    as (v'' & Hr & Hn & _ & Ht & _ & Hdraw).
  { repeat constructor. }
  exists v', v''. split; [vm_compute; reflexivity|].
  split; [exact H|]. split; [exact Hr|]. split; [exact Hn|]. split; [apply Ht|exact Hdraw].
Defined.

(** ** C10: duplicate ids *)

(** C10: [setGraph] keeps one node per raw node with a non-empty id,
    duplicates included; the index binds an id to the last node that
    carries it and the built edges take their endpoints from the index:
    every edge entry that names the ids of two nodes, the two ids being
    different, is built, and its endpoints are the last node that carries
    the source id and the last node that carries the target id; a node
    that shares its id with a later node ends with degree 0 and is
    referenced by no edge. *)
Theorem duplicate_ids_bind_last (Math_cos Math_sin : number -> number) (rnd : nat -> number)
    (v : View) (graph : GraphDocument) :
  exists v', Build.setGraph Math_cos Math_sin rnd v graph = Some v'
    /\ SimNode.id <$> nodes v' = omap node_key (g_nodes graph)
    /\ (forall k j, nodeIndex v' !! k = Some j <->
          (exists n, nodes v' !! j = Some n /\ SimNode.id n = k)
          /\ (forall j' m, (j < j')%nat -> nodes v' !! j' = Some m -> SimNode.id m <> k))
    /\ edges v' = omap (Build.build_edge (nodeIndex v')) (g_edges graph)
    /\ (forall e i j n m,
          e ∈ g_edges graph ->
          nodes v' !! i = Some n -> SimNode.id n = source_key e ->
          nodes v' !! j = Some m -> SimNode.id m = target_key e ->
          source_key e <> target_key e ->
          exists se na nb,
            Build.build_edge (nodeIndex v') e = Some se /\ se ∈ edges v'
            /\ nodes v' !! SimEdge.a se = Some na /\ SimNode.id na = source_key e
            /\ nodes v' !! SimEdge.b se = Some nb /\ SimNode.id nb = target_key e
            /\ (i <= SimEdge.a se)%nat /\ (j <= SimEdge.b se)%nat
            /\ SimEdge.a se <> SimEdge.b se)
    /\ forall i j n m,
         (i < j)%nat -> nodes v' !! i = Some n -> nodes v' !! j = Some m ->
         SimNode.id n = SimNode.id m ->
         SimNode.degree n = 0%nat
         /\ Forall (fun e => SimEdge.a e <> i /\ SimEdge.b e <> i) (edges v').
Proof.
  destruct (setGraph_spec Math_cos Math_sin rnd v graph)
    as (v' & H & He & Hi & _ & _ & _ & _ & Hl & Hn).
  exists v'. split; [done|].
  destruct (setGraph_index _ _ _ _ _ _ H) as [Hidx Hedges].
  destruct (setGraph_ids _ _ _ _ _ _ H) as [Hids _].
  split; [by rewrite Hids, built_nodes_ids|].
  split; [intros k j; rewrite Hidx; apply build_index_Some|].
  split; [done|].
  split.
  { intros e i j n m Hin Hni Hki Hmj Hkj Hne.
    assert (Hlast : forall k i0 n0, nodes v' !! i0 = Some n0 -> SimNode.id n0 = k ->
              exists a na, nodeIndex v' !! k = Some a
                /\ nodes v' !! a = Some na /\ SimNode.id na = k /\ (i0 <= a)%nat).
    { intros k i0 n0 Hn0 Hk0. rewrite Hidx.
      destruct (Build.build_index (nodes v') !! k) as [a|] eqn:Ea.
      - pose proof Ea as [(na & Hna & Hka) Hla]%build_index_Some.
        exists a, na. do 3 (split; [done|]).
        destruct (le_lt_dec i0 a) as [Hle|Hlt]; [done|].
        by destruct (Hla i0 n0 Hlt Hn0).
      - rewrite build_index_None in Ea. destruct (Ea n0); [|done].
        by apply list_elem_of_lookup_2 in Hn0. }
    destruct (Hlast _ i n Hni Hki) as (a & na & Ha & Hna & Hka & Hia).
    destruct (Hlast _ j m Hmj Hkj) as (b & nb & Hb & Hnb & Hkb & Hjb).
    assert (Hab : a <> b).
    { intros ->. rewrite Hna in Hnb. injection Hnb as <-. congruence. }
    assert (Hse : Build.build_edge (nodeIndex v') e
                  = Some (SimEdge.mk a b
                            (Str.or_else (raw_type e) (Str.js "related"))
                            (Build.edge_weight (raw_weight e))
                            (Str.trim (Str.or_else (raw_reason e) [])))).
    { unfold Build.build_edge. unfold source_key in Ha. unfold target_key in Hb.
      rewrite Ha, Hb. by rewrite bool_decide_eq_false_2. }
    eexists _, na, nb. split; [exact Hse|]. split.
    { rewrite Hedges. apply list_elem_of_omap. eauto. }
    simpl. do 6 (split; [done|]). done. }
  intros i j n m Hij Hn' Hm Hid.
  assert (Hno : Forall (fun e => SimEdge.a e <> i /\ SimEdge.b e <> i) (edges v')).
  { rewrite Hedges. apply Forall_forall.
    intros se (e & _ & Hse)%list_elem_of_omap.
    apply build_edge_Some in Hse as (Ha & Hb & _).
    rewrite Hidx in Ha, Hb.
    apply build_index_Some in Ha as [(na & Hna & Hka) Hla].
    apply build_index_Some in Hb as [(nb & Hnb & Hkb) Hlb].
    split; intros Heq; rewrite Heq in *.
    - rewrite Hn' in Hna. injection Hna as <-. apply (Hla j m Hij Hm). congruence.
    - rewrite Hn' in Hnb. injection Hnb as <-. apply (Hlb j m Hij Hm). congruence. }
  split; [|done].
  assert (Hi0 : is_Some (built_nodes graph !! i)).
  { apply lookup_lt_is_Some. rewrite <- Hl. eauto using lookup_lt_Some. }
  destruct Hi0 as [n0 Hn0]. destruct (Hn i n0 Hn0) as (n2 & Hn2 & Hs & _).
  rewrite Hn' in Hn2. injection Hn2 as <-.
  unfold static, built_static in Hs.
  injection Hs as _ _ _ _ _ _ _ _ ->. rewrite <- He. by apply referencing_zero.
Qed.

(** * Further facts *)

(** ** Signs and bounds of numbers *)

Section Signs.

Lemma shr_nonneg mrs e n : 0 <= shr_m mrs -> 0 <= shr_m (shr mrs e n).1.
Proof.
  intros H. unfold shr. destruct n as [|p|p]; simpl; try done.
  rewrite shr_iter by done. by apply Z.shiftr_nonneg.
Qed.

Lemma shr_fexp_nonneg m e l : 0 <= m -> 0 <= shr_m (shr_fexp prec emax m e l).1.
Proof.
  intros H. unfold shr_fexp. apply shr_nonneg. by rewrite shr_m_of_loc.
Qed.

(** Rounding never yields NaN, and keeps the sign. *)
Lemma round_aux_sign s m e l :
  0 <= m -> has_sign s (binary_round_aux prec emax s m e l).
Proof.
  intros Hm. unfold binary_round_aux.
  pose proof (shr_fexp_nonneg m e l Hm) as H1.
  destruct (shr_fexp prec emax m e l) as [mrs1 e1]. simpl in H1.
  pose proof (round_nearest_even_bounds (shr_m mrs1) (loc_of_shr_record mrs1)) as Hr.
  set (m2 := round_nearest_even (shr_m mrs1) (loc_of_shr_record mrs1)) in *.
  pose proof (shr_fexp_nonneg m2 e1 loc_Exact ltac:(lia)) as H2.
  destruct (shr_fexp prec emax m2 e1 loc_Exact) as [mrs2 e2]. simpl in H2.
  destruct (shr_m mrs2) as [|m3|m3]; [done| |lia]. by destruct (e2 <=? emax - prec).
Qed.

Lemma binary_round_sign s m e : has_sign s (binary_round prec emax s m e).
Proof.
  unfold binary_round. destruct (shl_align m e _) as [mz ez].
  by apply round_aux_sign.
Qed.

Lemma of_Z_neg p : has_sign true (Num.of_Z (Zneg p)).
Proof. apply binary_round_sign. Qed.

Lemma has_sign_not_nan s x : has_sign s x -> x <> S754_nan.
Proof. by destruct x. Qed.

Lemma not_nan_has_sign x : x <> S754_nan -> exists s, has_sign s x.
Proof. destruct x as [s|s| |s m e]; try done; intros _; by exists s. Qed.

(** The product with a finite number that is not zero is NaN only for
    NaN. *)
Lemma mul_finite_not_nan x s m e :
  x <> S754_nan -> Num.mul x (S754_finite s m e) <> S754_nan.
Proof.
  destruct x as [sx|sx| |sx mx ex]; try done. intros _.
  unfold Num.mul, SFmul. apply (has_sign_not_nan (xorb sx s)).
  by apply round_aux_sign.
Qed.

Lemma SFcompare_Some x y :
  x <> S754_nan -> y <> S754_nan -> is_Some (SFcompare x y).
Proof.
  destruct x as [[]|[]| |[] mx ex], y as [[]|[]| |[] my ey]; try done; intros _ _;
    simpl; by eexists.
Qed.

Lemma Math_min_not_nan a b :
  a <> S754_nan -> b <> S754_nan -> Num.Math_min a b <> S754_nan.
Proof.
  intros Ha Hb. destruct (Math_min_spec a b) as [E|[[E|E] _]]; [|by rewrite E..].
  unfold Num.Math_min in *.
  destruct (SFcompare_Some a b Ha Hb) as [c Hc]. rewrite Hc in *.
  destruct c; [|done..]. by destruct a as [[]| | |].
Qed.

Lemma Math_max_not_nan a b :
  a <> S754_nan -> b <> S754_nan -> Num.Math_max a b <> S754_nan.
Proof.
  intros Ha Hb. destruct (Math_max_spec a b) as [E|[[E|E] _]]; [|by rewrite E..].
  unfold Num.Math_max in *.
  destruct (SFcompare_Some a b Ha Hb) as [c Hc]. rewrite Hc in *.
  destruct c; [|done..]. by destruct a as [[]| | |].
Qed.

Lemma or_else_truthy x d : Num.truthy d = true -> Num.truthy (Num.or_else x d) = true.
Proof. unfold Num.or_else. by destruct (Num.truthy x) eqn:E. Qed.

Lemma truthy_not_nan x : Num.truthy x = true -> x <> S754_nan.
Proof. by destruct x. Qed.

Lemma view_w_truthy v : Num.truthy (view_w v) = true.
Proof. unfold view_w. destruct (width v); [by apply or_else_truthy|done]. Qed.

Lemma view_h_truthy v : Num.truthy (view_h v) = true.
Proof. unfold view_h. destruct (height v); [by apply or_else_truthy|done]. Qed.

(** [Math.max(lo, Math.min(hi, x))] for [lo <= hi] and a number [x]. *)
Lemma max_min_in_range lo hi x :
  Num.leb lo hi = true -> lo <> S754_nan -> hi <> S754_nan -> x <> S754_nan ->
  Num.leb lo (Num.Math_max lo (Num.Math_min hi x)) = true
  /\ Num.leb (Num.Math_max lo (Num.Math_min hi x)) hi = true.
Proof.
  intros Hle Hlo Hhi Hx.
  pose proof (Math_min_not_nan hi x Hhi Hx) as Hm.
  pose proof (Math_max_not_nan lo _ Hlo Hm) as HM.
  destruct (Math_max_spec lo (Num.Math_min hi x)) as [E|[[E|E] [H1 H2]]]; [done| |].
  - split; [done|]. by rewrite E.
  - split; [done|]. rewrite E.
    destruct (Math_min_spec hi x) as [E'|[_ [H3 _]]]; done.
Qed.

Lemma has_sign_true_clamp x :
  has_sign true x ->
  Num.Math_max Lit.n1 (Num.Math_min Lit.n5 x) = Lit.n1.
Proof. by destruct x as [[]|[]| |[] m e]. Qed.

Lemma at_least_4_clamp x :
  at_least 4 x -> Num.Math_max Lit.n1 (Num.Math_min Lit.n5 x) = Lit.n5.
Proof.
  intros [->|(m & e & -> & _ & He)]; [done|].
  unfold Num.Math_min, Lit.n5, SFcompare.
  assert (Hlt : (-50 ?= e) = Lt) by (apply Z.compare_lt_iff; unfold prec in He; lia).
  by rewrite Hlt.
Qed.

Lemma weight_of_round x :
  Num.truthy x = true ->
  weight_1_to_5 (Num.Math_max Lit.n1 (Num.Math_min Lit.n5 (Num.Math_round x))).
Proof.
  destruct x as [s|s| |s m e]; try done; intros _.
  - destruct s; [exists 1|exists 5]; by vm_compute.
  - unfold Num.Math_round. destruct (0 <=? e) eqn:E.
    + destruct s.
      * exists 1. split; [lia|]. by rewrite has_sign_true_clamp.
      * exists 5. split; [lia|]. apply Z.leb_le in E.
        unfold Num.Math_min, Lit.n5, SFcompare.
        assert (Hlt : (-50 ?= e) = Lt) by (apply Z.compare_lt_iff; lia).
        by rewrite Hlt.
    + set (z := (2 * cond_Zopp s (Zpos m) + 2 ^ (- e)) / 2 ^ (- e + 1)).
      destruct (z =? 0) eqn:Ez.
      * exists 1. split; [lia|]. by destruct s.
      * destruct z as [|p|p]; [done| |].
        -- destruct (Z_lt_le_dec (Zpos p) 8) as [Hp|Hp].
           ++ assert (Hc : (p = 1 \/ p = 2 \/ p = 3 \/ p = 4 \/ p = 5 \/ p = 6 \/ p = 7)%positive)
                by lia.
              destruct Hc as [->|[->|[->|[->|[->|[->| ->]]]]]];
                [exists 1|exists 2|exists 3|exists 4|exists 5|exists 5|exists 5];
                (split; [lia|by vm_compute]).
           ++ exists 5. split; [lia|]. apply at_least_4_clamp.
              apply of_Z_at_least; [lia|by vm_compute|].
              pose proof (Z.log2_le_mono 8 (Zpos p)). change (Z.log2 8) with 3 in *. lia.
        -- exists 1. split; [lia|]. apply has_sign_true_clamp, of_Z_neg.
Qed.

Lemma edge_weight_range raw : weight_1_to_5 (Build.edge_weight raw).
Proof.
  unfold Build.edge_weight. apply weight_of_round.
  by apply or_else_truthy.
Qed.

Lemma resize_total (clientWidth clientHeight : number) (v : View) :
  edges_in_range v ->
  exists v' w h,
    resize clientWidth clientHeight v = Some v'
    /\ width v' = Some w /\ height v' = Some h
    /\ Num.leb Lit.n10 w = true /\ Num.leb Lit.n10 h = true
    /\ view_w v' = w /\ view_h v' = h
    /\ nodes v' = nodes v /\ edges v' = edges v.
Proof.
  intros Hr. unfold resize.
  set (w := Num.Math_max Lit.n10 (Num.or_else clientWidth Lit.n10)).
  set (h := Num.Math_max Lit.n10 (Num.or_else clientHeight Lit.n10)).
  destruct (draw_total (set_size w h v)) as [p Hp]; [done|].
  exists (set_size w h v), w, h. rewrite Hp. simpl.
  assert (Hb : forall c, Num.leb Lit.n10 (Num.Math_max Lit.n10 (Num.or_else c Lit.n10)) = true).
  { intros c.
    assert (Hc : Num.or_else c Lit.n10 <> S754_nan) by (by apply truthy_not_nan, or_else_truthy).
    pose proof (Math_max_not_nan Lit.n10 _ ltac:(done) Hc) as HM.
    destruct (Math_max_spec Lit.n10 (Num.or_else c Lit.n10)) as [E|[_ [H1 _]]]; done. }
  assert (Ht : forall x, Num.leb Lit.n10 x = true -> Num.or_else x Lit.n800 = x
                         /\ Num.or_else x Lit.n600 = x).
  { intros x Hx. unfold Num.or_else. by destruct x as [[]|[]| |]. }
  do 3 (split; [done|]). split; [apply Hb|]. split; [apply Hb|].
  unfold view_w, view_h. simpl.
  split; [apply Ht, Hb|]. split; [apply Ht, Hb|]. done.
Qed.

End Signs.

(** ** The hit test, the palette and the focus *)

Section HitFacts.

Lemma findNodeAt_below_spec pos ns k :
  (Pointer.findNodeAt_below k pos ns = -1
   /\ forall i n, (i < k)%nat -> ns !! i = Some n -> Pointer.hit pos n = false)
  \/ exists i n, Pointer.findNodeAt_below k pos ns = Z.of_nat i
       /\ (i < k)%nat /\ ns !! i = Some n /\ Pointer.hit pos n = true
       /\ forall j m, (i < j < k)%nat -> ns !! j = Some m -> Pointer.hit pos m = false.
Proof.
  induction k as [|k IH]; simpl.
  - left. split; [done|]. intros; lia.
  - destruct (ns !! k) as [nk|] eqn:Ek.
    + destruct (Pointer.hit pos nk) eqn:Eh.
      * right. exists k, nk. do 4 (split; [done || lia|]). intros; lia.
      * destruct IH as [[H1 H2]|(i & n & H1 & H2 & H3 & H4 & H5)].
        -- left. split; [done|]. intros i n Hi Hn.
           destruct (decide (i = k)) as [->|]; [congruence|]. apply (H2 i); [lia|done].
        -- right. exists i, n. do 4 (split; [done || lia|]).
           intros j m Hj Hm. destruct (decide (j = k)) as [->|]; [congruence|].
           apply (H5 j); [lia|done].
    + destruct IH as [[H1 H2]|(i & n & H1 & H2 & H3 & H4 & H5)].
      * left. split; [done|]. intros i n Hi Hn.
        destruct (decide (i = k)) as [->|]; [congruence|]. apply (H2 i); [lia|done].
      * right. exists i, n. do 4 (split; [done || lia|]).
        intros j m Hj Hm. destruct (decide (j = k)) as [->|]; [congruence|].
        apply (H5 j); [lia|done].
Qed.

Lemma findNodeAt_cases pos v :
  (Pointer.findNodeAt pos v = -1
   /\ forall i n, nodes v !! i = Some n -> Pointer.hit pos n = false)
  \/ exists i n, Pointer.findNodeAt pos v = Z.of_nat i
       /\ nodes v !! i = Some n /\ Pointer.hit pos n = true
       /\ forall j m, (i < j)%nat -> nodes v !! j = Some m -> Pointer.hit pos m = false.
Proof.
  unfold Pointer.findNodeAt.
  destruct (findNodeAt_below_spec pos (nodes v) (length (nodes v)))
    as [[H1 H2]|(i & n & H1 & H2 & H3 & H4 & H5)].
  - left. split; [done|]. intros i n Hn. apply (H2 i); [|done].
    by apply lookup_lt_Some in Hn.
  - right. exists i, n. do 3 (split; [done|]).
    intros j m Hj Hm. apply (H5 j); [|done]. apply lookup_lt_Some in Hm. lia.
Qed.

End HitFacts.

Section PaletteFacts.

Lemma colorForCluster_in_palette idx : Build.colorForCluster idx ∈ Build.palette.
Proof.
  unfold Build.colorForCluster. apply list_elem_of_In, nth_In.
  pose proof (N.mod_upper_bound idx (N.of_nat (length Build.palette))) as H.
  simpl in *. lia.
Qed.

Lemma build_node_color cbn raw n :
  Build.build_node cbn raw = Some n -> SimNode.color n ∈ Build.palette.
Proof.
  unfold Build.build_node. destruct (negb _); [done|]. intros [= <-]. simpl.
  destruct (cbn !! _); apply colorForCluster_in_palette.
Qed.

End PaletteFacts.

Section FocusFacts.

Lemma adjacent_fold hovered i es : forall acc : gset nat,
  i ∈ foldl (fun acc e =>
               if Z.of_nat (SimEdge.a e) =? hovered then {[SimEdge.b e]} ∪ acc
               else if Z.of_nat (SimEdge.b e) =? hovered then {[SimEdge.a e]} ∪ acc
               else acc) acc es
  <-> i ∈ acc \/ existsb (joins hovered i) es = true.
Proof.
  induction es as [|e es IH]; intros acc; simpl.
  - split; [by left|]. by intros [|].
  - rewrite IH. unfold joins.
    destruct (Z.of_nat (SimEdge.a e) =? hovered) eqn:Ea;
      destruct (Z.of_nat (SimEdge.b e) =? hovered) eqn:Eb; simpl.
    all: rewrite ?elem_of_union, ?elem_of_singleton.
    all: try apply Z.eqb_eq in Ea; try apply Z.eqb_eq in Eb.
    all: fold (joins hovered i); generalize (existsb (joins hovered i) es); intros q.
    all: repeat case_bool_decide; simpl; split; intros; destruct_or?; auto; try lia;
      try congruence.
    all: try (right; done).
Qed.

Lemma adjacent_spec hovered i es :
  0 <= hovered ->
  i ∈ Draw.adjacent hovered es <-> existsb (joins hovered i) es = true.
Proof.
  intros H. unfold Draw.adjacent.
  destruct (0 <=? hovered) eqn:E; [|apply Z.leb_gt in E; lia].
  rewrite adjacent_fold. split; [|by right].
  intros [H0|H0]; [|done]. by apply not_elem_of_empty in H0.
Qed.

End FocusFacts.

(** ** Starting, and what [setGraph] resets *)

Section StartFacts.

Lemma start_running v : start v = set_running true v.
Proof. unfold start. destruct v as [? ? ? ? ? [] ? ? ?]; done. Qed.

Lemma view_w_set_running b v : view_w (set_running b v) = view_w v.
Proof. done. Qed.

Lemma tick_set_running warm b v :
  _tick warm (set_running b v) = set_running b <$> _tick warm v.
Proof.
  unfold _tick. simpl. destruct (nodes v) eqn:E; [done|].
  change (view_w (set_running b v)) with (view_w v).
  change (view_h (set_running b v)) with (view_h v).
  by destruct (Tick.forces _ _ _ _).
Qed.

Lemma ticks_set_running warm b k : forall v,
  ticks warm k (set_running b v) = set_running b <$> ticks warm k v.
Proof.
  induction k as [|k IH]; intros v; simpl; [done|].
  rewrite tick_set_running. destruct (_tick warm v) as [v1|]; simpl; [apply IH|done].
Qed.

Lemma nodes_start v : nodes (start v) = nodes v.
Proof. by rewrite start_running. Qed.

Lemma setGraph_reset
    (Math_cos Math_sin : number -> number) (rnd : nat -> number)
    (v : View) (graph : GraphDocument) :
  exists v', Build.setGraph Math_cos Math_sin rnd v graph = Some v'
    /\ hoverIndex v' = -1 /\ dragIndex v' = -1
    /\ Forall (fun n => SimNode.fixed n = false) (nodes v')
    /\ running v' = true
    /\ width v' = width v /\ height v' = height v /\ tooltip v' = tooltip v.
Proof.
  destruct (setGraph_spec Math_cos Math_sin rnd v graph)
    as (v' & H & _ & _ & Hh & Hd & Hw & Hhh & Hl & Hn).
  exists v'. do 3 (split; [done|]). split.
  { apply Forall_lookup. intros i n Hi.
    assert (Hi0 : is_Some (built_nodes graph !! i)).
    { apply lookup_lt_is_Some. rewrite <- Hl. eauto using lookup_lt_Some. }
    destruct Hi0 as [n0 Hn0]. destruct (Hn i n0 Hn0) as (n2 & Hn2 & _ & Hf). congruence. }
  unfold Build.setGraph in H.
  destruct (seeded_spec Math_cos Math_sin rnd v graph)
    as (v1 & H1 & _ & _ & _ & _ & _ & _ & _ & Ht1 & _).
  rewrite H1 in H. simpl in H.
  destruct (_warmup _ v1) as [v2|] eqn:E2; [|done]. simpl in H. injection H as <-.
  destruct (ticks_frame _ _ _ _ E2) as (_ & _ & _ & _ & _ & _ & _ & Ht2 & _).
  rewrite start_running. simpl. split; [done|].
  rewrite start_running in Hw, Hhh. simpl in Hw, Hhh. do 2 (split; [done|]). congruence.
Qed.

End StartFacts.

(** ** The address of a node's page *)

Section UriFacts.

Example encodeURIComponent_values :
  Str.encodeURIComponent (Str.js "a b/c_1~") = Some (Str.js "a%20b%2Fc_1~")
  /\ Str.encodeURIComponent [233; 8364]%N = Some (Str.js "%C3%A9%E2%82%AC")
  /\ Str.encodeURIComponent [55357; 56832]%N = Some (Str.js "%F0%9F%98%80")
  /\ Str.encodeURIComponent [55296]%N = None
  /\ Str.encodeURIComponent [97; 56832]%N = None
  /\ Str.encodeURIComponent [55296; 97]%N = None.
Proof. by vm_compute. Qed.

Lemma is_unescaped_not_surrogate c :
  Str.is_unescaped c = true -> Str.is_lead c = false /\ Str.is_trail c = false.
Proof.
  unfold Str.is_unescaped, Str.is_lead, Str.is_trail. intros H.
  rewrite !orb_true_iff, !andb_true_iff, !N.leb_le, !N.eqb_eq in H.
  split; apply andb_false_iff; rewrite !N.leb_gt; lia.
Qed.

Lemma encodeURIComponent_cons c s :
  Str.encodeURIComponent (c :: s)
  = if Str.is_unescaped c then r ← Str.encodeURIComponent s; Some (c :: r)
    else if Str.is_lead c then
      match s with
      | d :: s'' =>
          if Str.is_trail d then
            r ← Str.encodeURIComponent s'';
            Some (Str.percent (Str.utf8 (Str.pair_code_point c d)) ++ r)
          else None
      | [] => None
      end
    else if Str.is_trail c then None
    else r ← Str.encodeURIComponent s; Some (Str.percent (Str.utf8 c) ++ r).
Proof. done. Qed.

Lemma isWellFormed_cons c s :
  Str.isWellFormed (c :: s)
  = if Str.is_lead c then
      match s with
      | d :: s'' => Str.is_trail d && Str.isWellFormed s''
      | [] => false
      end
    else negb (Str.is_trail c) && Str.isWellFormed s.
Proof. done. Qed.

Lemma is_Some_bind_Some {A B} (m : option A) (f : A -> B) :
  is_Some (x ← m; Some (f x)) <-> is_Some m.
Proof. destruct m; simpl; split; intros [? ?]; eauto; done. Qed.

Lemma encodeURIComponent_isWellFormed_aux s :
  (is_Some (Str.encodeURIComponent s) <-> Str.isWellFormed s = true)
  /\ forall c, is_Some (Str.encodeURIComponent (c :: s))
               <-> Str.isWellFormed (c :: s) = true.
Proof.
  assert (Hno : forall A, is_Some (@None A) <-> false = true)
    by (intros A; split; [by intros [? ?]|done]).
  induction s as [|d s [IH1 IH2]].
  - split; [done|]. intros c. rewrite encodeURIComponent_cons, isWellFormed_cons.
    destruct (Str.is_unescaped c) eqn:Eu.
    { destruct (is_unescaped_not_surrogate c Eu) as [-> ->]. simpl. split; eauto. }
    destruct (Str.is_lead c); [apply Hno|].
    destruct (Str.is_trail c); [apply Hno|]. simpl. split; eauto.
  - split; [apply IH2|]. intros c. rewrite encodeURIComponent_cons, isWellFormed_cons.
    destruct (Str.is_unescaped c) eqn:Eu.
    { destruct (is_unescaped_not_surrogate c Eu) as [-> ->].
      rewrite is_Some_bind_Some, IH2. done. }
    destruct (Str.is_lead c).
    { destruct (Str.is_trail d); [|apply Hno]. by rewrite is_Some_bind_Some, IH1. }
    destruct (Str.is_trail c); [apply Hno|]. by rewrite is_Some_bind_Some, IH2.
Qed.

(** [encodeURIComponent] returns exactly on the well-formed strings. *)
Lemma encodeURIComponent_isWellFormed s :
  is_Some (Str.encodeURIComponent s) <-> Str.isWellFormed s = true.
Proof. apply encodeURIComponent_isWellFormed_aux. Qed.

Lemma click_cases pos v :
  (Pointer.findNodeAt pos v = -1 /\ Pointer.click pos v = Some v)
  \/ exists i n,
       Pointer.findNodeAt pos v = Z.of_nat i /\ nodes v !! i = Some n
       /\ Pointer.click pos v
          = (if Str.isWellFormed (SimNode.id n) then Some v else None).
Proof.
  unfold Pointer.click.
  destruct (findNodeAt_cases pos v) as [[-> _]|(i & n & -> & Hn & _)]; [by left|].
  right. exists i, n. do 2 (split; [done|]). cbv zeta.
  destruct (Z.of_nat i <? 0) eqn:E; [apply Z.ltb_lt in E; lia|].
  unfold Pointer.node_at. rewrite E, Nat2Z.id, Hn. simpl.
  pose proof (encodeURIComponent_isWellFormed (SimNode.id n)) as Hw.
  destruct (Str.encodeURIComponent (SimNode.id n)) as [u|]; simpl.
  - by rewrite (proj1 Hw) by eauto.
  - destruct (Str.isWellFormed (SimNode.id n)); [|done].
    by destruct (proj2 Hw eq_refl).
Qed.

(** The click on a node whose id is a leading surrogate alone throws;
    the same events without the click are handled. *)
Example click_values :
  (exists v0 v,
     create true (Some (Num.of_Z 800, Num.of_Z 600)) = Some v0
     /\ run cos_at_0 sin_at_0 v0 [SetGraph lone_surrogate_graph no_jitter] = Some v
     /\ SimNode.id <$> nodes v = [[55296%N]]
     /\ Pointer.findNodeAt (Num.of_Z 400, Num.of_Z 300) v = 0
     /\ Pointer.click (Num.of_Z 400, Num.of_Z 300) v = None
     /\ run cos_at_0 sin_at_0 v0 click_lone_surrogate = None)
  /\ Pointer.click (Num.of_Z 400, Num.of_Z 300) chain_view = Some chain_view.
Proof.
  split; [|by vm_compute].
  do 2 eexists. split; [vm_compute; reflexivity|].
  split; [vm_compute; reflexivity|]. repeat split; by vm_compute.
Qed.

End UriFacts.

(** ** Drag gestures *)

Section Gestures.
Variables Math_cos Math_sin : number -> number.

Lemma static_ids (l' l : list SimNode.t) :
  static <$> l' = static <$> l -> SimNode.id <$> l' = SimNode.id <$> l.
Proof.
  intros H. apply list_eq. intros i.
  apply (f_equal (fun l => l !! i)) in H. rewrite !list_lookup_fmap in *.
  destruct (l' !! i), (l !! i); simpl in *; try done.
  injection H as H. unfold static in H. f_equal. congruence.
Qed.

Lemma ids_same v v' :
  SimNode.id <$> nodes v' = SimNode.id <$> nodes v ->
  ids_well_formed v -> ids_well_formed v'.
Proof.
  unfold ids_well_formed. intros H Hv.
  enough (Forall (fun k => Str.isWellFormed k = true) (SimNode.id <$> nodes v')) as HF
    by (by apply Forall_fmap in HF).
  rewrite H. by apply Forall_fmap.
Qed.

(** No handler but [setGraph] changes the id of a node. *)
Lemma handle_ids v ev v' :
  is_SetGraph ev = false -> handle Math_cos Math_sin v ev = Some v' ->
  SimNode.id <$> nodes v' = SimNode.id <$> nodes v.
Proof.
  assert (Hput : forall i (n n' : SimNode.t) (ns : list SimNode.t),
            ns !! i = Some n -> SimNode.id n' = SimNode.id n ->
            SimNode.id <$> <[i := n']> ns = SimNode.id <$> ns).
  { intros i n n' ns Hn Hid. rewrite list_fmap_insert, Hid. apply list_insert_id.
    by rewrite list_lookup_fmap, Hn. }
  intros Hev. destruct ev as [pos| |button pos| |pos| | |cw ch|g r]; simpl; try discriminate.
  - unfold Pointer.mousemove, Pointer.node_at. destruct (0 <=? dragIndex v).
    + destruct (dragIndex v <? 0); [done|].
      destruct (nodes v !! _) as [n|] eqn:En; simpl; [|done].
      intros [= <-]. rewrite nodes_start. simpl. apply (Hput _ n); [done|by destruct n].
    + destruct (_ =? _); simpl; [by intros [= <-]|].
      destruct (draw _); simpl; [|done]. by intros [= <-].
  - unfold Pointer.mouseleave. cbv zeta. destruct (draw _); simpl; [|done]. by intros [= <-].
  - unfold Pointer.mousedown, Pointer.node_at.
    destruct (negb _); [by intros [= <-]|]. cbv zeta.
    destruct (Pointer.findNodeAt pos v <? 0); [by intros [= <-]|].
    destruct (nodes v !! _) as [n|] eqn:En; simpl; [|done].
    intros [= <-]. rewrite nodes_start. simpl. apply (Hput _ n); [done|by destruct n].
  - unfold Pointer.mouseup, Pointer.node_at.
    destruct (dragIndex v <? 0); [by intros [= <-]|].
    destruct (nodes v !! _) as [n|] eqn:En; simpl; [|done].
    intros [= <-]. rewrite nodes_start. simpl. apply (Hput _ n); [done|by destruct n].
  - unfold Pointer.click, Pointer.node_at. cbv zeta.
    destruct (Pointer.findNodeAt pos v <? 0); [by intros [= <-]|].
    destruct (nodes v !! _) as [n|]; simpl; [|done].
    destruct (Str.encodeURIComponent _); simpl; [|done]. by intros [= <-].
  - unfold animation_frame. destruct (running v); [|by intros [= <-]].
    destruct (_tick false v) as [v1|] eqn:E1; simpl; [|done].
    destruct (draw _); simpl; [|done]. intros [= <-].
    apply static_ids, (tick_static _ _ _ E1).
  - unfold stop. destruct (running v); [|by intros [= <-]]. cbv zeta.
    destruct (draw _); simpl; [|done]. by intros [= <-].
  - unfold resize. cbv zeta. destruct (draw _); simpl; [|done]. by intros [= <-].
Qed.

Lemma well_formed_same v v' :
  SimNode.fixed <$> nodes v' = SimNode.fixed <$> nodes v ->
  edges v' = edges v -> dragIndex v' = dragIndex v ->
  well_formed v -> well_formed v'.
Proof.
  intros Hf He Hd (H1 & H2 & H3).
  assert (Hl : length (nodes v') = length (nodes v)).
  { apply (f_equal length) in Hf. by rewrite !length_fmap in Hf. }
  split; [|split].
  - unfold edges_in_range in *. by rewrite He, Hl.
  - unfold drag_in_range in *. by rewrite Hd, Hl.
  - intros i n' Hi Hfix. rewrite Hd.
    assert (Hi' : (SimNode.fixed <$> nodes v') !! i = Some true)
      by (by rewrite list_lookup_fmap, Hi; simpl; rewrite Hfix).
    rewrite Hf, list_lookup_fmap in Hi'.
    destruct (nodes v !! i) as [n|] eqn:En; [|done]. simpl in Hi'.
    apply (H3 i n En). congruence.
Qed.

(** Putting a node with the same flag at the dragged index. *)
Lemma well_formed_put v n n' :
  well_formed v -> 0 <= dragIndex v ->
  nodes v !! Z.to_nat (dragIndex v) = Some n ->
  SimNode.fixed n' = SimNode.fixed n ->
  well_formed (start (Pointer.put_node (dragIndex v) n' v)).
Proof.
  intros Hwf Hd Hn Hfix. apply (well_formed_same v); [| | |done].
  - rewrite nodes_start. simpl. rewrite list_fmap_insert, Hfix.
    apply list_insert_id. by rewrite list_lookup_fmap, Hn.
  - by rewrite start_running.
  - by rewrite start_running.
Qed.

Lemma handle_passive_shape v ev :
  well_formed v -> ids_well_formed v -> is_passive ev = true ->
  exists v', handle Math_cos Math_sin v ev = Some v' /\ well_formed v'.
Proof.
  intros Hwf Hids Hev. pose proof Hwf as (Hr & Hd & Hp).
  destruct ev as [pos| |button pos| |pos| | |cw ch|g r]; simpl; try discriminate.
  - unfold Pointer.mousemove. destruct (0 <=? dragIndex v) eqn:E.
    + apply Z.leb_le in E. unfold Pointer.node_at.
      destruct (dragIndex v <? 0) eqn:E2; [apply Z.ltb_lt in E2; lia|].
      destruct Hd as [Hd|Hd]; [lia|].
      destruct (lookup_lt_is_Some_2 (nodes v) (Z.to_nat (dragIndex v))) as [n Hn]; [lia|].
      rewrite Hn. simpl. eexists. split; [done|].
      apply (well_formed_put v n); done || by destruct n.
    + destruct (Pointer.findNodeAt pos v =? hoverIndex v).
      * simpl. eexists. split; [done|]. by apply (well_formed_same v).
      * cbv zeta.
        destruct (draw_total (set_hover (Pointer.findNodeAt pos v) v)) as [p Hdraw]; [done|].
        rewrite Hdraw. simpl. eexists. split; [done|]. by apply (well_formed_same v).
  - destruct (click_cases pos v) as [[_ ->]|(i & n & _ & Hn & ->)]; [eauto|].
    unfold ids_well_formed in Hids. rewrite Forall_lookup in Hids.
    rewrite (Hids i n Hn). eauto.
  - unfold animation_frame. destruct (running v); [|eauto].
    destruct (tick_total false v Hr) as [v1 H1]. rewrite H1. simpl.
    destruct (tick_frame _ _ _ H1) as (He & _ & _ & Hdr & _).
    destruct (tick_static _ _ _ H1) as [_ Hf].
    assert (Hwf1 : well_formed v1) by (by apply (well_formed_same v)).
    destruct (draw_total v1) as [p Hdraw]; [apply Hwf1|].
    rewrite Hdraw. simpl. eauto.
  - unfold stop. destruct (running v); [|eauto]. cbv zeta.
    destruct (draw_total (set_running false v)) as [p Hdraw]; [done|].
    rewrite Hdraw. simpl. eexists. split; [done|]. by apply (well_formed_same v).
  - unfold resize. cbv zeta.
    match goal with |- context [draw ?u] => destruct (draw_total u) as [p Hdraw]; [done|] end.
    rewrite Hdraw. simpl. eexists. split; [done|]. by apply (well_formed_same v).
Qed.

(** A passive event is handled without an exception on a well-formed view
    with well-formed ids, and leaves such a view. *)
Lemma handle_passive v ev :
  well_formed v -> ids_well_formed v -> is_passive ev = true ->
  exists v', handle Math_cos Math_sin v ev = Some v'
             /\ well_formed v' /\ ids_well_formed v'.
Proof.
  intros Hwf Hids Hev.
  destruct (handle_passive_shape v ev Hwf Hids Hev) as (v' & H & Hwf').
  exists v'. do 2 (split; [done|]). apply (ids_same v); [|done].
  apply (handle_ids v ev); [by destruct ev|done].
Qed.

Lemma run_passive evs : forall v,
  well_formed v -> ids_well_formed v ->
  Forall (fun ev => is_passive ev = true) evs ->
  exists v', run Math_cos Math_sin v evs = Some v' /\ well_formed v'.
Proof.
  induction evs as [|ev evs IH]; intros v Hwf Hids Hevs; simpl; [eauto|].
  apply Forall_cons in Hevs as [Hev Hevs].
  destruct (handle_passive v ev Hwf Hids Hev) as (v1 & -> & Hwf1 & Hids1). simpl. eauto.
Qed.

Lemma run_app evs1 evs2 : forall v,
  run Math_cos Math_sin v (evs1 ++ evs2)
  = run Math_cos Math_sin v evs1 ≫= fun v' => run Math_cos Math_sin v' evs2.
Proof.
  induction evs1 as [|ev evs1 IH]; intros v; simpl; [done|].
  destruct (handle Math_cos Math_sin v ev); simpl; [apply IH|done].
Qed.

Lemma no_pinned_well_formed v :
  edges_in_range v -> no_pinned v -> dragIndex v = -1 -> well_formed v.
Proof.
  intros Hr Hn Hd. split; [done|]. split; [by left|].
  intros i n Hi Hfix. unfold no_pinned in Hn.
  rewrite Forall_lookup in Hn. specialize (Hn i n Hi). congruence.
Qed.

Lemma mousedown_well_formed button pos v :
  well_formed v -> dragIndex v = -1 ->
  exists v', Pointer.mousedown button pos v = Some v' /\ well_formed v'.
Proof.
  intros Hwf Hd. pose proof Hwf as (Hr & _ & Hp). unfold Pointer.mousedown.
  destruct (negb (button =? 0)); [eauto|].
  destruct (findNodeAt_cases pos v) as [[-> _]|(i & n & -> & Hn & _)]; [simpl; eauto|].
  destruct (Z.of_nat i <? 0) eqn:E; [apply Z.ltb_lt in E; lia|].
  unfold Pointer.node_at. rewrite E, Nat2Z.id. simpl. rewrite Hn. simpl.
  eexists. split; [done|].
  assert (Hi : (i < length (nodes v))%nat) by eauto using lookup_lt_Some.
  split; [|split].
  - unfold edges_in_range. rewrite nodes_start, start_running. simpl.
    by rewrite Nat2Z.id, length_insert.
  - right. rewrite nodes_start, start_running. simpl.
    rewrite Nat2Z.id, length_insert. lia.
  - intros j m. rewrite nodes_start, start_running. simpl. rewrite Nat2Z.id.
    destruct (decide (j = i)) as [->|Hne]; [done|].
    rewrite list_lookup_insert_ne by done. intros Hm Hfix.
    pose proof (Hp j m Hm Hfix). lia.
Qed.

Lemma mouseup_releases v :
  well_formed v ->
  exists v', Pointer.mouseup v = Some v' /\ no_pinned v' /\ dragIndex v' = -1.
Proof.
  intros (Hr & Hd & Hp). unfold Pointer.mouseup.
  destruct (dragIndex v <? 0) eqn:E.
  - apply Z.ltb_lt in E. destruct Hd as [Hd|Hd]; [|lia].
    exists v. split; [done|]. split; [|done].
    apply Forall_lookup. intros i n Hi.
    destruct (SimNode.fixed n) eqn:Ef; [|done]. pose proof (Hp i n Hi Ef). lia.
  - apply Z.ltb_ge in E. destruct Hd as [Hd|Hd]; [lia|].
    unfold Pointer.node_at.
    destruct (dragIndex v <? 0) eqn:E2; [apply Z.ltb_lt in E2; lia|].
    destruct (lookup_lt_is_Some_2 (nodes v) (Z.to_nat (dragIndex v))) as [n Hn]; [lia|].
    rewrite Hn. simpl. eexists. split; [done|].
    split; [|by rewrite start_running].
    unfold no_pinned. rewrite nodes_start. simpl.
    apply Forall_lookup. intros i m.
    destruct (decide (i = Z.to_nat (dragIndex v))) as [->|Hne].
    + rewrite list_lookup_insert_eq by (eauto using lookup_lt_Some).
      intros [= <-]. by destruct n.
    + rewrite list_lookup_insert_ne by done. intros Hm.
      destruct (SimNode.fixed m) eqn:Ef; [|done]. pose proof (Hp i m Hm Ef). lia.
Qed.

(** Frames on a running view keep a pinned node where it is. *)
Lemma frames_keep_pinned k : forall v i n,
  edges_in_range v -> running v = true ->
  nodes v !! i = Some n -> SimNode.fixed n = true ->
  exists v' n',
    run Math_cos Math_sin v (replicate k AnimationFrame) = Some v'
    /\ nodes v' !! i = Some n'
    /\ SimNode.x n' = SimNode.x n /\ SimNode.y n' = SimNode.y n
    /\ SimNode.fixed n' = true
    /\ ((0 < k)%nat -> SimNode.vx n' = Lit.n0 /\ SimNode.vy n' = Lit.n0).
Proof.
  induction k as [|k IH]; intros v i n Hr Hrun Hi Hfix; simpl.
  - exists v, n. do 4 (split; [done|]). split; [done|]. lia.
  - unfold animation_frame. rewrite Hrun.
    destruct (tick_total false v Hr) as [v1 H1]. rewrite H1. simpl.
    pose proof (tick_edges_in_range _ _ _ H1 Hr) as Hr1.
    destruct (draw_total v1 Hr1) as [p Hdraw]. rewrite Hdraw. simpl.
    destruct (tick_frame _ _ _ H1) as (_ & _ & _ & _ & Hrun1 & _).
    destruct (tick_lookup _ _ _ _ _ H1 Hi) as (fs & nf & _ & _ & Hf & Hn1).
    rewrite integrate_fixed in Hn1 by (by rewrite (force_only_fixed _ _ Hf)).
    destruct (force_only_pos _ _ Hf) as [Hx Hy].
    pose proof (force_only_fixed _ _ Hf) as Hfx.
    destruct (IH v1 i _ Hr1 ltac:(congruence) Hn1) as (v' & n' & Hrun' & Hn' & Hx' & Hy' & Hf' & Hv').
    { destruct nf; simpl in *; congruence. }
    exists v', n'. split; [done|]. split; [done|].
    split; [rewrite Hx'; by destruct nf|]. split; [rewrite Hy'; by destruct nf|].
    split; [done|]. intros _. destruct k as [|k].
    + simpl in Hrun'. injection Hrun' as <-. rewrite Hn1 in Hn'. injection Hn' as <-.
      by destruct nf.
    + apply Hv'. lia.
Qed.

End Gestures.

(** ** The ten most connected nodes *)

Section SortFacts.

Lemma insert_by_degree_perm p l : Draw.insert_by_degree p l ≡ₚ p :: l.
Proof.
  induction l as [|q l IH]; simpl; [done|].
  destruct (p.2 <? q.2)%nat; [|done]. rewrite IH. apply Permutation_swap.
Qed.

Lemma sort_by_degree_perm l : Draw.sort_by_degree l ≡ₚ l.
Proof.
  induction l as [|p l IH]; simpl; [done|].
  rewrite insert_by_degree_perm. by rewrite IH.
Qed.

Lemma insert_by_degree_sorted p l :
  StronglySorted ranks_before l -> Forall (fun q => (p.1 < q.1)%nat) l ->
  StronglySorted ranks_before (Draw.insert_by_degree p l).
Proof.
  induction l as [|q l IH]; simpl; intros Hs Hp.
  - by repeat constructor.
  - apply StronglySorted_inv in Hs as [Hs Hq].
    apply Forall_cons in Hp as [Hpq Hp].
    destruct (p.2 <? q.2)%nat eqn:E.
    + apply Nat.ltb_lt in E. constructor; [by apply IH|].
      rewrite insert_by_degree_perm. constructor; [by left|done].
    + apply Nat.ltb_ge in E. constructor; [by constructor|].
      constructor.
      * unfold ranks_before. lia.
      * rewrite Forall_forall in Hq, Hp |- *. intros r Hr.
        specialize (Hq r Hr). specialize (Hp r Hr). unfold ranks_before in *. lia.
Qed.

Lemma sort_by_degree_sorted l :
  StronglySorted (fun p q => (p.1 < q.1)%nat) l ->
  StronglySorted ranks_before (Draw.sort_by_degree l).
Proof.
  induction 1 as [|p l Hs IH Hp]; simpl; [constructor|].
  apply insert_by_degree_sorted; [done|]. by rewrite sort_by_degree_perm.
Qed.

Lemma degree_entries_from k (ns : list SimNode.t) :
  StronglySorted (fun p q => (p.1 < q.1)%nat)
    (imap (fun idx n => (k + idx, SimNode.degree n)%nat) ns)
  /\ Forall (fun q => (k <= q.1)%nat) (imap (fun idx n => (k + idx, SimNode.degree n)%nat) ns).
Proof.
  revert k. induction ns as [|n ns IH]; intros k; simpl; [by split; constructor|].
  assert (He : imap ((fun idx n0 => ((k + idx)%nat, SimNode.degree n0)) ∘ S) ns
               = imap (fun idx n0 => ((S k + idx)%nat, SimNode.degree n0)) ns).
  { apply imap_ext. intros i x _. simpl. f_equal. lia. }
  rewrite He. destruct (IH (S k)) as [H1 H2]. split.
  - constructor; [done|]. eapply Forall_impl; [exact H2|]. simpl. intros; lia.
  - constructor; [simpl; lia|]. eapply Forall_impl; [exact H2|]. simpl. intros; lia.
Qed.

Lemma degree_entries_sorted ns :
  StronglySorted (fun p q => (p.1 < q.1)%nat) (degree_entries ns).
Proof. apply (degree_entries_from 0 ns). Qed.

Lemma degree_entries_lookup ns i :
  degree_entries ns !! i = (fun n => (i, SimNode.degree n)) <$> ns !! i.
Proof. unfold degree_entries. apply list_lookup_imap. Qed.

Lemma elem_of_degree_entries ns i d :
  (i, d) ∈ degree_entries ns <-> exists n, ns !! i = Some n /\ SimNode.degree n = d.
Proof.
  rewrite list_elem_of_lookup. split.
  - intros [j Hj]. rewrite degree_entries_lookup in Hj.
    destruct (ns !! j) as [n|] eqn:En; [|done]. injection Hj as -> <-. eauto.
  - intros (n & Hn & <-). exists i. by rewrite degree_entries_lookup, Hn.
Qed.

Lemma degree_entries_fst ns : (degree_entries ns).*1 = seq 0 (length ns).
Proof.
  apply list_eq. intros i. rewrite list_lookup_fmap, degree_entries_lookup.
  destruct (ns !! i) as [n|] eqn:En; simpl.
  - symmetry. apply lookup_seq. split; [done|]. eauto using lookup_lt_Some.
  - symmetry. apply lookup_seq_ge. by apply lookup_ge_None.
Qed.

Lemma sorted_app_before (l1 l2 : list (nat * nat)) p q :
  StronglySorted ranks_before (l1 ++ l2) -> p ∈ l1 -> q ∈ l2 -> ranks_before p q.
Proof.
  induction l1 as [|r l1 IH]; simpl; intros Hs Hp Hq; [by apply elem_of_nil in Hp|].
  apply StronglySorted_inv in Hs as [Hs Hr].
  apply elem_of_cons in Hp as [->|Hp]; [|by apply IH].
  rewrite Forall_forall in Hr. apply Hr. apply elem_of_app. by right.
Qed.

Lemma important_spec ns i :
  i ∈ Draw.important ns
  <-> exists d, (i, d) ∈ take 10 (Draw.sort_by_degree (degree_entries ns)).
Proof.
  unfold Draw.important. fold (degree_entries ns).
  rewrite elem_of_list_to_set, list_elem_of_fmap. split.
  - intros ([j d] & -> & H). by exists d.
  - intros [d H]. by exists (i, d).
Qed.

End SortFacts.

(** ** The relationship page *)

Section PageFacts.

Lemma length_omap_le {A B} (f : A -> option B) (l : list A) :
  (length (omap f l) <= length l)%nat.
Proof.
  induction l as [|x l IH]; [done|]. cbn [omap list_omap].
  destruct (f x); cbn [length]; fold (omap f l); lia.
Qed.

End PageFacts.

(** ** Escaping *)

Section HtmlFacts.

Lemma replaceAll_app pat rep s t :
  Html.replaceAll pat rep (s ++ t) = Html.replaceAll pat rep s ++ Html.replaceAll pat rep t.
Proof.
  induction s as [|c s IH]; simpl; [done|].
  destruct (c =? pat)%N; rewrite IH; [by rewrite <- app_assoc|done].
Qed.

Lemma replaceAll_bind pat rep s :
  Html.replaceAll pat rep s = s ≫= (fun c => if (c =? pat)%N then rep else [c]).
Proof.
  induction s as [|c s IH]; simpl; [done|].
  rewrite IH. by destruct (c =? pat)%N.
Qed.

Lemma escapeHtml_cons c s :
  Html.escapeHtml (c :: s) = escape_unit c ++ Html.escapeHtml s.
Proof.
  unfold Html.escapeHtml, escape_unit.
  change (c :: s) with ([c] ++ s). rewrite !replaceAll_app. f_equal.
  destruct (N.eqb_spec c Html.amp) as [->|N1]; [by vm_compute|].
  destruct (N.eqb_spec c Html.lt) as [->|N2]; [by vm_compute|].
  destruct (N.eqb_spec c Html.gt) as [->|N3]; [by vm_compute|].
  destruct (N.eqb_spec c Html.quot) as [->|N4]; [by vm_compute|].
  destruct (N.eqb_spec c Html.apos) as [->|N5]; [by vm_compute|].
  apply N.eqb_neq in N1, N2, N3, N4, N5.
  simpl. rewrite N1. simpl. rewrite N2. simpl. rewrite N3. simpl. rewrite N4.
  simpl. by rewrite N5.
Qed.

Lemma escapeHtml_bind s : Html.escapeHtml s = s ≫= escape_unit.
Proof.
  induction s as [|c s IH]; [done|].
  rewrite escapeHtml_cons, IH. done.
Qed.

Lemma escapeHtml_app s t :
  Html.escapeHtml (s ++ t) = Html.escapeHtml s ++ Html.escapeHtml t.
Proof. rewrite !escapeHtml_bind. apply bind_app. Qed.

Lemma escape_unit_clean c : is_markup c = false -> escape_unit c = [c].
Proof.
  unfold is_markup, escape_unit. intros H.
  repeat (apply orb_false_elim in H as [H ?]).
  by repeat match goal with E : (_ =? _)%N = false |- _ => rewrite E; clear E end.
Qed.

Lemma escape_unit_markup c :
  is_markup c = true -> exists r, escape_unit c = Html.amp :: r /\ (3 <= length r)%nat.
Proof.
  unfold is_markup, escape_unit. intros H.
  destruct (c =? Html.amp)%N; [eexists; split; [reflexivity|simpl; lia]|].
  destruct (c =? Html.lt)%N; [eexists; split; [reflexivity|simpl; lia]|].
  destruct (c =? Html.gt)%N; [eexists; split; [reflexivity|simpl; lia]|].
  destruct (c =? Html.quot)%N; [eexists; split; [reflexivity|simpl; lia]|].
  destruct (c =? Html.apos)%N; [eexists; split; [reflexivity|simpl; lia]|].
  done.
Qed.

Lemma escape_unit_inert c :
  Forall (fun d => d <> Html.lt /\ d <> Html.gt /\ d <> Html.quot /\ d <> Html.apos)
         (escape_unit c).
Proof.
  unfold escape_unit.
  destruct (N.eqb_spec c Html.amp); [repeat constructor; by vm_compute|].
  destruct (N.eqb_spec c Html.lt); [repeat constructor; by vm_compute|].
  destruct (N.eqb_spec c Html.gt); [repeat constructor; by vm_compute|].
  destruct (N.eqb_spec c Html.quot); [repeat constructor; by vm_compute|].
  destruct (N.eqb_spec c Html.apos); [repeat constructor; by vm_compute|].
  by repeat constructor.
Qed.

Lemma escapeHtml_inert_units s :
  Forall (fun d => d <> Html.lt /\ d <> Html.gt /\ d <> Html.quot /\ d <> Html.apos)
         (Html.escapeHtml s).
Proof.
  induction s as [|c s IH]; [constructor|].
  rewrite escapeHtml_cons. apply Forall_app. split; [apply escape_unit_inert|done].
Qed.

Lemma strip_prefix_app p r : strip_prefix p (p ++ r) = Some r.
Proof. induction p as [|c p IH]; simpl; [done|]. by rewrite N.eqb_refl. Qed.

Lemma unescape_escape_unit c r : unescape_unit (escape_unit c ++ r) = Some (c, r).
Proof.
  unfold escape_unit.
  destruct (N.eqb_spec c Html.amp) as [->|N1]; [done|].
  destruct (N.eqb_spec c Html.lt) as [->|N2]; [done|].
  destruct (N.eqb_spec c Html.gt) as [->|N3]; [done|].
  destruct (N.eqb_spec c Html.quot) as [->|N4]; [done|].
  destruct (N.eqb_spec c Html.apos) as [->|N5]; [done|].
  apply N.eqb_neq in N1. simpl. by rewrite N1.
Qed.

Lemma escapeHtml_inj s : forall t, Html.escapeHtml s = Html.escapeHtml t -> s = t.
Proof.
  induction s as [|c s IH]; intros [|d t] H.
  - done.
  - apply (f_equal unescape_unit) in H.
    rewrite escapeHtml_cons, unescape_escape_unit in H. done.
  - apply (f_equal unescape_unit) in H.
    rewrite escapeHtml_cons, unescape_escape_unit in H. done.
  - apply (f_equal unescape_unit) in H.
    rewrite !escapeHtml_cons, !unescape_escape_unit in H.
    injection H as -> H. f_equal. by apply IH.
Qed.

Lemma escapeHtml_length s : (length s <= length (Html.escapeHtml s))%nat.
Proof.
  induction s as [|c s IH]; [done|].
  rewrite escapeHtml_cons, length_app. simpl.
  destruct (is_markup c) eqn:E.
  - destruct (escape_unit_markup c E) as (r & -> & Hr). simpl. lia.
  - rewrite (escape_unit_clean c E). simpl. lia.
Qed.

Lemma escapeHtml_clean s :
  Forall (fun c => is_markup c = false) s -> Html.escapeHtml s = s.
Proof.
  induction 1 as [|c s Hc Hs IH]; [done|].
  by rewrite escapeHtml_cons, (escape_unit_clean c Hc), IH.
Qed.

Lemma escapeHtml_fixed_clean s :
  Html.escapeHtml s = s -> Forall (fun c => is_markup c = false) s.
Proof.
  induction s as [|c s IH]; [constructor|].
  rewrite escapeHtml_cons. intros H.
  destruct (is_markup c) eqn:E.
  - destruct (escape_unit_markup c E) as (r & Hr & Hl). rewrite Hr in H.
    apply (f_equal length) in H. simpl in H. rewrite length_app in H.
    pose proof (escapeHtml_length s). lia.
  - rewrite (escape_unit_clean c E) in H. injection H as H. constructor; auto.
Qed.

Lemma escapeHtml_clean_inv s :
  Forall (fun c => is_markup c = false) (Html.escapeHtml s) ->
  Forall (fun c => is_markup c = false) s.
Proof.
  induction s as [|c s IH]; [constructor|].
  rewrite escapeHtml_cons. intros [H1 H2]%Forall_app.
  constructor; [|auto].
  destruct (is_markup c) eqn:E; [|done].
  destruct (escape_unit_markup c E) as (r & Hr & _). rewrite Hr in H1.
  by inversion H1.
Qed.

Lemma occurrences_app c s t :
  occurrences c (s ++ t) = (occurrences c s + occurrences c t)%nat.
Proof. unfold occurrences. by rewrite filter_app, length_app. Qed.

Lemma occurrences_escapeHtml c s :
  c = Html.lt \/ c = Html.gt \/ c = Html.quot \/ c = Html.apos ->
  occurrences c (Html.escapeHtml s) = 0%nat.
Proof.
  intros Hc. unfold occurrences. pose proof (escapeHtml_inert_units s) as H.
  induction H as [|d l Hd Hl IH]; [done|].
  rewrite filter_cons. destruct (decide (d = c)) as [->|]; [|done].
  destruct Hd as (? & ? & ? & ?). by destruct Hc as [?|[?|[?|?]]].
Qed.

Lemma occurrences_escapeHtml_lt s : occurrences Html.lt (Html.escapeHtml s) = 0%nat.
Proof. apply occurrences_escapeHtml. by left. Qed.

Example escapeHtml_values :
  Html.escapeHtml (Str.js "<a href='x'>R&D</a>")
  = Str.js "&lt;a href=&#39;x&#39;&gt;R&amp;D&lt;/a&gt;"
  /\ Html.escapeHtml (Str.js "&lt;") = Str.js "&amp;lt;"
  /\ Html.renderList (Some [Str.js "a<b"; Str.js "c"])
     = Str.js "<ul><li>a&lt;b</li><li>c</li></ul>".
Proof. by vm_compute. Qed.

End HtmlFacts.

(** ** The chat *)

Section ChatFacts.

Example chat_values :
  Chat.run [Chat.Send (Str.js " hi "); Chat.Delta (Str.js "he"); Chat.Send (Str.js "again");
            Chat.Clear; Chat.Delta (Str.js "llo"); Chat.Finished]
  = {| Chat.chat := [{| Chat.role := Chat.user; Chat.content := Str.js "hi" |};
                     {| Chat.role := Chat.assistant; Chat.content := Str.js "hello" |}];
       Chat.busy := false |}
  /\ (Chat.send (Str.js "   ") Chat.init).2 = None.
Proof. by vm_compute. Qed.

Lemma exchanges_snoc k :
  exchanges k ++ [Chat.user; Chat.assistant] = exchanges (S k).
Proof. induction k as [|k IH]; simpl; [done|]. by rewrite IH. Qed.

Lemma exchanges_length k : length (exchanges k) = (2 * k)%nat.
Proof. induction k as [|k IH]; simpl; lia. Qed.

Lemma exchanges_drop j k : drop (2 * j) (exchanges k) = exchanges (k - j).
Proof.
  revert k. induction j as [|j IH]; intros k; simpl.
  - by rewrite Nat.sub_0_r.
  - destruct k as [|k]; [done|]. simpl.
    replace (j + S (j + 0))%nat with (S (2 * j)) by lia. simpl. apply IH.
Qed.

Lemma update_reply_roles f c :
  Chat.role <$> Chat.update_reply f c = Chat.role <$> c.
Proof.
  unfold Chat.update_reply. destruct (last c) as [m|] eqn:E; [|done].
  rewrite list_fmap_insert. simpl. apply list_insert_id.
  rewrite list_lookup_fmap, <- last_lookup, E. done.
Qed.

Lemma filter_roles c k :
  Chat.role <$> c = exchanges k ->
  filter (fun m => Chat.role m = Chat.user \/ Chat.role m = Chat.assistant) c = c.
Proof.
  revert c. induction k as [|k IH]; intros c Hk.
  - by destruct c.
  - destruct c as [|m1 [|m2 c]]; try done. simpl in Hk. injection Hk as H1 H2 H3.
    rewrite !filter_cons_True by auto. by rewrite (IH c H3).
Qed.

Lemma last_exchanges c k :
  Chat.role <$> c = exchanges k -> (0 < k)%nat ->
  exists m, last c = Some m /\ Chat.role m = Chat.assistant.
Proof.
  revert c. induction k as [|k IH]; intros c Hc Hk; [lia|].
  destruct c as [|m1 [|m2 c]]; try done. simpl in Hc. injection Hc as H1 H2 H3.
  destruct k as [|k].
  - destruct c; [|done]. by exists m2.
  - destruct (IH c H3) as (m & Hm & Hr); [lia|]. exists m. split; [|done].
    destruct c as [|m3 c]; [done|]. done.
Qed.

Lemma step_alternating st ev : alternating st -> alternating (Chat.step st ev).
Proof.
  intros (k & Hk & Hb).
  destruct ev as [text|delta|message| |]; simpl.
  - unfold Chat.send. destruct (negb _); [exists k; eauto|].
    destruct (Chat.busy st) eqn:E; [exists k; eauto|].
    exists (S k). split; [|lia]. cbn [fst Chat.chat].
    rewrite fmap_app, Hk. apply exchanges_snoc.
  - destruct (Chat.busy st) eqn:E; [|exists k; eauto].
    exists k. simpl. rewrite update_reply_roles. eauto.
  - destruct (Chat.busy st) eqn:E; [|exists k; eauto].
    exists k. simpl. rewrite update_reply_roles. split; [done|]. done.
  - destruct (Chat.busy st) eqn:E; [|exists k; eauto]. exists k. simpl. split; [done|]. done.
  - destruct (Chat.busy st) eqn:E; [exists k; eauto|]. exists 0%nat. simpl. split; [done|]. done.
Qed.

Lemma run_alternating evs : alternating (Chat.run evs).
Proof.
  unfold Chat.run. induction evs as [|ev evs IH] using rev_ind.
  - by exists 0%nat.
  - rewrite foldl_app. simpl. by apply step_alternating.
Qed.

Lemma last_drop_lt {A} (l : list A) n : (n < length l)%nat -> last (drop n l) = last l.
Proof.
  intros H. rewrite !last_lookup, lookup_drop, length_drop. f_equal. lia.
Qed.

Lemma history_last_12 c k :
  Chat.role <$> c = exchanges k ->
  Chat.history c = drop (length c - 12) c.
Proof.
  intros Hk. unfold Chat.history. rewrite (filter_roles c k Hk).
  rewrite <- (list_fmap_id (drop _ c)) at 2. apply list_fmap_ext.
  by intros i [r t] _.
Qed.

End ChatFacts.

(** ** The streamed answer *)

Section StreamFacts.

Example split_values :
  Stream.split_lines (Str.js "a" ++ [Stream.lf] ++ Str.js "b" ++ [Stream.lf])
  = [Str.js "a"; Str.js "b"; []]
  /\ Stream.split_lines [] = [[]]
  /\ Stream.split_events (Str.js "a" ++ [Stream.lf; Stream.lf; Stream.lf] ++ Str.js "b")
     = ([Str.js "a"], [Stream.lf] ++ Str.js "b").
Proof. by vm_compute. Qed.

(** A stream cut inside the empty line that ends the first event, with
    carriage returns, the end mark and an event after it. *)
Example stream_values :
  Stream.stream Some
    [Str.js "data: a" ++ [Stream.cr; Stream.lf; Stream.cr];
     [Stream.lf] ++ Str.js "id: 1" ++ [Stream.lf] ++ Str.js "data:b" ++ [Stream.lf; Stream.lf]
     ++ Str.js "data: [DONE]" ++ [Stream.lf; Stream.lf]
     ++ Str.js "data: c" ++ [Stream.lf; Stream.lf]]
  = [Str.js "a"; Str.js "b"]
  /\ Stream.stream Some [Str.js "data: a" ++ [Stream.lf]] = [].
Proof. by vm_compute. Qed.

Lemma split_events_unfold c d s :
  Stream.split_events (c :: d :: s) =
  if (c =? Stream.lf)%N && (d =? Stream.lf)%N then
    ([] :: (Stream.split_events s).1, (Stream.split_events s).2)
  else Stream.cons_first c (Stream.split_events (d :: s)).
Proof. done. Qed.

Lemma indexOf_unfold c d s :
  indexOf_lflf (c :: d :: s) =
  if (c =? Stream.lf)%N && (d =? Stream.lf)%N then Some 0%nat
  else S <$> indexOf_lflf (d :: s).
Proof. done. Qed.

Lemma split_events_cons c s :
  ~ (c = Stream.lf /\ head s = Some Stream.lf) ->
  Stream.split_events (c :: s) = Stream.cons_first c (Stream.split_events s).
Proof.
  intros H. destruct s as [|d s]; [done|]. rewrite split_events_unfold.
  destruct (N.eqb_spec c Stream.lf) as [->|Hc]; [|done].
  destruct (N.eqb_spec d Stream.lf) as [->|Hd]; [|done].
  destruct H. done.
Qed.

(** The scan is the loop: with no ["\n\n"] the buffer is left as it is,
    otherwise the text before the first one is an event and the scan goes
    on after it. *)
Lemma split_events_indexOf s :
  Stream.split_events s =
  match indexOf_lflf s with
  | None => ([], s)
  | Some idx =>
      let r := Stream.split_events (drop (idx + 2) s) in (take idx s :: r.1, r.2)
  end.
Proof.
  induction s as [|c s IH]; [done|].
  destruct s as [|d s]; [done|].
  rewrite split_events_unfold, indexOf_unfold.
  destruct ((c =? Stream.lf)%N && (d =? Stream.lf)%N); [done|].
  rewrite IH. by destruct (indexOf_lflf (d :: s)) as [idx|].
Qed.

Lemma split_events_none s :
  (Stream.split_events s).1 = [] -> (Stream.split_events s).2 = s.
Proof.
  rewrite split_events_indexOf. by destruct (indexOf_lflf s).
Qed.

Lemma split_events_app_aux n : forall a b,
  (length a <= n)%nat ->
  Stream.split_events (a ++ b) =
  let r1 := Stream.split_events a in
  let r2 := Stream.split_events (r1.2 ++ b) in
  (r1.1 ++ r2.1, r2.2).
Proof.
  induction n as [|n IH]; intros a b Hn.
  - destruct a; [|simpl in Hn; lia]. cbv zeta.
    change (Stream.split_events []) with (@nil JsString, @nil N). cbn [fst snd app].
    by destruct (Stream.split_events b).
  - destruct a as [|c [|d a]].
    + cbv zeta. change (Stream.split_events []) with (@nil JsString, @nil N).
      cbn [fst snd app]. by destruct (Stream.split_events b).
    + cbv zeta. change (Stream.split_events [c]) with (@nil JsString, [c]).
      cbn [fst snd app]. by destruct (Stream.split_events (c :: b)).
    + change ((c :: d :: a) ++ b) with (c :: d :: (a ++ b)).
      rewrite !split_events_unfold.
      destruct ((c =? Stream.lf)%N && (d =? Stream.lf)%N) eqn:E.
      * rewrite (IH a b) by (cbn [length] in *; lia). done.
      * change (d :: a ++ b) with ((d :: a) ++ b).
        rewrite (IH (d :: a) b) by (cbn [length] in *; lia). cbv zeta.
        destruct (Stream.split_events (d :: a)) as [[|e evs] r] eqn:E1.
        -- pose proof (split_events_none (d :: a)) as Hr. rewrite E1 in Hr.
           cbn [fst snd] in Hr. rewrite (Hr eq_refl).
           unfold Stream.cons_first at 2 3 4. cbn [fst snd app].
           rewrite (split_events_unfold c d (a ++ b)), E.
           destruct (Stream.split_events (d :: a ++ b)) as [evs' r'].
           cbn [fst snd]. by destruct (Stream.cons_first c (evs', r')).
        -- unfold Stream.cons_first. cbn [fst snd app]. done.
Qed.

Lemma split_events_app a b :
  Stream.split_events (a ++ b) =
  let r1 := Stream.split_events a in
  let r2 := Stream.split_events (r1.2 ++ b) in
  (r1.1 ++ r2.1, r2.2).
Proof. by apply (split_events_app_aux (length a)). Qed.

Lemma split_events_rest_aux (P : N -> Prop) n : forall s,
  (length s <= n)%nat -> Forall P s -> Forall P (Stream.split_events s).2.
Proof.
  induction n as [|n IH]; intros s Hn Hs.
  - destruct s; [constructor|simpl in Hn; lia].
  - destruct s as [|c [|d s]]; [constructor|done|].
    rewrite split_events_unfold.
    apply Forall_cons in Hs as [Hc Hs].
    destruct ((c =? Stream.lf)%N && (d =? Stream.lf)%N).
    + simpl. apply IH; [simpl in Hn |- *; lia|]. by apply Forall_cons in Hs as [_ Hs].
    + pose proof (IH (d :: s) ltac:(simpl in Hn |- *; lia) Hs) as H.
      unfold Stream.cons_first.
      destruct (Stream.split_events (d :: s)) as [[|e evs] r]; simpl in *; [|done].
      by constructor.
Qed.

Lemma strip_cr_rest s :
  Stream.strip_cr (Stream.split_events (Stream.strip_cr s)).2
  = (Stream.split_events (Stream.strip_cr s)).2.
Proof.
  assert (H : Forall (fun c => c <> Stream.cr) (Stream.split_events (Stream.strip_cr s)).2).
  { apply (split_events_rest_aux _ (length (Stream.strip_cr s))); [done|].
    unfold Stream.strip_cr. apply Forall_forall. by intros c [? _]%list_elem_of_filter. }
  unfold Stream.strip_cr at 1. induction H as [|c l Hc Hl IH]; [done|].
  rewrite filter_cons_True by done. by f_equal.
Qed.

Lemma on_events_app payload e1 e2 :
  Stream.on_events payload (e1 ++ e2) =
  let r1 := Stream.on_events payload e1 in
  if r1.2 then r1
  else let r2 := Stream.on_events payload e2 in (r1.1 ++ r2.1, r2.2).
Proof.
  induction e1 as [|e e1 IH]; simpl.
  - by destruct (Stream.on_events payload e2).
  - destruct (Stream.on_lines payload (Stream.split_lines e)) as [ds [|]]; simpl; [done|].
    rewrite IH. cbv zeta.
    destruct (Stream.on_events payload e1) as [ds1 [|]]; simpl; [done|].
    by rewrite app_assoc.
Qed.

(** The state after the chunks, from their concatenation. *)
Lemma foldl_read payload chunks :
  let st := foldl (Stream.read payload) Stream.init chunks in
  let evs := Stream.split_events (Stream.strip_cr (concat chunks)) in
  let r := Stream.on_events payload evs.1 in
  Stream.deltas st = r.1 /\ Stream.returned st = r.2
  /\ (Stream.returned st = false -> Stream.buf st = evs.2).
Proof.
  induction chunks as [|chunk chunks IH] using rev_ind; [done|].
  cbv zeta in *. rewrite foldl_app, concat_app. cbn [foldl concat]. rewrite app_nil_r.
  destruct IH as (Hd & Hr & Hb).
  set (st := foldl (Stream.read payload) Stream.init chunks) in *.
  set (T := Stream.strip_cr (concat chunks)) in *.
  assert (HT : Stream.strip_cr (concat chunks ++ chunk) = T ++ Stream.strip_cr chunk)
    by (unfold T, Stream.strip_cr; apply filter_app).
  rewrite HT, split_events_app. cbv zeta. cbn [fst snd]. rewrite on_events_app. cbv zeta.
  set (r1 := Stream.on_events payload (Stream.split_events T).1) in *.
  unfold Stream.read. destruct (Stream.returned st) eqn:E.
  - rewrite E, Hd. rewrite <- Hr. done.
  - rewrite <- Hr. cbn [Stream.deltas Stream.returned Stream.buf fst snd].
    rewrite (Hb eq_refl).
    assert (HB : Stream.strip_cr ((Stream.split_events T).2 ++ chunk)
                 = (Stream.split_events T).2 ++ Stream.strip_cr chunk).
    { unfold Stream.strip_cr at 1. rewrite filter_app.
      fold (Stream.strip_cr chunk). fold (Stream.strip_cr (Stream.split_events T).2).
      unfold T. by rewrite strip_cr_rest. }
    rewrite HB, Hd. done.
Qed.

End StreamFacts.

(** * Further properties *)

(** ** X1: the hit test *)

(** X1: the hit test [findNodeAt] returns -1 exactly when the pointer is on
    no node, a node being hit when the pointer is within its radius plus 3;
    otherwise it returns the index of a node that is hit, and that node is
    the last one of the list that is hit (the one drawn on top). *)
Theorem findNodeAt_topmost (pos : number * number) (v : View) :
  (Pointer.findNodeAt pos v = -1
   /\ forall i n, nodes v !! i = Some n -> Pointer.hit pos n = false)
  \/ exists i n, Pointer.findNodeAt pos v = Z.of_nat i
       /\ nodes v !! i = Some n /\ Pointer.hit pos n = true
       /\ forall j m, (i < j)%nat -> nodes v !! j = Some m -> Pointer.hit pos m = false.
Proof. apply findNodeAt_cases. Qed.

(** ** X2: steps move nodes only *)

(** X2: on a view whose edges index its node list, any number of steps
    completes, and the steps move nodes only: the number of nodes, the id,
    title, authors, year, tags, summary, color, radius, degree and [fixed]
    flag of every node, the edges, the index, the hovered and the dragged
    index, the running flag, the size and the tooltip are what they were. *)
Theorem ticks_keep_model (warm : bool) (k : nat) (v : View) :
  edges_in_range v ->
  exists v', ticks warm k v = Some v'
    /\ length (nodes v') = length (nodes v)
    /\ static <$> nodes v' = static <$> nodes v
    /\ SimNode.fixed <$> nodes v' = SimNode.fixed <$> nodes v
    /\ edges v' = edges v /\ nodeIndex v' = nodeIndex v
    /\ hoverIndex v' = hoverIndex v /\ dragIndex v' = dragIndex v
    /\ running v' = running v
    /\ width v' = width v /\ height v' = height v /\ tooltip v' = tooltip v.
Proof.
  intros Hr. destruct (ticks_total warm k v Hr) as [v' H]. exists v'. split; [done|].
  destruct (ticks_frame _ _ _ _ H) as (? & ? & ? & ? & ? & ? & ? & ? & Hs & ?).
  split; [|done]. apply (f_equal length) in Hs. by rewrite !length_fmap in Hs.
Qed.

(** Three animated steps of the chain X - Y - Z. *)
Lemma ticks_keep_model_witness :
  exists v', ticks false 3 chain_view = Some v'
             /\ length (nodes v') = 3%nat
             /\ edges v' = edges chain_view.
Proof.
  destruct (ticks_keep_model false 3 chain_view) as (v' & H & Hl & _ & _ & He & _).
  - repeat constructor; simpl; lia.
  - exists v'. split; [exact H|]. split; [exact Hl|exact He].
Defined.

(** ** X3: what setGraph resets *)

(** X3: [setGraph] completes on every document and leaves no interaction
    state behind: nothing is hovered, nothing is dragged, no node is pinned,
    and the animation is running; the size of the view and its tooltip
    element are untouched. *)
Theorem setGraph_resets_interaction
    (Math_cos Math_sin : number -> number) (rnd : nat -> number)
    (v : View) (graph : GraphDocument) :
  exists v', Build.setGraph Math_cos Math_sin rnd v graph = Some v'
    /\ hoverIndex v' = -1 /\ dragIndex v' = -1
    /\ Forall (fun n => SimNode.fixed n = false) (nodes v')
    /\ running v' = true
    /\ width v' = width v /\ height v' = height v /\ tooltip v' = tooltip v.
Proof. apply setGraph_reset. Qed.

(** ** X4: setGraph forgets the previous model *)

(** X4: the model [setGraph] builds does not depend on the model the view
    had before: from two views of the same size and tooltip, whatever their
    nodes, edges, index, hovered and dragged node and running flag,
    [setGraph] on the same document (and platform, and random numbers)
    yields the same view. *)
Theorem setGraph_forgets_previous_model
    (Math_cos Math_sin : number -> number) (rnd : nat -> number)
    (v1 v2 : View) (graph : GraphDocument) :
  same_frame v1 v2 ->
  Build.setGraph Math_cos Math_sin rnd v1 graph
  = Build.setGraph Math_cos Math_sin rnd v2 graph.
Proof.
  intros (Hw & Hh & Ht). unfold Build.setGraph.
  assert (Hs : Build.seeded Math_cos Math_sin rnd v2 graph
               = set_running (running v2) <$> Build.seeded Math_cos Math_sin rnd v1 graph).
  { unfold Build.seeded, view_w, view_h. rewrite Hw, Hh, Ht.
    by destruct (Build.count_degrees _ _). }
  rewrite Hs. destruct (Build.seeded Math_cos Math_sin rnd v1 graph) as [s1|]; [|done].
  simpl. unfold _warmup.
  change (length (nodes (set_running (running v2) s1))) with (length (nodes s1)).
  rewrite ticks_set_running.
  destruct (ticks true _ s1) as [s2|]; [|done]. simpl.
  by rewrite !start_running.
Qed.

(** The two-paper document on the chain view and on a view with another
    model, a dragged node and the animation stopped. *)
Lemma setGraph_forgets_previous_model_witness :
  Build.setGraph cos_two sin_two jitter chain_view two_node_graph
  = Build.setGraph cos_two sin_two jitter chain_view_before two_node_graph.
Proof.
  apply (setGraph_forgets_previous_model cos_two sin_two jitter chain_view chain_view_before).
  repeat split.
Defined.

(** ** X5: the size set by resize *)

(** X5: [resize] sets a width and a height of at least 10 whatever the client
    size of the wrapper is (0, NaN and negative sizes included), so that
    the [|| 800] and [|| 600] fallbacks of the step and the paint are not
    taken afterwards; it touches neither the nodes nor the edges. *)
Theorem resize_at_least_10 (clientWidth clientHeight : number) (v : View) :
  edges_in_range v ->
  exists v' w h,
    resize clientWidth clientHeight v = Some v'
    /\ width v' = Some w /\ height v' = Some h
    /\ Num.leb Lit.n10 w = true /\ Num.leb Lit.n10 h = true
    /\ view_w v' = w /\ view_h v' = h
    /\ nodes v' = nodes v /\ edges v' = edges v.
Proof. apply resize_total. Qed.

(** A wrapper that reports the client size (NaN, 0). *)
Lemma resize_at_least_10_witness :
  exists v', resize S754_nan Lit.n0 chain_view = Some v'
             /\ width v' = Some Lit.n10 /\ height v' = Some Lit.n10.
Proof.
  destruct (resize_at_least_10 S754_nan Lit.n0 chain_view) as (v' & w & h & H & Hw & Hh & _).
  - repeat constructor; simpl; lia.
  - exists v'. split; [exact H|].
    vm_compute in H. injection H as <-. split; reflexivity.
Defined.

(** ** X6: a press and its release *)

(** X6: a press and its release leave no node pinned.  From a view with no
    pinned and no dragged node and whose node ids are well-formed UTF-16,
    a [mousedown] (on a node or not, with any button), then any pointer
    moves, clicks, frames, timer calls and resizes, then the [mouseup],
    are all handled without an exception, and afterwards no node has its
    [fixed] flag set and no node is dragged.  (The ids matter to the
    clicks: [encodeURIComponent] throws on a surrogate outside a pair.) *)
Theorem drag_gesture_releases (Math_cos Math_sin : number -> number)
    (button : Z) (pos : number * number) (evs : list Event) (v : View) :
  edges_in_range v -> no_pinned v -> dragIndex v = -1 -> ids_well_formed v ->
  Forall (fun ev => is_passive ev = true) evs ->
  exists v', run Math_cos Math_sin v (MouseDown button pos :: evs ++ [MouseUp]) = Some v'
    /\ no_pinned v' /\ dragIndex v' = -1.
Proof.
  intros Hr Hn Hd Hids Hevs.
  pose proof (no_pinned_well_formed v Hr Hn Hd) as Hwf.
  destruct (mousedown_well_formed button pos v Hwf Hd) as (v1 & H1 & Hwf1).
  assert (Hids1 : ids_well_formed v1).
  { apply (ids_same v); [|done].
    by apply (handle_ids Math_cos Math_sin v (MouseDown button pos)). }
  destruct (run_passive Math_cos Math_sin evs v1 Hwf1 Hids1 Hevs) as (v2 & H2 & Hwf2).
  destruct (mouseup_releases v2 Hwf2) as (v3 & H3 & Hn3 & Hd3).
  exists v3. split; [|done].
  cbn [run handle]. rewrite H1. simpl. rewrite run_app, H2. simpl. by rewrite H3.
Qed.

(** A press on Y in the chain, a move, a click on the dragged node, a
    frame and the release. *)
Lemma drag_gesture_releases_witness :
  exists v', run cos_at_0 sin_at_0 chain_view
               [MouseDown 0 (Num.of_Z 400, Num.of_Z 300);
                MouseMove (Num.of_Z 500, Num.of_Z 100);
                Click (Num.of_Z 500, Num.of_Z 100); AnimationFrame; MouseUp] = Some v'
             /\ no_pinned v' /\ dragIndex v' = -1.
Proof.
  apply (drag_gesture_releases cos_at_0 sin_at_0 0 (Num.of_Z 400, Num.of_Z 300)
           [MouseMove (Num.of_Z 500, Num.of_Z 100);
            Click (Num.of_Z 500, Num.of_Z 100); AnimationFrame] chain_view).
  - repeat constructor; simpl; lia.
  - repeat constructor.
  - reflexivity.
  - repeat constructor.
  - repeat constructor.
Defined.

(** ** X7: the dragged node *)

(** X7: while a node is dragged, a [mousemove] puts it at the pointer
    position and the frames that follow leave it there, whatever forces the
    steps accumulate on it; after at least one frame its velocity is zero. *)
Theorem dragged_node_follows_pointer (Math_cos Math_sin : number -> number)
    (pos : number * number) (k : nat) (v : View) (i : nat) (n : SimNode.t) :
  edges_in_range v -> dragIndex v = Z.of_nat i ->
  nodes v !! i = Some n -> SimNode.fixed n = true ->
  exists v' n',
    run Math_cos Math_sin v (MouseMove pos :: replicate k AnimationFrame) = Some v'
    /\ nodes v' !! i = Some n'
    /\ (SimNode.x n', SimNode.y n') = pos
    /\ SimNode.fixed n' = true
    /\ ((0 < k)%nat -> SimNode.vx n' = Lit.n0 /\ SimNode.vy n' = Lit.n0).
Proof.
  intros Hr Hd Hi Hfix. cbn [run handle]. unfold Pointer.mousemove, Pointer.node_at.
  rewrite Hd, Nat2Z.id.
  destruct (0 <=? Z.of_nat i) eqn:E; [|apply Z.leb_gt in E; lia].
  destruct (Z.of_nat i <? 0) eqn:E2; [apply Z.ltb_lt in E2; lia|].
  rewrite Hi. simpl.
  set (v1 := start _).
  assert (Hi1 : nodes v1 !! i = Some (SimNode.with_pos pos.1 pos.2 n)).
  { unfold v1. rewrite nodes_start. simpl. rewrite Nat2Z.id.
    apply list_lookup_insert_eq. eauto using lookup_lt_Some. }
  assert (Hr1 : edges_in_range v1).
  { unfold v1, edges_in_range. rewrite nodes_start, start_running. simpl.
    by rewrite length_insert. }
  assert (Hrun1 : running v1 = true) by (unfold v1; by rewrite start_running).
  destruct (frames_keep_pinned Math_cos Math_sin k v1 i _ Hr1 Hrun1 Hi1)
    as (v' & n' & Hrun & Hn' & Hx & Hy & Hf & Hv); [by destruct n|].
  exists v', n'. do 2 (split; [done|]). split; [|done].
  rewrite Hx, Hy. by destruct pos, n.
Qed.

(** Y of the chain, dragged to (5, 5), outside the box of the clamp, and
    two frames. *)
Lemma dragged_node_follows_pointer_witness :
  exists v' n',
    run cos_at_0 sin_at_0 chain_view_dragging
      [MouseMove (Num.of_Z 5, Num.of_Z 5); AnimationFrame; AnimationFrame] = Some v'
    /\ nodes v' !! 1%nat = Some n'
    /\ (SimNode.x n', SimNode.y n') = (Num.of_Z 5, Num.of_Z 5)
    /\ SimNode.fixed n' = true.
Proof.
  destruct (dragged_node_follows_pointer cos_at_0 sin_at_0 (Num.of_Z 5, Num.of_Z 5) 2
              chain_view_dragging 1 (sample_node "Y" 400 300 0 0 true))
    as (v' & n' & H & Hn & Hp & Hf & _).
  - repeat constructor; simpl; lia.
  - reflexivity.
  - reflexivity.
  - reflexivity.
  - exists v', n'. split; [exact H|]. split; [exact Hn|]. split; [exact Hp|exact Hf].
Defined.

(** ** X8: colors of the palette *)

(** X8: every node of the model [setGraph] builds has one of the eight colors
    of the palette, whatever cluster index or hash selects it. *)
Theorem colors_in_palette
    (Math_cos Math_sin : number -> number) (rnd : nat -> number)
    (v : View) (graph : GraphDocument) :
  exists v', Build.setGraph Math_cos Math_sin rnd v graph = Some v'
    /\ Forall (fun n => SimNode.color n ∈ Build.palette) (nodes v').
Proof.
  destruct (setGraph_spec Math_cos Math_sin rnd v graph) as (v' & H & _).
  exists v'. split; [done|].
  destruct (setGraph_ids _ _ _ _ _ _ H) as [_ Hc].
  enough (Forall (fun c => c ∈ Build.palette) (SimNode.color <$> nodes v')) as HF
    by (by apply Forall_fmap in HF).
  rewrite Hc. apply Forall_fmap, Forall_forall.
  intros n (raw & _ & Hn)%list_elem_of_omap. simpl. by eapply build_node_color.
Qed.

(** ** X9: edge weights *)

(** X9: the weight [setGraph] gives an edge is one of the integers 1, 2, 3,
    4, 5, whatever the document holds for it (nothing, 0, NaN, an infinity,
    a negative or a fractional number). *)
Theorem edge_weights_1_to_5 (Math_cos Math_sin : number -> number) (rnd : nat -> number)
    (v : View) (graph : GraphDocument) :
  (forall raw, weight_1_to_5 (Build.edge_weight raw))
  /\ exists v', Build.setGraph Math_cos Math_sin rnd v graph = Some v'
       /\ Forall (fun e => weight_1_to_5 (SimEdge.weight e)) (edges v').
Proof.
  split; [apply edge_weight_range|].
  destruct (setGraph_spec Math_cos Math_sin rnd v graph) as (v' & H & He & _).
  exists v'. split; [done|]. rewrite He. unfold built_edges.
  apply Forall_forall. intros se (e & _ & Hse)%list_elem_of_omap.
  unfold Build.build_edge in Hse.
  destruct (_ !! Str.or_else (raw_source e) []) as [a|]; [|done].
  destruct (_ !! Str.or_else (raw_target e) []) as [b|]; [|done].
  destruct (bool_decide (a = b)); [done|]. injection Hse as <-. simpl.
  apply edge_weight_range.
Qed.

(** ** X10: the rest length of the links *)

(** X10: the rest length [baseDist] of the links lies between 80 and 180 for
    every view, whatever its size. *)
Theorem baseDist_range (v : View) :
  Num.leb Lit.n80 (Tick.baseDist (view_w v) (view_h v)) = true
  /\ Num.leb (Tick.baseDist (view_w v) (view_h v)) Lit.n180 = true.
Proof.
  unfold Tick.baseDist. apply max_min_in_range; [done..|].
  apply mul_finite_not_nan, Math_min_not_nan; apply truthy_not_nan.
  - apply view_w_truthy.
  - apply view_h_truthy.
Qed.

(** ** X11: disc opacity *)

(** X11: [draw] paints one disc per node, with the color, position and radius
    of the node; with a hovered node, the hovered node and the nodes an edge
    joins to it are at opacity 1 and all others at 0.25; with no hovered
    node all discs are at opacity 1. *)
Theorem draw_disc_opacity (v : View) (p : Paint) :
  draw v = Some p ->
  length (discs p) = length (nodes v)
  /\ forall i n, nodes v !! i = Some n ->
       exists d, discs p !! i = Some d
         /\ disc_fill d = SimNode.color n
         /\ disc_center d = (SimNode.x n, SimNode.y n)
         /\ disc_r d = SimNode.r n
         /\ disc_alpha d =
            (if (hoverIndex v <? 0) || (Z.of_nat i =? hoverIndex v)
                || existsb (joins (hoverIndex v) i) (edges v)
             then Lit.n1 else Lit.n0_25).
Proof.
  unfold draw. intros H.
  destruct (mapM _ (edges v)) as [ss|]; [|done]. simpl in H. injection H as <-. simpl.
  split; [by rewrite length_imap|].
  intros i n Hi. rewrite list_lookup_imap, Hi. simpl. eexists. split; [done|].
  do 3 (split; [done|]). simpl.
  destruct (hoverIndex v <? 0) eqn:E; [done|]. simpl. apply Z.ltb_ge in E.
  destruct (Z.of_nat i =? hoverIndex v); [done|]. simpl.
  case_bool_decide as Hadj; rewrite adjacent_spec in Hadj by done.
  - by rewrite Hadj.
  - by destruct (existsb _ _).
Qed.

(** The chain X - Y - Z with X hovered: Z is dimmed. *)
Lemma draw_disc_opacity_witness :
  exists p, draw (set_hover 0 chain_view) = Some p
            /\ disc_alpha <$> discs p = [Lit.n1; Lit.n1; Lit.n0_25]
            /\ exists d, discs p !! 2%nat = Some d /\ disc_alpha d = Lit.n0_25.
Proof.
  eexists. split; [vm_compute; reflexivity|]. split; [by vm_compute|].
  destruct (draw_disc_opacity (set_hover 0 chain_view) _ eq_refl) as [_ H].
  destruct (H 2%nat _ eq_refl) as (d & Hd & _ & _ & _ & Ha).
  exists d. split; [exact Hd|exact Ha].
Defined.

(** ** X12: the ten most connected nodes *)

(** X12: the set [important] of [draw] holds the indices of the ten nodes of
    highest degree (of all nodes when there are fewer than ten), ties going
    to the lower index: every node in the set has a higher degree than
    every node outside it, or the same degree and a lower index. *)
Theorem important_top_ten (ns : list SimNode.t) :
  size (Draw.important ns) = Nat.min 10 (length ns)
  /\ (forall i, i ∈ Draw.important ns -> (i < length ns)%nat)
  /\ forall i j ni nj,
       ns !! i = Some ni -> ns !! j = Some nj ->
       i ∈ Draw.important ns -> j ∉ Draw.important ns ->
       (SimNode.degree nj < SimNode.degree ni)%nat
       \/ (SimNode.degree nj = SimNode.degree ni /\ (i < j)%nat).
Proof.
  set (sorted := Draw.sort_by_degree (degree_entries ns)).
  assert (Hperm : sorted ≡ₚ degree_entries ns) by apply sort_by_degree_perm.
  assert (Hsorted : StronglySorted ranks_before sorted)
    by apply sort_by_degree_sorted, degree_entries_sorted.
  assert (Hin : forall i d, (i, d) ∈ take 10 sorted ->
                  exists n, ns !! i = Some n /\ SimNode.degree n = d).
  { intros i d H. apply elem_of_degree_entries. rewrite <- Hperm.
    rewrite <- (take_drop 10 sorted). apply elem_of_app. by left. }
  split; [|split].
  - unfold Draw.important. fold (degree_entries ns). fold sorted.
    rewrite size_list_to_set.
    + rewrite length_fmap, length_take. f_equal.
      rewrite Hperm. unfold degree_entries. by rewrite length_imap.
    + rewrite fmap_take. apply (sublist_NoDup _ (sorted.*1)); [|apply sublist_take].
      rewrite Hperm, degree_entries_fst. apply NoDup_seq.
  - intros i [d H]%important_spec. destruct (Hin i d H) as (n & Hn & _).
    eauto using lookup_lt_Some.
  - intros i j ni nj Hi Hj [d Hd]%important_spec Hnot.
    destruct (Hin i d Hd) as (n & Hn & Hdn). rewrite Hi in Hn. injection Hn as <-.
    assert (Hj' : (j, SimNode.degree nj) ∈ drop 10 sorted).
    { assert (H : (j, SimNode.degree nj) ∈ sorted)
        by (rewrite Hperm; apply elem_of_degree_entries; eauto).
      rewrite <- (take_drop 10 sorted) in H. apply elem_of_app in H as [H|H]; [|done].
      destruct Hnot. apply important_spec. eauto. }
    rewrite <- (take_drop 10 sorted) in Hsorted.
    pose proof (sorted_app_before _ _ _ _ Hsorted Hd Hj') as Hb.
    unfold ranks_before in Hb. simpl in Hb. lia.
Qed.

(** ** X13: labels *)

(** X13: [draw] labels a node exactly when the model has at most 25 nodes, or
    the node is one of the ten most connected ones, or it is the hovered
    node; the label is the title (the id when the title is empty), cut
    after 16 code units and followed by an ellipsis when it is longer, so
    it has at most 17 code units, and it is not empty when the id is not. *)
Theorem draw_labels (v : View) (p : Paint) :
  draw v = Some p ->
  forall i n, nodes v !! i = Some n ->
    exists d, discs p !! i = Some d
      /\ (is_Some (disc_label d)
          <-> (length (nodes v) <= 25)%nat \/ i ∈ Draw.important (nodes v)
              \/ Z.of_nat i = hoverIndex v)
      /\ forall lab, disc_label d = Some lab ->
           label_text lab = label_of n
           /\ (length (label_text lab) <= 17)%nat
           /\ (SimNode.id n <> [] -> label_text lab <> []).
Proof.
  unfold draw. intros H.
  destruct (mapM _ (edges v)) as [ss|]; [|done]. simpl in H. injection H as <-. simpl.
  intros i n Hi. rewrite list_lookup_imap, Hi. simpl. eexists. split; [done|]. simpl.
  split.
  - destruct (length (nodes v) <=? 25)%nat eqn:E1; simpl.
    { apply Nat.leb_le in E1. split; [by left|by eexists]. }
    apply Nat.leb_gt in E1.
    case_bool_decide as E2; simpl.
    { split; [by right; left|by eexists]. }
    destruct (Z.of_nat i =? hoverIndex v) eqn:E3.
    { apply Z.eqb_eq in E3. split; [by right; right|by eexists]. }
    apply Z.eqb_neq in E3. split; [by intros [? ?]|]. intros [?|[?|?]]; [lia|done|done].
  - intros lab Hlab.
    destruct (_ || _ || _); [|done]. injection Hlab as <-. simpl.
    split; [done|]. unfold label_of.
    set (label := if Str.truthy (SimNode.title n) then SimNode.title n else SimNode.id n).
    destruct (16 <? length label)%nat eqn:E.
    + apply Nat.ltb_lt in E. split.
      * rewrite length_app, length_take, Nat.min_l by lia.
        unfold Draw.ellipsis. cbn [length]. lia.
      * intros _ Heq. apply (f_equal length) in Heq.
        rewrite length_app in Heq. unfold Draw.ellipsis in Heq. cbn [length] in Heq. lia.
    + apply Nat.ltb_ge in E. split; [lia|].
      unfold label. destruct (SimNode.title n) eqn:Et; simpl; done.
Qed.

(** The label of Y in the chain. *)
Lemma draw_labels_witness :
  exists p d lab,
    draw chain_view = Some p /\ discs p !! 1%nat = Some d
    /\ disc_label d = Some lab /\ label_text lab = Str.js "Y".
Proof.
  eexists.
  destruct (draw_labels chain_view _ eq_refl 1%nat (sample_node "Y" 400 300 0 0 false) eq_refl)
    as (d & Hd & Hs & Hl).
  destruct (proj2 Hs) as [lab Hlab]; [left; simpl; lia|].
  exists d, lab. split; [vm_compute; reflexivity|]. split; [exact Hd|]. split; [exact Hlab|].
  exact (proj1 (Hl lab Hlab)).
Defined.

(** ** X14: what the page shows *)

(** X14: [loadAndRender] shows the graph exactly when the analysis is neither
    running nor failed and the document has at least one node entry;
    otherwise it shows the empty state and leaves the view as it was.  When
    it shows the graph, the status line reports the numbers of node and
    edge entries of the document, which are upper bounds of the numbers of
    nodes and edges of the model that is drawn; the view is at least 10
    wide and high and its animation is running. *)
Theorem loadAndRender_counts (Math_cos Math_sin : number -> number)
    (meta : Page.Meta) (graph : GraphDocument) (client : number * number)
    (rnd : nat -> number) (pg : Page.t) :
  edges_in_range (Page.view pg) ->
  exists pg', Page.loadAndRender Math_cos Math_sin meta graph client rnd pg = Some pg'
    /\ (Page.panel pg' = Page.PanelGraph <-> has_graph meta graph)
    /\ (Page.panel pg' = Page.PanelEmpty -> Page.view pg' = Page.view pg)
    /\ (Page.panel pg' = Page.PanelGraph ->
        (exists ts, Page.status pg'
                    = Some (Page.StatusReady (length (g_nodes graph))
                              (length (g_edges graph)) ts))
        /\ (length (nodes (Page.view pg')) <= length (g_nodes graph))%nat
        /\ (length (edges (Page.view pg')) <= length (g_edges graph))%nat
        /\ running (Page.view pg') = true
        /\ Num.leb Lit.n10 (view_w (Page.view pg')) = true
        /\ Num.leb Lit.n10 (view_h (Page.view pg')) = true).
Proof.
  intros Hr. unfold Page.loadAndRender, has_graph.
  set (state := Str.or_else (Page.meta_state meta) (Str.js "idle")).
  case_bool_decide as E1.
  { eexists. split; [done|]. simpl. split; [split; [done|tauto]|]. split; done. }
  case_bool_decide as E2.
  { eexists. split; [done|]. simpl. split; [split; [done|tauto]|]. split; done. }
  destruct (g_nodes graph) as [|raw raws] eqn:En.
  { eexists. split; [done|]. simpl. split; [split; [done|tauto]|]. split; done. }
  rewrite <- En. cbv zeta.
  destruct (resize_total client.1 client.2 (Page.view (Page.updateButtons meta pg)))
    as (v1 & w & h & -> & Hw & Hh & Hlw & Hlh & Hvw & Hvh & _); [done|].
  simpl.
  destruct (setGraph_reset Math_cos Math_sin rnd v1 graph)
    as (v2 & H2 & _ & _ & _ & Hrun & Hw2 & Hh2 & _).
  destruct (setGraph_spec Math_cos Math_sin rnd v1 graph)
    as (v2' & H2' & He & _ & _ & _ & _ & _ & Hl & _).
  rewrite H2 in H2'. injection H2' as <-. rewrite H2.
  simpl. eexists. split; [done|]. simpl.
  split; [split; [intros _; by rewrite En|done]|]. split; [done|]. intros _.
  split; [by eexists|].
  split; [rewrite Hl; apply length_omap_le|].
  split; [rewrite He; apply length_omap_le|].
  split; [done|].
  assert (Hv : view_w v2 = view_w v1 /\ view_h v2 = view_h v1)
    by (unfold view_w, view_h; by rewrite Hw2, Hh2).
  destruct Hv as [-> ->]. by rewrite Hvw, Hvh.
Qed.

(** The two-paper document, analysis done, on a page that showed the
    chain. *)
Lemma loadAndRender_counts_witness :
  exists pg',
    Page.loadAndRender cos_two sin_two done_meta two_node_graph
      (Num.of_Z 800, Num.of_Z 600) jitter chain_page = Some pg'
    /\ Page.panel pg' = Page.PanelGraph
    /\ (length (nodes (Page.view pg')) <= 2)%nat.
Proof.
  destruct (loadAndRender_counts cos_two sin_two done_meta two_node_graph
              (Num.of_Z 800, Num.of_Z 600) jitter chain_page)
    as (pg' & H & Hp & _ & Hg).
  - repeat constructor; simpl; lia.
  - assert (Hpanel : Page.panel pg' = Page.PanelGraph).
    { apply Hp. repeat split; by vm_compute. }
    exists pg'. split; [exact H|]. split; [exact Hpanel|].
    exact (proj1 (proj2 (Hg Hpanel))).
Defined.

(** ** X15: escaping, unit by unit *)

(** X15: the five successive [replaceAll] of [escapeHtml] amount to replacing
    each code unit on its own (the ampersands written by the later
    replacements are not escaped again), so escaping distributes over
    concatenation. *)
Theorem escapeHtml_unit_by_unit (s t : JsString) :
  Html.escapeHtml s = s ≫= escape_unit
  /\ Html.escapeHtml (s ++ t) = Html.escapeHtml s ++ Html.escapeHtml t.
Proof. split; [apply escapeHtml_bind|apply escapeHtml_app]. Qed.

(** ** X16: escaped text is inert *)

(** X16: the result of [escapeHtml] contains none of the characters [<], [>],
    double quote and single quote. *)
Theorem escapeHtml_is_inert (s : JsString) :
  Forall (fun d => d <> Html.lt /\ d <> Html.gt /\ d <> Html.quot /\ d <> Html.apos)
         (Html.escapeHtml s).
Proof. apply escapeHtml_inert_units. Qed.

(** ** X17: escaping loses nothing *)

(** X17: [escapeHtml] loses nothing: two strings have the same escaped form
    only when they are the same string. *)
Theorem escapeHtml_injective (s t : JsString) :
  Html.escapeHtml s = Html.escapeHtml t <-> s = t.
Proof. split; [apply escapeHtml_inj|by intros ->]. Qed.

(** ** X18: escaping twice *)

(** X18: [escapeHtml] returns its argument unchanged exactly when the argument
    contains none of the five characters it replaces, and escaping an
    escaped string changes it again exactly when the original contained one
    of them (escaping is not idempotent). *)
Theorem escapeHtml_twice (s : JsString) :
  (Html.escapeHtml s = s <-> Forall (fun c => is_markup c = false) s)
  /\ (Html.escapeHtml (Html.escapeHtml s) = Html.escapeHtml s
      <-> Forall (fun c => is_markup c = false) s).
Proof.
  split; split.
  - apply escapeHtml_fixed_clean.
  - apply escapeHtml_clean.
  - intros H. by apply escapeHtml_clean_inv, escapeHtml_fixed_clean.
  - intros H. by rewrite (escapeHtml_clean s H), (escapeHtml_clean s H).
Qed.

(** ** X19: list markup *)

(** X19: [renderList] returns the hint for a missing or empty list; for a list
    of n entries, n at least 1, the markup has exactly 2n + 2 characters
    [<], those of the list element and of one item element per entry: no
    entry adds a tag. *)
Theorem renderList_one_item_per_entry (x : JsString) (l : list JsString) :
  Html.renderList None = Html.hint_not_mentioned
  /\ Html.renderList (Some []) = Html.hint_not_mentioned
  /\ occurrences Html.lt (Html.renderList (Some (x :: l))) = (2 * length (x :: l) + 2)%nat.
Proof.
  do 2 (split; [done|]).
  unfold Html.renderList.
  rewrite !occurrences_app.
  change (occurrences Html.lt (Str.js "<ul>")) with 1%nat.
  change (occurrences Html.lt (Str.js "</ul>")) with 1%nat.
  enough (forall l : list JsString,
    occurrences Html.lt
      (Str.join [] ((fun x => Str.js "<li>" ++ Html.escapeHtml x ++ Str.js "</li>") <$> l))
    = (2 * length l)%nat) as -> by lia.
  clear. intros l. induction l as [|y l IH]; [done|].
  rewrite fmap_cons.
  assert (Hj : forall p ps, Str.join [] (p :: ps) = p ++ Str.join [] ps).
  { intros p [|q ps]; simpl; [by rewrite app_nil_r|done]. }
  rewrite Hj, !occurrences_app, IH, occurrences_escapeHtml_lt.
  change (occurrences Html.lt (Str.js "<li>")) with 1%nat.
  change (occurrences Html.lt (Str.js "</li>")) with 1%nat.
  simpl. lia.
Qed.

(** ** X20: badge markup *)

(** X20: [badge] always returns one span: its text is the escaped state, which
    is never empty (a missing or empty state reads "unknown"), its class is
    "ok" exactly for the states "analyzed" and "translated", "bad" exactly
    for "failed" and "warn" otherwise, and whatever the state the markup
    has exactly two [<], two [>] and two double quotes. *)
Theorem badge_is_one_span (state : option JsString) :
  exists cls s,
    Html.badge state = Html.badge_span cls s
    /\ s = Str.or_else state (Str.js "unknown") /\ s <> []
    /\ (cls = Str.js "ok" \/ cls = Str.js "bad" \/ cls = Str.js "warn")
    /\ (cls = Str.js "ok" <-> s = Str.js "analyzed" \/ s = Str.js "translated")
    /\ (cls = Str.js "bad" <-> s = Str.js "failed")
    /\ occurrences Html.lt (Html.badge state) = 2%nat
    /\ occurrences Html.gt (Html.badge state) = 2%nat
    /\ occurrences Html.quot (Html.badge state) = 2%nat.
Proof.
  unfold Html.badge. set (s := Str.or_else state (Str.js "unknown")).
  assert (Hs : s <> []).
  { unfold s, Str.or_else. destruct state as [[|c t]|]; done. }
  assert (Hocc : forall cls,
            cls = Str.js "ok" \/ cls = Str.js "bad" \/ cls = Str.js "warn" ->
            occurrences Html.lt (Html.badge_span cls s) = 2%nat
            /\ occurrences Html.gt (Html.badge_span cls s) = 2%nat
            /\ occurrences Html.quot (Html.badge_span cls s) = 2%nat).
  { intros cls Hcls. unfold Html.badge_span. rewrite !occurrences_app.
    rewrite !occurrences_escapeHtml by tauto.
    destruct Hcls as [->|[->| ->]]; by vm_compute. }
  assert (Hok : Str.js "ok" <> Str.js "bad") by (by vm_compute).
  assert (Hwb : Str.js "warn" <> Str.js "bad") by (by vm_compute).
  assert (Hwo : Str.js "warn" <> Str.js "ok") by (by vm_compute).
  assert (Hfa : Str.js "failed" <> Str.js "analyzed") by (by vm_compute).
  assert (Hft : Str.js "failed" <> Str.js "translated") by (by vm_compute).
  assert (Hin : s ∈ [Str.js "analyzed"; Str.js "translated"]
                <-> s = Str.js "analyzed" \/ s = Str.js "translated").
  { rewrite !elem_of_cons, elem_of_nil. tauto. }
  case_bool_decide as E1; [|case_bool_decide as E2].
  - eexists _, s. split; [done|]. do 2 (split; [done|]). split; [by left|].
    split; [split; [intros _; by apply Hin|done]|].
    split; [|by apply Hocc; left].
    split; [done|]. intros Hf. apply Hin in E1. destruct E1; congruence.
  - eexists _, s. split; [done|]. do 2 (split; [done|]). split; [by right; left|].
    split; [split; [intros H; by destruct Hok|intros H; by apply Hin in H]|].
    split; [done|by apply Hocc; right; left].
  - eexists _, s. split; [done|]. do 2 (split; [done|]). split; [by right; right|].
    split; [split; [intros H; by destruct Hwo|intros H; by apply Hin in H]|].
    split; [split; [intros H; by destruct Hwb|done]|by apply Hocc; right; right].
Qed.

(** ** X21: the transcript *)

(** X21: whatever is sent, streamed, failed, finished and cleared, the
    transcript is a sequence of exchanges, a user message followed by an
    assistant message, so its length is even; while a request is in flight
    its last entry is the assistant message being written. *)
Theorem chat_alternates (evs : list Chat.Event) :
  exists k, Chat.role <$> Chat.chat (Chat.run evs) = exchanges k
    /\ length (Chat.chat (Chat.run evs)) = (2 * k)%nat
    /\ (Chat.busy (Chat.run evs) = true ->
        exists m, last (Chat.chat (Chat.run evs)) = Some m
                  /\ Chat.role m = Chat.assistant).
Proof.
  destruct (run_alternating evs) as (k & Hk & Hb). exists k. split; [done|]. split.
  - apply (f_equal length) in Hk. by rewrite length_fmap, exchanges_length in Hk.
  - intros E. apply (last_exchanges _ k); auto.
Qed.

(** ** X22: the history of a request *)

(** X22: [send] does nothing when the trimmed text is empty or a request is in
    flight.  Otherwise it appends the trimmed text as a user message and an
    empty assistant message, and the request carries the last 12 entries of
    the transcript after that: the last six exchanges at most, always whole
    ones, ending with the empty assistant message. *)
Theorem send_history (evs : list Chat.Event) (text : JsString) :
  let st := Chat.run evs in
  (Chat.send text st = (st, None) /\ (Str.trim text = [] \/ Chat.busy st = true))
  \/ exists st' h k,
       Chat.send text st = (st', Some h)
       /\ Str.trim text <> [] /\ Chat.busy st = false /\ Chat.busy st' = true
       /\ Chat.chat st'
          = Chat.chat st ++ [{| Chat.role := Chat.user; Chat.content := Str.trim text |};
                             {| Chat.role := Chat.assistant; Chat.content := [] |}]
       /\ h = drop (length (Chat.chat st') - 12) (Chat.chat st')
       /\ Chat.role <$> Chat.chat st = exchanges k
       /\ Chat.role <$> h = exchanges (Nat.min 6 (S k))
       /\ last h = Some {| Chat.role := Chat.assistant; Chat.content := [] |}.
Proof.
  intros st. destruct (run_alternating evs) as (k & Hk & Hb). fold st in Hk, Hb.
  unfold Chat.send.
  destruct (Str.trim text) as [|c t] eqn:Et; [left; by split; [|left]|].
  simpl negb. cbv iota.
  destruct (Chat.busy st) eqn:E; [left; by split; [|right]|].
  right. set (c' := Chat.chat st ++ _).
  assert (Hk' : Chat.role <$> c' = exchanges (S k)).
  { unfold c'. by rewrite fmap_app, Hk, <- exchanges_snoc. }
  assert (Hl : length c' = (2 * S k)%nat).
  { apply (f_equal length) in Hk'. by rewrite length_fmap, exchanges_length in Hk'. }
  eexists _, _, k. split; [done|]. do 4 (split; [done|]). cbn [Chat.chat Chat.busy].
  rewrite (history_last_12 c' (S k) Hk'). split; [done|]. split; [done|]. split.
  - rewrite fmap_drop, Hk', Hl.
    destruct (le_lt_dec (S k) 6) as [H6|H6].
    + replace (2 * S k - 12)%nat with 0%nat by lia. rewrite Nat.min_r by lia. done.
    + replace (2 * S k - 12)%nat with (2 * (S k - 6))%nat by lia.
      rewrite exchanges_drop, Nat.min_l by lia. f_equal. lia.
  - rewrite last_drop_lt by lia. unfold c'. by rewrite last_app.
Qed.

(** ** X23: chunks of the streamed answer *)

(** X23: the texts the read loop of [streamCompletion] gives to [onDelta] do
    not depend on how the stream is cut into chunks: they are those of the
    events of the whole text without carriage returns, each event ended by
    an empty line, up to the first [DONE]; what follows the last empty line
    is never delivered. *)
Theorem stream_chunking (payload : JsString -> option JsString) (chunks : list JsString) :
  Stream.stream payload chunks = Stream.stream payload [concat chunks]
  /\ Stream.stream payload chunks
     = (Stream.on_events payload
          (Stream.split_events (Stream.strip_cr (concat chunks))).1).1.
Proof.
  unfold Stream.stream.
  destruct (foldl_read payload chunks) as (-> & _).
  destruct (foldl_read payload [concat chunks]) as (-> & _).
  simpl. by rewrite app_nil_r.
Qed.

(** ** X24: a click on a node *)

(** X24: a click never changes the view, and it throws exactly when the
    pointer is on a node (the last of the list that is hit) whose id is not
    well-formed UTF-16: [encodeURIComponent] throws its URIError exactly on
    the strings with a surrogate outside a pair. *)
Theorem click_throws_on_unpaired_surrogate (pos : number * number) (v : View) :
  (Pointer.click pos v = Some v \/ Pointer.click pos v = None)
  /\ (Pointer.click pos v = None <->
      exists i n, Pointer.findNodeAt pos v = Z.of_nat i /\ nodes v !! i = Some n
                  /\ Str.isWellFormed (SimNode.id n) = false)
  /\ forall s, Str.encodeURIComponent s = None <-> Str.isWellFormed s = false.
Proof.
  split; [|split].
  - destruct (click_cases pos v) as [[_ ->]|(i & n & _ & _ & ->)]; [by left|].
    destruct (Str.isWellFormed _); eauto.
  - destruct (click_cases pos v) as [[Hf ->]|(i & n & Hf & Hn & ->)].
    + split; [done|]. intros (i & n & Hi & _). lia.
    + destruct (Str.isWellFormed (SimNode.id n)) eqn:E.
      * split; [done|]. intros (i' & n' & Hi' & Hn' & E').
        rewrite Hf in Hi'. apply Nat2Z.inj in Hi'. subst i'. congruence.
      * split; [|done]. intros _. by exists i, n.
  - intros s. pose proof (encodeURIComponent_isWellFormed s) as Hw.
    destruct (Str.encodeURIComponent s) as [u|], (Str.isWellFormed s); split; try done.
    + intros _. by assert (false = true) by (apply Hw; eauto).
    + intros _. by destruct (proj2 Hw eq_refl).
Qed.
